(** * AI-Toolbox: rollout estimators and the tiger model

    A shallow embedding of

    - [AIToolbox::MDP::rollout] and [AIToolbox::MDP::adaptiveRollout]
      (include/AIToolbox/MDP/Algorithms/Utils/Rollout.hpp), and
    - [makeTigerProblem] (examples/POMDP/tiger_door.cpp).

    A C++ [double] is an IEEE-754 binary64 number, embedded as Rocq's
    primitive [float]; every arithmetic operation of the source is one
    correctly rounded operation here, in the order the source performs it.
    An [unsigned] loop counter is a [nat]; a [size_t] is an [N] whose
    wrap-around modulo [2^64] is written out where the source subtracts.
    The random generator handed to the rollouts by reference, and the
    engine a model keeps for its own sampling, are threaded explicitly. *)

From Stdlib Require Import ZArith NArith List Lia Bool Floats.
From Stdlib Require Ascii.
Import ListNotations.

Set Warnings "-inexact-float".

(** ** Machine numbers *)

Definition double := float.

Definition size_t := N.

Definition SIZE_MAX : size_t := (2 ^ 64 - 1)%N.

(** [a - 1] on [size_t]: zero wraps around to [SIZE_MAX]. *)
Definition size_pred (a : size_t) : size_t := ((a + SIZE_MAX) mod 2 ^ 64)%N.

(** The conversion of an [unsigned] (or of a small [size_t]) to [double]. *)
Definition to_double (n : nat) : double :=
  PrimFloat.of_uint63 (Uint63.of_Z (Z.of_nat n)).

(** ** The tiger problem (tiger_door.cpp) *)

Module Tiger.

Definition A_LISTEN : nat := 0.
Definition A_LEFT : nat := 1.
Definition A_RIGHT : nat := 2.

Definition TIG_LEFT : nat := 0.
Definition TIG_RIGHT : nat := 1.

(** [AIToolbox::DumbMatrix3D] is a [boost::multi_array<double, 3>]: a dense
    table whose cells are value-initialised to [0.0]. *)
Definition DumbMatrix3D := list (list (list double)).

Definition extents (d0 d1 d2 : nat) : DumbMatrix3D :=
  repeat (repeat (repeat 0%float d2) d1) d0.

Definition at3 (t : DumbMatrix3D) (i j k : nat) : double :=
  nth k (nth j (nth i t []) []) 0%float.

Fixpoint update {X : Type} (i : nat) (f : X -> X) (l : list X) : list X :=
  match l, i with
  | [], _ => []
  | x :: l', O => f x :: l'
  | x :: l', S i' => x :: update i' f l'
  end.

(** [t[i][j][k] = v]. *)
Definition assign (i j k : nat) (v : double) (t : DumbMatrix3D) : DumbMatrix3D :=
  update i (update j (update k (fun _ => v))) t.

(** [for (size_t i = 0; i < n; ++i) body(i)] acting on a table. *)
Definition for_each {X : Type} (n : nat) (body : nat -> X -> X) (t : X) : X :=
  fold_left (fun acc i => body i acc) (seq 0 n) t.

Record Model := {
  getO : nat;
  getS : nat;
  getA : nat;
  transitions : DumbMatrix3D;
  rewards : DumbMatrix3D;
  observations : DumbMatrix3D
}.

Definition makeTigerProblem : Model :=
  let S := 2 in
  let A := 3 in
  let O := 2 in
  let transitions := extents S A S in
  let rewards := extents S A S in
  let observations := extents S A O in
  (* If we listen, nothing changes. *)
  let transitions :=
    for_each S (fun s => assign s A_LISTEN s 1%float) transitions in
  (* If we pick a door, tiger and treasure shuffle. *)
  let transitions :=
    for_each S (fun s =>
      for_each S (fun s1 t =>
        let t := assign s A_LEFT s1 (1 / to_double S)%float t in
        assign s A_RIGHT s1 (1 / to_double S)%float t)) transitions in
  (* If we listen, we guess right 85% of the time. *)
  let observations := assign TIG_LEFT A_LISTEN TIG_LEFT 0.85%float observations in
  let observations := assign TIG_LEFT A_LISTEN TIG_RIGHT 0.15%float observations in
  let observations := assign TIG_RIGHT A_LISTEN TIG_RIGHT 0.85%float observations in
  let observations := assign TIG_RIGHT A_LISTEN TIG_LEFT 0.15%float observations in
  (* Otherwise we get no information on the environment. *)
  let observations :=
    for_each S (fun s =>
      for_each O (fun o t =>
        let t := assign s A_LEFT o (1 / to_double O)%float t in
        assign s A_RIGHT o (1 / to_double O)%float t)) observations in
  (* Listening has a small penalty. *)
  let rewards :=
    for_each S (fun s =>
      for_each S (fun s1 => assign s A_LISTEN s1 (-1)%float)) rewards in
  (* Treasure has a decent reward, and tiger a bad penalty. *)
  let rewards :=
    for_each S (fun s1 t =>
      let t := assign TIG_RIGHT A_LEFT s1 10%float t in
      let t := assign TIG_LEFT A_LEFT s1 (-100)%float t in
      let t := assign TIG_LEFT A_RIGHT s1 10%float t in
      assign TIG_RIGHT A_RIGHT s1 (-100)%float t) rewards in
  {| getO := O; getS := S; getA := A;
     transitions := transitions;
     rewards := rewards;
     observations := observations |}.

(** The probability mass of a row, added up left to right in [double]. *)
Definition row_sum (t : DumbMatrix3D) (i j : nat) : double :=
  fold_left PrimFloat.add (nth j (nth i t []) []) 0%float.

Definition row_nonneg (t : DumbMatrix3D) (i j : nat) : bool :=
  forallb (fun p => PrimFloat.leb 0%float p) (nth j (nth i t []) []).

Definition is_distribution (t : DumbMatrix3D) (i j : nat) : Prop :=
  row_nonneg t i j = true /\ row_sum t i j = 1%float.

End Tiger.

(** ** Random generators and generative models *)

(** The [Gen] template parameter: a generator from which
    [std::uniform_int_distribution<size_t> dist(a, b)] draws, [dist(rnd)]
    returning the drawn number and leaving [rnd] advanced. *)
Class UniformRandomBitGenerator (Gen : Type) := {
  uniform_int_distribution : size_t -> size_t -> Gen -> size_t * Gen
}.

(** What the C++ standard promises of [uniform_int_distribution(a, b)]:
    every draw lies in the closed range [[a, b]]. *)
Definition draws_in_range (Gen : Type) `{UniformRandomBitGenerator Gen} : Prop :=
  forall (a b : size_t) (g : Gen),
    (a <= b)%N ->
    (a <= fst (uniform_int_distribution a b g) <= b)%N.

(** [HasFixedActionSpace<M>]: the model answers [getA()]; otherwise it
    answers [getA(s)]. *)
Inductive ActionSpace (State : Type) : Type :=
| FixedActionSpace (A : size_t)
| VariableActionSpace (A : State -> size_t).

Arguments FixedActionSpace {State} A.
Arguments VariableActionSpace {State} A.

(** [IsGenerativeModel<M>]. [Engine] is the model's own random engine, which
    [sampleSR] advances although the model is passed by const reference. *)
Record GenerativeModel (State Engine : Type) : Type := {
  getA : ActionSpace State;
  sampleSR : State -> size_t -> Engine -> (State * double) * Engine;
  isTerminal : State -> bool;
  getDiscount : double
}.

Arguments getA {State Engine} _.
Arguments sampleSR {State Engine} _ _ _ _.
Arguments isTerminal {State Engine} _ _.
Arguments getDiscount {State Engine} _.

(** How a call left its loop. *)
Inductive Stop : Type := AtTerminal | AtConvergence | AtMaxDepth.

(** [rewardWindow.back()], which the C++ standard leaves undefined on an
    empty deque. *)
Fixpoint back (window : list double) : option double :=
  match window with
  | [] => None
  | [x] => Some x
  | _ :: rest => back rest
  end.

(** The sliding-window update of [adaptiveRollout] (lines 117-122):
    [push_back], then, when the deque has grown beyond [windowSize],
    subtract [front()] from the running sum and [pop_front()]. *)
Definition slide (windowSize : nat) (rewardWindow : list double)
    (windowSum x : double) : list double * double :=
  let rewardWindow := rewardWindow ++ [x] in
  let windowSum := (windowSum + x)%float in
  if windowSize <? length rewardWindow then
    match rewardWindow with
    | front :: rest => (rest, (windowSum - front)%float)
    | [] => (rewardWindow, windowSum)
    end
  else (rewardWindow, windowSum).

(** The test of line 132. *)
Definition close_enough (latestReward avgReward threshold : double) : bool :=
  (abs (latestReward - avgReward) <? threshold)%float.

(** [gamma] after [depth] executions of [gamma *= m.getDiscount()],
    starting from [1.0]. *)
Definition discount_pow (discount : double) (depth : nat) : double :=
  Nat.iter depth (fun gamma => (gamma * discount)%float) 1%float.

Section Rollout.

Context {State Engine Gen : Type} `{UniformRandomBitGenerator Gen}.

(** One simulated step, [std::tie(s, rew) = m.sampleSR(s, dist(rnd))],
    recorded with the loop variables it read and wrote. *)
Record Step : Type := {
  depth : nat;
  gamma : double;
  from : State;
  rnd_before : Gen;
  engine_before : Engine;
  action : size_t;
  rew : double;
  to : State;
  rnd_next : Gen;
  engine_next : Engine
}.

(** A step of [adaptiveRollout], with the window as the update left it and
    whether the convergence test (lines 130-132) was evaluated. *)
Record WindowedStep : Type := {
  step : Step;
  rewardWindow : list double;
  windowSum : double;
  checked : bool
}.

(** A finished call: the returned [double], how the loop was left, the
    steps it simulated, and the generator and engine it leaves behind. *)
Record Run (Entry : Type) : Type := {
  ret : double;
  why : Stop;
  log : list Entry;
  rnd_after : Gen;
  engine_after : Engine
}.

Arguments ret {Entry} _.
Arguments why {Entry} _.
Arguments log {Entry} _.
Arguments rnd_after {Entry} _.
Arguments engine_after {Entry} _.

Definition logged {Entry : Type} (e : Entry) (r : Run Entry) : Run Entry :=
  {| ret := ret r; why := why r; log := e :: log r;
     rnd_after := rnd_after r; engine_after := engine_after r |}.

(** Reading [back()] of an empty window: where, with what divisor, and
    after which steps. *)
Record EmptyBack : Type := {
  bad_depth : nat;
  bad_window : list double;
  bad_divisor : double;
  bad_log : list WindowedStep
}.

Inductive Outcome : Type :=
| Returned (r : Run WindowedStep)
| Undefined (b : EmptyBack).

Definition logged_outcome (e : WindowedStep) (o : Outcome) : Outcome :=
  match o with
  | Returned r => Returned (logged e r)
  | Undefined b =>
      Undefined {| bad_depth := bad_depth b; bad_window := bad_window b;
                   bad_divisor := bad_divisor b; bad_log := e :: bad_log b |}
  end.

(** The steps a call simulated, however it ended. *)
Definition steps_of (o : Outcome) : list WindowedStep :=
  match o with
  | Returned r => log r
  | Undefined b => bad_log b
  end.

Variable m : GenerativeModel State Engine.

Definition sample (dist : State -> Gen -> size_t * Gen)
    (depth : nat) (gamma : double) (s : State) (rnd : Gen) (engine : Engine) : Step :=
  let '(a, rnd1) := dist s rnd in
  let '((s1, rew), engine1) := sampleSR m s a engine in
  {| depth := depth; gamma := gamma;
     from := s; rnd_before := rnd; engine_before := engine;
     action := a; rew := rew; to := s1;
     rnd_next := rnd1; engine_next := engine1 |}.

(** The loop of [rollout] (lines 45-54 and 58-68), with [n] the number of
    iterations left, [maxDepth - depth]. *)
Fixpoint rollout_loop (dist : State -> Gen -> size_t * Gen) (n depth : nat)
    (s : State) (totalRew gamma : double) (rnd : Gen) (engine : Engine)
    : Run Step :=
  match n with
  | O =>
      {| ret := totalRew; why := AtMaxDepth; log := [];
         rnd_after := rnd; engine_after := engine |}
  | S n' =>
      let e := sample dist depth gamma s rnd engine in
      let totalRew := (totalRew + gamma * rew e)%float in
      if isTerminal m (to e) then
        {| ret := totalRew; why := AtTerminal; log := [e];
           rnd_after := rnd_next e; engine_after := engine_next e |}
      else
        logged e
          (rollout_loop dist n' (S depth) (to e) totalRew
             (gamma * getDiscount m)%float (rnd_next e) (engine_next e))
  end.

Definition rollout_run (s : State) (maxDepth : nat) (rnd : Gen) (engine : Engine)
    : Run Step :=
  match getA m with
  | FixedActionSpace A =>
      (* the distribution is instantiated outside of the loop *)
      let dist := uniform_int_distribution 0%N (size_pred A) in
      rollout_loop (fun _ => dist) maxDepth 0 s 0%float 1%float rnd engine
  | VariableActionSpace A =>
      (* the model is polled at every timestep *)
      rollout_loop (fun s => uniform_int_distribution 0%N (size_pred (A s)))
        maxDepth 0 s 0%float 1%float rnd engine
  end.

Definition rollout (s : State) (maxDepth : nat) (rnd : Gen) (engine : Engine)
    : double :=
  ret (rollout_run s maxDepth rnd engine).

Section Adaptive.

Variables (minDepth windowSize : nat) (threshold : double).

(** The loop of [adaptiveRollout] (lines 112-138 and 140-167). *)
Fixpoint adaptive_loop (dist : State -> Gen -> size_t * Gen) (n depth : nat)
    (s : State) (totalRew gamma : double)
    (rewardWindow : list double) (windowSum : double)
    (rnd : Gen) (engine : Engine) : Outcome :=
  match n with
  | O =>
      Returned {| ret := totalRew; why := AtMaxDepth; log := [];
                  rnd_after := rnd; engine_after := engine |}
  | S n' =>
      let e := sample dist depth gamma s rnd engine in
      let totalRew := (totalRew + gamma * rew e)%float in
      (* Update sliding window *)
      let '(rewardWindow, windowSum) :=
        slide windowSize rewardWindow windowSum (gamma * rew e)%float in
      let entry c :=
        {| step := e; rewardWindow := rewardWindow;
           windowSum := windowSum; checked := c |} in
      let next c :=
        logged_outcome (entry c)
          (adaptive_loop dist n' (S depth) (to e) totalRew
             (gamma * getDiscount m)%float rewardWindow windowSum
             (rnd_next e) (engine_next e)) in
      if isTerminal m (to e) then
        Returned {| ret := totalRew; why := AtTerminal; log := [entry false];
                    rnd_after := rnd_next e; engine_after := engine_next e |}
      else if (minDepth <=? depth) && (length rewardWindow =? windowSize) then
        (* Only check convergence after minimum depth *)
        let avgReward := (windowSum / to_double windowSize)%float in
        match back rewardWindow with
        | None =>
            Undefined {| bad_depth := depth; bad_window := rewardWindow;
                         bad_divisor := to_double windowSize;
                         bad_log := [entry true] |}
        | Some latestReward =>
            if close_enough latestReward avgReward threshold then
              Returned {| ret := totalRew; why := AtConvergence;
                          log := [entry true];
                          rnd_after := rnd_next e;
                          engine_after := engine_next e |}
            else next true
        end
      else next false
  end.

Definition adaptive_run (s : State) (maxDepth : nat) (rnd : Gen)
    (engine : Engine) : Outcome :=
  match getA m with
  | FixedActionSpace A =>
      let dist := uniform_int_distribution 0%N (size_pred A) in
      adaptive_loop (fun _ => dist) maxDepth 0 s 0%float 1%float
        [] 0%float rnd engine
  | VariableActionSpace A =>
      adaptive_loop (fun s => uniform_int_distribution 0%N (size_pred (A s)))
        maxDepth 0 s 0%float 1%float [] 0%float rnd engine
  end.

(** The [double] the call returns; [None] when the call reads [back()]
    of an empty deque, after which the standard promises nothing. *)
Definition adaptiveRollout (s : State) (maxDepth : nat) (rnd : Gen)
    (engine : Engine) : option double :=
  match adaptive_run s maxDepth rnd engine with
  | Returned r => Some (ret r)
  | Undefined _ => None
  end.

End Adaptive.

End Rollout.

Arguments Step : clear implicits.
Arguments WindowedStep : clear implicits.
Arguments Run : clear implicits.
Arguments Outcome : clear implicits.
Arguments EmptyBack : clear implicits.
Arguments ret {Engine Gen Entry} _.
Arguments why {Engine Gen Entry} _.
Arguments log {Engine Gen Entry} _.
Arguments rnd_after {Engine Gen Entry} _.
Arguments engine_after {Engine Gen Entry} _.

(** Two calls that return the same number and leave the same generator
    and engine behind. *)
Definition agree {Engine Gen E1 E2 : Type} (r1 : Run Engine Gen E1)
    (r2 : Run Engine Gen E2) : Prop :=
  ret r1 = ret r2 /\ rnd_after r1 = rnd_after r2 /\
  engine_after r1 = engine_after r2.

(** ** What the rollouts are meant to compute *)

Section Specification.

Context {State Engine Gen : Type} `{UniformRandomBitGenerator Gen}.

Variable m : GenerativeModel State Engine.

Let Step := Step State Engine Gen.
Let WindowedStep := WindowedStep State Engine Gen.

(** The number of actions legal in [s]. *)
Definition legal_actions (s : State) : size_t :=
  match getA m with
  | FixedActionSpace A => A
  | VariableActionSpace A => A s
  end.

(** The uniform distribution over the actions legal in [s]. *)
Definition action_distribution (s : State) : Gen -> size_t * Gen :=
  uniform_int_distribution 0%N (size_pred (legal_actions s)).

(** A step whose action was drawn from the distribution over the legal
    actions of the state it left. *)
Definition drawn_uniformly (e : Step) : Prop :=
  action_distribution (from e) (rnd_before e) = (action e, rnd_next e).

(** The first [n] steps of the simulation under the uniformly random
    policy when nothing stops it, the step at depth [d] carrying the
    weight [discount^d]. *)
Fixpoint trajectory (n depth : nat) (s : State) (rnd : Gen) (engine : Engine)
    : list Step :=
  match n with
  | O => []
  | S n' =>
      let e := sample m action_distribution depth
                 (discount_pow (getDiscount m) depth) s rnd engine in
      e :: trajectory n' (S depth) (to e) (rnd_next e) (engine_next e)
  end.

(** A simulation cut immediately after the first step that reaches a
    terminal state. *)
Fixpoint until_terminal (steps : list Step) : list Step :=
  match steps with
  | [] => []
  | e :: rest =>
      if isTerminal m (to e) then [e] else e :: until_terminal rest
  end.

(** [gamma^depth * reward] of a step. *)
Definition discounted (e : Step) : double :=
  (discount_pow (getDiscount m) (depth e) * rew e)%float.

(** The running discounted sum of a simulation, from [0.0]. *)
Definition discounted_sum (steps : list Step) : double :=
  fold_left (fun acc e => (acc + discounted e)%float) steps 0%float.

(** The [windowSize] most recent entries of a sequence. *)
Definition recent (windowSize : nat) (xs : list double) : list double :=
  skipn (length xs - windowSize) xs.

(** The running sum kept next to a window over [xs], after entry [i] came
    in: every entry is added as it comes, and the entry of [windowSize]
    steps before is subtracted once the window is full. *)
Fixpoint running_sum (windowSize : nat) (xs : list double) (i : nat) : double :=
  let before :=
    match i with
    | O => 0%float
    | S i' => running_sum windowSize xs i'
    end in
  let added := (before + nth i xs 0%float)%float in
  if windowSize <=? i then (added - nth (i - windowSize) xs 0%float)%float
  else added.

(** The running sum before entry [i] comes in. *)
Definition sum_before (windowSize : nat) (xs : list double) (i : nat) : double :=
  match i with
  | O => 0%float
  | S i' => running_sum windowSize xs i'
  end.

Section Criterion.

Variables (minDepth windowSize : nat) (threshold : double).

(** Whether the convergence test is reached at a step: the state
    reached is not terminal, the depth is at least [minDepth], and the
    window holds exactly [windowSize] entries. *)
Definition examined (e : WindowedStep) : bool :=
  negb (isTerminal m (to (step e)))
  && (minDepth <=? depth (step e))
  && (length (rewardWindow e) =? windowSize).

(** The convergence criterion at a step: the test is reached, and the
    most recent entry of the window is closer than [threshold] to the
    running sum divided by [windowSize]. *)
Definition converged (e : WindowedStep) : bool :=
  examined e
  && match back (rewardWindow e) with
     | Some latestReward =>
         close_enough latestReward
           (windowSum e / to_double windowSize)%float threshold
     | None => false
     end.

(** A step after which the loop goes on. *)
Definition passed (e : WindowedStep) : Prop :=
  isTerminal m (to (step e)) = false /\
  converged e = false /\
  checked e = examined e /\
  (checked e = true -> exists x, back (rewardWindow e) = Some x).

End Criterion.

End Specification.

(** ** A concrete generator and two concrete models *)

Module Example.

(** The minimal-standard linear congruential engine, and a distribution
    that reduces its output into the requested range. *)
Record Lcg : Type := { seed : N }.

Definition lcg_next (g : Lcg) : Lcg :=
  {| seed := (48271 * seed g) mod 2147483647 |}%N.

#[global] Instance Lcg_generator : UniformRandomBitGenerator Lcg := {|
  uniform_int_distribution a b g :=
    let g' := lcg_next g in
    ((a + seed g' mod (b - a + 1))%N, g')
|}.

(** A corridor walked one cell per step, whatever the action: the reward of
    a step is [1.0] after action [0] and [3.0] otherwise, and the cells from
    [goal] on are terminal. The model draws nothing of its own. *)
Definition corridor (goal : nat) (discount : double)
    : GenerativeModel nat unit :=
  {| getA := FixedActionSpace 2%N;
     sampleSR s a engine :=
       ((S s, if N.eqb a 0%N then 1%float else 3%float), engine);
     isTerminal s := goal <=? s;
     getDiscount := discount |}.

(** The same corridor with [s + 1] actions legal in cell [s]. *)
Definition widening (goal : nat) (discount : double)
    : GenerativeModel nat unit :=
  {| getA := VariableActionSpace (fun s => N.of_nat (S s));
     sampleSR s a engine :=
       ((S s, if N.eqb a 0%N then 1%float else 3%float), engine);
     isTerminal s := goal <=? s;
     getDiscount := discount |}.

Definition g0 : Lcg := {| seed := 1 |}.

End Example.

(** ** Steps made one after the other *)

Section Threading.

Context {State Engine Gen : Type} `{UniformRandomBitGenerator Gen}.

Variable m : GenerativeModel State Engine.

(** Steps made one after the other from [s]: each leaves the state the one
    before reached, draws its action once, from the generator as the one
    before left it, and samples its outcome once, from the engine as the one
    before left it. *)
Fixpoint threaded (s : State) (rnd : Gen) (engine : Engine)
    (steps : list (Step State Engine Gen)) : Prop :=
  match steps with
  | [] => True
  | e :: rest =>
      from e = s /\ rnd_before e = rnd /\ engine_before e = engine
      /\ action_distribution m s rnd = (action e, rnd_next e)
      /\ sampleSR m s (action e) engine = ((to e, rew e), engine_next e)
      /\ threaded (to e) (rnd_next e) (engine_next e) rest
  end.

End Threading.


(** ** The console helpers (tiger_door.cpp, lines 35-54) *)

Module Rendering.

Import Ascii.

(** A [std::string] is the list of its characters; [std::cout] is the list
    of the characters written to it so far. *)
Definition ESC : ascii := ascii_of_nat 27.

Definition newline : ascii := ascii_of_nat 10.

(** [std::string up = "\033[XA"]. *)
Definition up_initial : list ascii := [ESC; "["%char; "X"%char; "A"%char].

(** The global [up] and the output stream. *)
Record Console : Type := {
  up : list ascii;
  cout : list ascii
}.

(** [str[i] = c], for [i] inside the string. *)
Fixpoint set_char (i : nat) (c : ascii) (str : list ascii) : list ascii :=
  match str, i with
  | [], _ => []
  | _ :: rest, O => c :: rest
  | a :: rest, S i' => a :: set_char i' c rest
  end.

(** ['0' + x], narrowed to [char]. *)
Definition digit_char (x : nat) : ascii := ascii_of_nat (48 + x).

(** [up[2] = '0' + x; std::cout << up;]. *)
Definition print_up (x : nat) (c : Console) : Console :=
  let up' := set_char 2 (digit_char x) (up c) in
  {| up := up'; cout := cout c ++ up' |}.

(** The loop of [goup], [while (x > 9)], which runs at most [x] times. *)
Fixpoint goup_loop (fuel x : nat) (c : Console) : nat * Console :=
  match fuel with
  | O => (x, c)
  | S fuel' =>
      if 9 <? x then goup_loop fuel' (x - 9) (print_up 9 c) else (x, c)
  end.

Definition goup (x : nat) (c : Console) : Console :=
  let '(x, c) := goup_loop x x c in
  print_up x c.

Fixpoint godown (x : nat) (c : Console) : Console :=
  match x with
  | O => c
  | S x' => godown x' {| up := up c; cout := cout c ++ [newline] |}
  end.

(** The sequence "cursor up by [d] lines" as [goup] writes it into a
    string of the shape of [up]. *)
Definition cursor_up (a0 a1 : ascii) (rest : list ascii) (d : nat) : list ascii :=
  a0 :: a1 :: digit_char d :: rest.

End Rendering.

(** ** The rock states of the rock-sample models (tiger_door.cpp) *)

Module RockState.

(** [getRockState] of [make9x9RockSampleProblemEXAMPLE] (lines 710-717):
    the position takes the states modulo 25, and the state of rock
    [rockIndex] is read after [rockIndex] divisions by 3. *)
Definition getRockState (s : size_t) (rockIndex : nat) : size_t :=
  let positionBits := 25%N in
  let shifted := (s / positionBits)%N in
  (Nat.iter rockIndex (fun shifted => shifted / 3) shifted mod 3)%N.

(** [~a] on [size_t]. *)
Definition size_not (a : size_t) : size_t := N.lxor a SIZE_MAX.

Section Pow.

(** [static_cast<size_t>(std::pow(3, rockIndex))], a function of the C
    library. *)
Variable pow3 : nat -> size_t.

(** [getRockState] of [testerf] and [testerplease] (lines 867-869 and
    1023-1025). The divisor is a product of two [size_t] values and wraps
    around; it is odd, and so not zero, for every power of 3. *)
Definition getRockStateFast (s : size_t) (rockIndex : nat) : size_t :=
  ((s / ((25 * pow3 rockIndex) mod 2 ^ 64)) mod 3)%N.

(** [setRockSampled] (lines 719-724, 871-876 and 1027-1032). *)
Definition setRockSampled (s : size_t) (rockIndex : nat) : size_t :=
  let positionBits := 25%N in
  let power := pow3 rockIndex in
  let rockMask := ((2 * power * positionBits) mod 2 ^ 64)%N in
  N.lor (N.land s (size_not rockMask)) rockMask.

End Pow.

(** [std::pow(3, rockIndex)] when the library computes it exactly. *)
Definition exact_pow3 (rockIndex : nat) : size_t := (3 ^ N.of_nat rockIndex)%N.

(** A state of the models with 25 positions: the position, and above it
    the rock states as base-3 digits, rock 0 lowest. *)
Definition encode_rocks (rocks : list N) : N :=
  fold_right (fun rock higher => rock + 3 * higher)%N 0%N rocks.

Definition encode_state (pos : N) (rocks : list N) : size_t :=
  (pos + 25 * encode_rocks rocks)%N.

End RockState.


(** ** The rock-sample models (tiger_door.cpp, lines 204-465) *)

Module RockSample.

Import Tiger.

Definition A_NORTH : nat := 0.
Definition A_SOUTH : nat := 1.
Definition A_EAST : nat := 2.
Definition A_WEST : nat := 3.
Definition A_SAMPLE : nat := 4.
Definition A_CHECK1 : nat := 5.
Definition A_CHECK8 : nat := 12.

Definition O_GOOD : nat := 0.
Definition O_BAD : nat := 1.
Definition O_NONE : nat := 2.

(** [for (size_t i = first; i < first + count; ++i) body(i)]. *)
Definition for_range {X : Type} (first count : nat) (body : nat -> X -> X)
    (t : X) : X :=
  fold_left (fun acc i => body i acc) (seq first count) t.

(** [(rocks & (1 << r))] converted to [bool]. *)
Definition isGood (rocks r : nat) : bool :=
  negb (Nat.land rocks (Nat.shiftl 1 r) =? 0).

(** *** [makeRockSampleProblem] (lines 226-334) *)

Module Rock11.

Definition GRID_SIZE : nat := 11.
Definition NUM_ROCKS : nat := 8.
Definition S : nat := GRID_SIZE * GRID_SIZE * Nat.shiftl 1 NUM_ROCKS.
Definition A : nat := 13.
Definition O : nat := 3.
Definition MOVE_PROB : double := 0.9%float.
Definition CHECK_CORRECT_PROB : double := 0.95%float.

Definition transitions_of (s : nat) (t : DumbMatrix3D) : DumbMatrix3D :=
  let pos := s mod (GRID_SIZE * GRID_SIZE) in
  let x := pos mod GRID_SIZE in
  let y := pos / GRID_SIZE in
  (* North *)
  let t := if y <? GRID_SIZE - 1
           then assign s A_NORTH (s + GRID_SIZE) MOVE_PROB t else t in
  let t := assign s A_NORTH s (1 - MOVE_PROB)%float t in
  (* South *)
  let t := if 0 <? y
           then assign s A_SOUTH (s - GRID_SIZE) MOVE_PROB t else t in
  let t := assign s A_SOUTH s (1 - MOVE_PROB)%float t in
  (* East *)
  let t := if x <? GRID_SIZE - 1
           then assign s A_EAST (s + 1) MOVE_PROB t else t in
  let t := assign s A_EAST s (1 - MOVE_PROB)%float t in
  (* West *)
  let t := if 0 <? x
           then assign s A_WEST (s - 1) MOVE_PROB t else t in
  let t := assign s A_WEST s (1 - MOVE_PROB)%float t in
  (* Sample action *)
  let t := assign s A_SAMPLE s 1%float t in
  (* Check actions *)
  for_range A_CHECK1 (A_CHECK8 + 1 - A_CHECK1) (fun a => assign s a s 1%float) t.

Definition transitions : DumbMatrix3D :=
  for_each S transitions_of (extents S A S).

Definition check_of (s r : nat) (t : DumbMatrix3D) : DumbMatrix3D :=
  let checkAction := A_CHECK1 + r in
  if isGood (s / (GRID_SIZE * GRID_SIZE)) r then
    let t := assign s checkAction O_GOOD CHECK_CORRECT_PROB t in
    assign s checkAction O_BAD (1 - CHECK_CORRECT_PROB)%float t
  else
    let t := assign s checkAction O_BAD CHECK_CORRECT_PROB t in
    assign s checkAction O_GOOD (1 - CHECK_CORRECT_PROB)%float t.

Definition observations : DumbMatrix3D :=
  let t := extents S A O in
  (* For movement and sampling *)
  let t :=
    for_each S (fun s =>
      for_range 0 (A_SAMPLE + 1) (fun a => assign s a O_NONE 1%float)) t in
  (* For check actions *)
  for_each S (fun s => for_each NUM_ROCKS (check_of s)) t.

Definition rewards : DumbMatrix3D :=
  let t := extents S A S in
  (* Sample action *)
  let t :=
    for_each S (fun s =>
      for_each S (fun s1 t =>
        if true && true then assign s A_SAMPLE s1 10%float t
        else assign s A_SAMPLE s1 (-10)%float t)) t in
  (* Exit reward (when reaching rightmost column) *)
  for_each S (fun s t =>
    let x := (s mod (GRID_SIZE * GRID_SIZE)) mod GRID_SIZE in
    if x =? GRID_SIZE - 1 then
      for_each S (fun s1 => assign s A_EAST s1 10%float) t
    else t) t.

Definition makeRockSampleProblem : Model :=
  {| getO := O; getS := S; getA := A;
     Tiger.transitions := transitions;
     Tiger.rewards := rewards;
     Tiger.observations := observations |}.

End Rock11.

(** *** [make7x7RockSampleProblem] (lines 336-465) *)

Module Rock7.

Definition GRID_SIZE : nat := 7.
Definition NUM_ROCKS : nat := 5.
Definition S : nat := GRID_SIZE * GRID_SIZE * Nat.shiftl 1 NUM_ROCKS.
Definition A : nat := 10.
Definition O : nat := 3.
Definition MOVE_PROB : double := 0.9%float.

(** The loops that set every cell of a table to [0.0]. *)
Definition zeroed (d2 : nat) (t : DumbMatrix3D) : DumbMatrix3D :=
  for_each S (fun s =>
    for_each A (fun a =>
      for_each d2 (fun s1 => assign s a s1 0%float))) t.

Definition transitions_of (s : nat) (t : DumbMatrix3D) : DumbMatrix3D :=
  let pos := s mod (GRID_SIZE * GRID_SIZE) in
  let x := pos mod GRID_SIZE in
  let y := pos / GRID_SIZE in
  (* NORTH *)
  let t := if y <? GRID_SIZE - 1 then
             let t := assign s A_NORTH (s + GRID_SIZE) MOVE_PROB t in
             assign s A_NORTH s (1 - MOVE_PROB)%float t
           else assign s A_NORTH s 1%float t in
  (* SOUTH *)
  let t := if 0 <? y then
             let t := assign s A_SOUTH (s - GRID_SIZE) MOVE_PROB t in
             assign s A_SOUTH s (1 - MOVE_PROB)%float t
           else assign s A_SOUTH s 1%float t in
  (* EAST *)
  let t := if x <? GRID_SIZE - 1 then
             let t := assign s A_EAST (s + 1) MOVE_PROB t in
             assign s A_EAST s (1 - MOVE_PROB)%float t
           else assign s A_EAST s 1%float t in
  (* WEST *)
  let t := if 0 <? x then
             let t := assign s A_WEST (s - 1) MOVE_PROB t in
             assign s A_WEST s (1 - MOVE_PROB)%float t
           else assign s A_WEST s 1%float t in
  (* SAMPLE and CHECK actions - stay in same state *)
  for_range A_SAMPLE (A - A_SAMPLE) (fun a => assign s a s 1%float) t.

Definition transitions : DumbMatrix3D :=
  for_each S transitions_of (zeroed S (extents S A S)).

Definition observations_of (s a : nat) (t : DumbMatrix3D) : DumbMatrix3D :=
  let t := for_each O (fun o => assign s a o 0%float) t in
  if a <=? A_SAMPLE then
    (* Movement and sample actions *)
    assign s a O_NONE 1%float t
  else
    (* Check actions *)
    let rockNum := a - A_SAMPLE - 1 in
    if isGood (s / (GRID_SIZE * GRID_SIZE)) rockNum then
      let t := assign s a O_GOOD 0.95%float t in
      assign s a O_BAD 0.05%float t
    else
      let t := assign s a O_GOOD 0.05%float t in
      assign s a O_BAD 0.95%float t.

Definition observations : DumbMatrix3D :=
  for_each S (fun s => for_each A (observations_of s)) (extents S A O).

Definition rewards_of (s : nat) (t : DumbMatrix3D) : DumbMatrix3D :=
  let pos := s mod (GRID_SIZE * GRID_SIZE) in
  let x := pos mod GRID_SIZE in
  (* Exit reward *)
  let t := if x =? GRID_SIZE - 1
           then for_each S (fun s1 => assign s A_EAST s1 10%float) t
           else t in
  (* For now, just penalty for sampling anywhere *)
  for_each S (fun s1 => assign s A_SAMPLE s1 (-10)%float) t.

Definition rewards : DumbMatrix3D :=
  for_each S rewards_of (zeroed S (extents S A S)).

Definition make7x7RockSampleProblem : Model :=
  {| getO := O; getS := S; getA := A;
     Tiger.transitions := transitions;
     Tiger.rewards := rewards;
     Tiger.observations := observations |}.

End Rock7.

(** *** What the tables are meant to hold *)

(** The cell reached from [s] by a move that does not run into the wall
    of a [grid] by [grid] board, the states being numbered row by row
    within each block of [grid * grid]. *)
Definition neighbour (grid s a : nat) : option nat :=
  let pos := s mod (grid * grid) in
  let x := pos mod grid in
  let y := pos / grid in
  if a =? A_NORTH then (if y <? grid - 1 then Some (s + grid) else None)
  else if a =? A_SOUTH then (if 0 <? y then Some (s - grid) else None)
  else if a =? A_EAST then (if x <? grid - 1 then Some (s + 1) else None)
  else if a =? A_WEST then (if 0 <? x then Some (s - 1) else None)
  else None.

(** Tables of [d0] by [d1] by [d2] cells. *)
Definition rect (d0 d1 d2 : nat) (t : DumbMatrix3D) : Prop :=
  length t = d0
  /\ Forall (fun mat =>
               length mat = d1 /\ Forall (fun row => length row = d2) mat) t.

(** The cells a piece of code writes, with the value it leaves in each. *)
Definition Writes : Type := nat -> nat -> nat -> option double.

Definition point (i j k : nat) (v : double) : Writes :=
  fun i' j' k' =>
    if (i =? i') && (j =? j') && (k =? k') then Some v else None.

Definition later (step : option double) (acc : option double) : option double :=
  match step with
  | Some v => Some v
  | None => acc
  end.

(** [t'] is [t] after the writes [E], on tables of the given extents. *)
Definition wrote (d0 d1 d2 : nat) (t t' : DumbMatrix3D) (E : Writes) : Prop :=
  rect d0 d1 d2 t ->
  rect d0 d1 d2 t'
  /\ forall i j k,
       at3 t' i j k = match E i j k with
                      | Some v => v
                      | None => at3 t i j k
                      end.

End RockSample.


(** *** [make9x9RockSampleProblem] (lines 480-557) *)

Module Rock9x9.

Import Tiger RockSample.

Definition GRID_SIZE : nat := 3.
Definition NUM_ROCKS : nat := 8.
Definition S : nat := GRID_SIZE * GRID_SIZE * Nat.shiftl 1 NUM_ROCKS.
Definition A : nat := 13.
Definition O : nat := 3.
Definition MOVE_PROB : double := 0.9%float.

(** [std::fill_n(&t[i][j][k], n, v)] on a table of extents [_][d1][d2]:
    the [n] cells from [(i, j, k)] on, in the row-major order in which
    [boost::multi_array] lays out its elements. *)
Definition fill_n (d1 d2 i j k n : nat) (v : double) (t : DumbMatrix3D)
    : DumbMatrix3D :=
  for_each n (fun f =>
    let flat := (i * d1 + j) * d2 + k + f in
    assign (flat / (d1 * d2)) ((flat / d2) mod d1) (flat mod d2) v) t.

Record Tables : Type := {
  transitions : DumbMatrix3D;
  rewards : DumbMatrix3D;
  observations : DumbMatrix3D
}.

Definition setMovement (s action nextState : nat) (t : DumbMatrix3D)
    : DumbMatrix3D :=
  let t := assign s action nextState MOVE_PROB t in
  assign s action s (1 - MOVE_PROB)%float t.

(** The writes of one iteration to [transitions]. *)
Definition transitions_of (s : nat) (t : DumbMatrix3D) : DumbMatrix3D :=
  let pos := s mod (GRID_SIZE * GRID_SIZE) in
  let x := pos mod GRID_SIZE in
  let y := pos / GRID_SIZE in
  (* Set default transitions for all actions in current state *)
  let t := fill_n A S s 0 0 (A * S) 0%float t in
  (* Movement transitions *)
  let t := if y <? GRID_SIZE - 1 then setMovement s A_NORTH (s + GRID_SIZE) t
           else assign s A_NORTH s 1%float t in
  let t := if 0 <? y then setMovement s A_SOUTH (s - GRID_SIZE) t
           else assign s A_SOUTH s 1%float t in
  let t := if x <? GRID_SIZE - 1 then setMovement s A_EAST (s + 1) t
           else assign s A_EAST s 1%float t in
  let t := if 0 <? x then setMovement s A_WEST (s - 1) t
           else assign s A_WEST s 1%float t in
  (* Static actions (SAMPLE and CHECK) *)
  for_range A_SAMPLE (A - A_SAMPLE) (fun a => assign s a s 1%float) t.

(** The writes of one iteration to [observations]. *)
Definition observations_of (s : nat) (t : DumbMatrix3D) : DumbMatrix3D :=
  let t := fill_n A O s 0 0 (A * O) 0%float t in
  (* Movement and sample actions always observe 'none' *)
  let t := for_range 0 (A_SAMPLE + 1)
             (fun a => assign s a O_NONE 1%float) t in
  (* Check actions observations *)
  for_range (A_SAMPLE + 1) (A - (A_SAMPLE + 1)) (fun a t =>
    let good := isGood (s / (GRID_SIZE * GRID_SIZE)) (a - A_SAMPLE - 1) in
    let t := assign s a O_GOOD (if good then 0.95 else 0.05)%float t in
    assign s a O_BAD (if good then 0.05 else 0.95)%float t) t.

(** The writes of one iteration to [rewards]. *)
Definition rewards_of (s : nat) (t : DumbMatrix3D) : DumbMatrix3D :=
  let pos := s mod (GRID_SIZE * GRID_SIZE) in
  let x := pos mod GRID_SIZE in
  let t := fill_n A S s 0 0 (A * S) 0%float t in
  (* Exit reward *)
  let t := if x =? GRID_SIZE - 1 then fill_n A S s A_EAST 0 S 10%float t
           else t in
  (* Sample penalty *)
  fill_n A S s A_SAMPLE 0 S (-10)%float t.

(** The body of the one loop over the states, which writes the three tables
    in this order. *)
Definition body (s : nat) (T : Tables) : Tables :=
  let tr := transitions_of s (transitions T) in
  let ob := observations_of s (observations T) in
  let rw := rewards_of s (rewards T) in
  {| transitions := tr; rewards := rw; observations := ob |}.

Definition tables : Tables :=
  for_each S body
    {| transitions := extents S A S;
       rewards := extents S A S;
       observations := extents S A O |}.

Definition make9x9RockSampleProblem : Model :=
  {| getO := O; getS := S; getA := A;
     Tiger.transitions := transitions tables;
     Tiger.rewards := rewards tables;
     Tiger.observations := observations tables |}.

End Rock9x9.

(** *** The sample action of [testerf] (lines 942-962) *)

Module Testerf.

Import Tiger RockState.

Definition GRID_SIZE : nat := 5.
Definition NUM_ROCKS : nat := 4.

(** [GRID_SIZE * GRID_SIZE * std::pow(3, NUM_ROCKS)] as a [size_t], with
    [std::pow] exact here and in the two helpers. *)
Definition S : nat :=
  N.to_nat (N.of_nat (GRID_SIZE * GRID_SIZE) * exact_pow3 NUM_ROCKS).
Definition A : nat := 9.
Definition O : nat := 3.

Definition ROCK_POSITIONS : list (nat * nat) := [(0, 0); (1, 0); (2, 0); (0, 1)].

Definition getRockState (s r : nat) : size_t :=
  getRockStateFast exact_pow3 (N.of_nat s) r.

Definition setRockSampled (s r : nat) : nat :=
  N.to_nat (RockState.setRockSampled exact_pow3 (N.of_nat s) r).

Record Tables : Type := {
  transitions : DumbMatrix3D;
  rewards : DumbMatrix3D;
  observations : DumbMatrix3D
}.

(** [t[i][j][k] = v]. An index beyond an extent is no element of the
    table: the program has no defined behaviour from there on. *)
Definition store (i j k : nat) (v : double) (t : DumbMatrix3D)
    : option DumbMatrix3D :=
  if (i <? length t) && (j <? length (nth i t []))
     && (k <? length (nth j (nth i t []) []))
  then Some (assign i j k v t)
  else None.

Definition bind {X Y : Type} (m : option X) (f : X -> option Y) : option Y :=
  match m with
  | Some x => f x
  | None => None
  end.

Notation "x <- m ;; k" := (bind m (fun x => k))
  (at level 61, m at next level, right associativity).

(** The loop over the rocks from rock [r] on, with [canSample]; the first
    rock at [(x, y)] ends it. *)
Fixpoint sample_rocks (s x y : nat) (rocks : list (nat * nat)) (r : nat)
    (T : Tables) (canSample : bool) : option (Tables * bool) :=
  match rocks with
  | [] => Some (T, canSample)
  | (first, second) :: rocks =>
      if (x =? first) && (y =? second) then
        let rockState := getRockState s r in
        if negb (rockState =? 2)%N then
          tr <- store s 4 (setRockSampled s r) 1%float (transitions T) ;;
          tr <- store s 4 s 0%float tr ;;
          rw <- store s 4 (setRockSampled s r)
                  (if (rockState =? 1)%N then 10%float else (-10)%float)
                  (rewards T) ;;
          Some ({| transitions := tr; rewards := rw;
                   observations := observations T |}, true)
        else Some (T, canSample)
      else sample_rocks s x y rocks (r + 1) T canSample
  end.

Definition sample_of (s : nat) (T : Tables) : option Tables :=
  let pos := s mod (GRID_SIZE * GRID_SIZE) in
  let x := pos mod GRID_SIZE in
  let y := pos / GRID_SIZE in
  tr <- store s 4 s 1%float (transitions T) ;;
  ob <- store s 4 2 1%float (observations T) ;;
  let T := {| transitions := tr; rewards := rewards T; observations := ob |} in
  sampled <- sample_rocks s x y ROCK_POSITIONS 0 T false ;;
  let '(T, canSample) := sampled in
  if negb canSample then
    rw <- store s 4 s (-10)%float (rewards T) ;;
    Some {| transitions := transitions T; rewards := rw;
            observations := observations T |}
  else Some T.

(** The rock that the sample action of state [s] samples: the first rock
    at the position of [s], when it is not in state 2. *)
Definition sampled_rock (s : nat) : option nat :=
  let pos := s mod (GRID_SIZE * GRID_SIZE) in
  let x := pos mod GRID_SIZE in
  let y := pos / GRID_SIZE in
  match
    find (fun r => (x =? fst (nth r ROCK_POSITIONS (0, 0)))
                   && (y =? snd (nth r ROCK_POSITIONS (0, 0))))
      (seq 0 NUM_ROCKS)
  with
  | Some r => if (getRockState s r =? 2)%N then None else Some r
  | None => None
  end.

End Testerf.

(** ** Facts about single steps and about [rollout] *)

Section RolloutFacts.

Context {State Engine Gen : Type} `{UniformRandomBitGenerator Gen}.

Variable m : GenerativeModel State Engine.

Let Step := Step State Engine Gen.

Implicit Types (dist : State -> Gen -> size_t * Gen) (s : State)
  (rnd : Gen) (engine : Engine).

Lemma sample_fields dist d g s rnd engine :
  let e := sample m dist d g s rnd engine in
  depth e = d /\ gamma e = g /\ from e = s /\
  rnd_before e = rnd /\ engine_before e = engine /\
  dist s rnd = (action e, rnd_next e) /\
  sampleSR m s (action e) engine = ((to e, rew e), engine_next e).
Proof.
  unfold sample.
  destruct (dist s rnd) as [a rnd1] eqn:Hd.
  destruct (sampleSR m s a engine) as [[s1 r] engine1] eqn:Hs.
  cbn. rewrite Hs. repeat split; reflexivity.
Qed.

Lemma sample_depth dist d g s rnd engine :
  depth (sample m dist d g s rnd engine) = d.
Proof. apply (sample_fields dist d g s rnd engine). Qed.

Lemma sample_gamma dist d g s rnd engine :
  gamma (sample m dist d g s rnd engine) = g.
Proof. apply (sample_fields dist d g s rnd engine). Qed.

Lemma sample_drawn d g s rnd engine :
  drawn_uniformly m (sample m (action_distribution m) d g s rnd engine).
Proof.
  unfold drawn_uniformly.
  destruct (sample_fields (action_distribution m) d g s rnd engine)
    as (_ & _ & -> & -> & _ & Hd & _).
  exact Hd.
Qed.

(** Both branches of [rollout] run the same loop, on the distribution
    over the legal actions. *)
Lemma rollout_run_loop s maxDepth rnd engine :
  rollout_run m s maxDepth rnd engine
  = rollout_loop m (action_distribution m) maxDepth 0 s 0%float 1%float
      rnd engine.
Proof.
  unfold rollout_run, action_distribution, legal_actions.
  destruct (getA m); reflexivity.
Qed.

Lemma rollout_loop_log n :
  forall d s totalRew rnd engine,
    log (rollout_loop m (action_distribution m) n d s totalRew
           (discount_pow (getDiscount m) d) rnd engine)
    = until_terminal m (trajectory m n d s rnd engine).
Proof.
  induction n as [|n IH]; intros d s totalRew rnd engine; [reflexivity|].
  cbn [rollout_loop trajectory until_terminal].
  destruct (isTerminal m (to _)); [reflexivity|].
  cbn [logged log]. f_equal. apply (IH (S d)).
Qed.

Lemma rollout_loop_ret dist n :
  forall d s totalRew g rnd engine,
    ret (rollout_loop m dist n d s totalRew g rnd engine)
    = fold_left (fun acc e => (acc + gamma e * rew e)%float)
        (log (rollout_loop m dist n d s totalRew g rnd engine)) totalRew.
Proof.
  induction n as [|n IH]; intros d s totalRew g rnd engine; [reflexivity|].
  cbn [rollout_loop].
  destruct (isTerminal m (to _)).
  - cbn. now rewrite sample_gamma.
  - cbn [logged ret log fold_left]. rewrite IH, sample_gamma. reflexivity.
Qed.

Lemma trajectory_length n :
  forall d s rnd engine, length (trajectory m n d s rnd engine) = n.
Proof.
  induction n as [|n IH]; intros; cbn [trajectory length]; [|rewrite IH]; reflexivity.
Qed.

Lemma trajectory_depth n :
  forall d s rnd engine,
    map depth (trajectory m n d s rnd engine) = seq d n.
Proof.
  induction n as [|n IH]; intros d s rnd engine; [reflexivity|].
  cbn [trajectory map seq]. now rewrite sample_depth, IH.
Qed.

Lemma trajectory_gamma n :
  forall d s rnd engine,
    Forall (fun e : Step => gamma e = discount_pow (getDiscount m) (depth e))
      (trajectory m n d s rnd engine).
Proof.
  induction n as [|n IH]; intros d s rnd engine; cbn [trajectory]; constructor.
  - now rewrite sample_gamma, sample_depth.
  - apply IH.
Qed.

Lemma until_terminal_prefix (steps : list Step) :
  until_terminal m steps = firstn (length (until_terminal m steps)) steps.
Proof.
  induction steps as [|e rest IH]; [reflexivity|].
  cbn [until_terminal]. destruct (isTerminal m (to e)).
  - reflexivity.
  - cbn [length firstn]. now rewrite <- IH.
Qed.

Lemma until_terminal_length (steps : list Step) :
  length (until_terminal m steps) <= length steps.
Proof.
  induction steps as [|e rest IH]; [reflexivity|].
  cbn [until_terminal]. destruct (isTerminal m (to e)); cbn [length]; lia.
Qed.

(** Only the last step of a cut simulation reaches a terminal state. *)
Lemma until_terminal_stops (steps : list Step) :
  forall i e,
    nth_error (until_terminal m steps) i = Some e ->
    isTerminal m (to e) = true ->
    S i = length (until_terminal m steps).
Proof.
  induction steps as [|e0 rest IH]; intros i e Hi Ht.
  - destruct i; discriminate.
  - cbn [until_terminal] in *. destruct (isTerminal m (to e0)) eqn:H0.
    + destruct i as [|i]; [reflexivity|]. destruct i; discriminate.
    + destruct i as [|i]; cbn in Hi.
      * injection Hi as <-. congruence.
      * cbn [length]. f_equal. exact (IH i e Hi Ht).
Qed.

(** A cut simulation is shorter than the whole one only when its last
    step reaches a terminal state. *)
Lemma until_terminal_short (steps : list Step) :
  length (until_terminal m steps) < length steps ->
  exists e,
    nth_error (until_terminal m steps) (length (until_terminal m steps) - 1)
    = Some e /\ isTerminal m (to e) = true.
Proof.
  induction steps as [|e0 rest IH]; cbn [until_terminal length]; [lia|].
  destruct (isTerminal m (to e0)) eqn:H0; intros Hlt.
  - exists e0. split; [reflexivity|exact H0].
  - cbn [length] in *. destruct IH as (e & He & Ht); [lia|].
    exists e. split; [|exact Ht].
    destruct (length (until_terminal m rest)) as [|k] eqn:Hk.
    + destruct (until_terminal m rest); discriminate.
    + cbn in *. now rewrite Nat.sub_0_r in He.
Qed.

Lemma discounted_sum_weights (steps : list Step) (acc : double) :
  Forall (fun e : Step => gamma e = discount_pow (getDiscount m) (depth e)) steps ->
  fold_left (fun acc e => (acc + gamma e * rew e)%float) steps acc
  = fold_left (fun acc e => (acc + discounted m e)%float) steps acc.
Proof.
  intros Hall. revert acc.
  induction Hall as [|e rest He _ IH]; intros acc; [reflexivity|].
  cbn [fold_left]. unfold discounted at 2. rewrite He. apply IH.
Qed.

End RolloutFacts.

(** ** Facts about lists, windows and [double] comparisons *)

Lemma back_None (l : list double) : back l = None <-> l = [].
Proof.
  induction l as [|x [|y l] IH]; cbn; split; intros Hl;
    try reflexivity; try discriminate.
  cbn in IH. apply IH in Hl. discriminate.
Qed.

Lemma back_nonempty (l : list double) :
  1 <= length l -> exists x, back l = Some x.
Proof.
  destruct (back l) as [x|] eqn:Hb; [now exists x|].
  apply back_None in Hb. subst l. cbn. lia.
Qed.

(** No absolute value is strictly below a threshold that is zero or
    negative. *)
Lemma abs_not_below_nonpositive (x t : double) :
  (t <=? 0)%float = true -> (abs x <? t)%float = false.
Proof.
  rewrite FloatAxioms.leb_spec, FloatAxioms.ltb_spec, abs_spec.
  change (Prim2SF 0) with (S754_zero false).
  destruct (Prim2SF x) as [sx|sx| |sx mx ex], (Prim2SF t) as [st|st| |st mt et];
    cbn; try reflexivity; try discriminate;
    destruct st; cbn; try reflexivity; discriminate.
Qed.

Lemma close_enough_nonpositive (latestReward avgReward threshold : double) :
  (threshold <=? 0)%float = true ->
  close_enough latestReward avgReward threshold = false.
Proof. apply abs_not_below_nonpositive. Qed.

Lemma negative_nonpositive (t : double) :
  (t <? 0)%float = true -> (t <=? 0)%float = true.
Proof.
  rewrite FloatAxioms.leb_spec, FloatAxioms.ltb_spec.
  unfold SFltb, SFleb. destruct (SFcompare _ _) as [[| |]|]; congruence.
Qed.

Lemma skipn_succ_tl {X : Type} (k : nat) (l : list X) :
  skipn (S k) l = tl (skipn k l).
Proof.
  revert l. induction k as [|k IH]; intros [|x l]; try reflexivity.
  cbn [skipn] in *. apply IH.
Qed.

Lemma recent_length (windowSize : nat) (xs : list double) :
  length (recent windowSize xs) = Nat.min windowSize (length xs).
Proof. unfold recent. rewrite length_skipn. lia. Qed.

(** The window update keeps the most recent entries. *)
Lemma slide_recent (windowSize : nat) (hist : list double) (sum x : double) :
  fst (slide windowSize (recent windowSize hist) sum x)
  = recent windowSize (hist ++ [x]).
Proof.
  unfold slide.
  rewrite length_app, recent_length. cbn [length].
  destruct (windowSize <? Nat.min windowSize (length hist) + 1) eqn:Hfull.
  - apply Nat.ltb_lt in Hfull.
    assert (Hle : windowSize <= length hist) by lia.
    unfold recent. rewrite length_app. cbn [length].
    replace (length hist + 1 - windowSize) with (S (length hist - windowSize)) by lia.
    rewrite skipn_succ_tl, skipn_app.
    replace (length hist - windowSize - length hist) with 0 by lia.
    cbn [skipn].
    destruct (skipn (length hist - windowSize) hist ++ [x]); reflexivity.
  - apply Nat.ltb_ge in Hfull.
    assert (Hlt : length hist < windowSize) by lia.
    unfold recent. rewrite length_app. cbn [length fst].
    replace (length hist - windowSize) with 0 by lia.
    replace (length hist + 1 - windowSize) with 0 by lia.
    reflexivity.
Qed.

Lemma running_sum_eq (windowSize : nat) (xs : list double) (i : nat) :
  running_sum windowSize xs i
  = let added := (sum_before windowSize xs i + nth i xs 0%float)%float in
    if windowSize <=? i then (added - nth (i - windowSize) xs 0%float)%float
    else added.
Proof. destruct i; reflexivity. Qed.

(** The running sum after entry [i] reads no later entry. *)
Lemma running_sum_prefix (windowSize : nat) (hist rest : list double) (i : nat) :
  i < length hist ->
  running_sum windowSize (hist ++ rest) i = running_sum windowSize hist i.
Proof.
  induction i as [|i IH]; intros Hi; rewrite !running_sum_eq; cbv zeta;
    unfold sum_before.
  - rewrite !app_nth1 by lia. reflexivity.
  - rewrite IH by lia. rewrite !app_nth1 by lia. reflexivity.
Qed.

Lemma sum_before_prefix (windowSize : nat) (hist rest : list double) (i : nat) :
  i <= length hist ->
  sum_before windowSize (hist ++ rest) i = sum_before windowSize hist i.
Proof.
  destruct i as [|i]; intros Hi; [reflexivity|].
  apply running_sum_prefix. lia.
Qed.

Lemma skipn_cons_nth {X : Type} (k : nat) (l : list X) (f d : X) (rest : list X) :
  skipn k l = f :: rest -> nth k l d = f.
Proof.
  revert l. induction k as [|k IH]; intros [|x l] Hs; try discriminate.
  - now injection Hs as -> _.
  - cbn in *. now apply IH.
Qed.

(** The window update keeps the running sum. *)
Lemma slide_sum (windowSize : nat) (hist future : list double) (sum x : double) :
  sum = sum_before windowSize hist (length hist) ->
  snd (slide windowSize (recent windowSize hist) sum x)
  = running_sum windowSize (hist ++ x :: future) (length hist).
Proof.
  intros ->. rewrite running_sum_eq. cbv zeta.
  rewrite sum_before_prefix by lia.
  rewrite app_nth2, Nat.sub_diag by lia. cbn [nth].
  unfold slide. rewrite length_app, recent_length. cbn [length].
  destruct (windowSize <=? length hist) eqn:Hle.
  - apply Nat.leb_le in Hle.
    replace (windowSize <? Nat.min windowSize (length hist) + 1) with true
      by (symmetry; apply Nat.ltb_lt; lia).
    destruct (recent windowSize hist ++ [x]) as [|f rest] eqn:Hw.
    + destruct (recent windowSize hist); discriminate.
    + cbn [snd]. f_equal. symmetry.
      unfold recent in Hw.
      replace [x] with (skipn (length hist - windowSize - length hist) [x]) in Hw
        by (replace (length hist - windowSize - length hist) with 0 by lia;
            reflexivity).
      rewrite <- skipn_app in Hw.
      replace (hist ++ x :: future) with ((hist ++ [x]) ++ future)
        by (now rewrite <- app_assoc).
      rewrite app_nth1 by (rewrite length_app; cbn; lia).
      exact (skipn_cons_nth _ _ _ _ _ Hw).
  - apply Nat.leb_gt in Hle.
    replace (windowSize <? Nat.min windowSize (length hist) + 1) with false
      by (symmetry; apply Nat.ltb_ge; lia).
    reflexivity.
Qed.


Lemma firstn_seq (k a n : nat) : firstn k (seq a n) = seq a (Nat.min k n).
Proof.
  revert a n. induction k as [|k IH]; intros a [|n]; try reflexivity.
  cbn [seq firstn Nat.min]. now rewrite IH.
Qed.


Lemma nth_error_snoc {X : Type} (init : list X) (x e : X) (i : nat) :
  nth_error (init ++ [x]) i = Some e ->
  (i < length init /\ nth_error init i = Some e) \/ (i = length init /\ e = x).
Proof.
  intros Hi.
  destruct (Nat.lt_ge_cases i (length init)) as [Hlt|Hge].
  - left. split; [exact Hlt|]. now rewrite nth_error_app1 in Hi.
  - right. rewrite nth_error_app2 in Hi by exact Hge.
    destruct (i - length init) as [|k] eqn:Hk; cbn in Hi.
    + injection Hi as <-. split; [lia|reflexivity].
    + destruct k; discriminate.
Qed.

Lemma nth_error_next {X : Type} (l : list X) (i : nat) :
  S i < length l -> exists x, nth_error l (S i) = Some x.
Proof.
  intros Hi. destruct (nth_error l (S i)) as [x|] eqn:Hx; [now exists x|].
  apply nth_error_None in Hx. lia.
Qed.

(** ** Facts about [adaptiveRollout] *)

Section AdaptiveFacts.

Context {State Engine Gen : Type} `{UniformRandomBitGenerator Gen}.

Variable m : GenerativeModel State Engine.

Variables (minDepth windowSize : nat) (threshold : double).

Let Step := Step State Engine Gen.
Let WindowedStep := WindowedStep State Engine Gen.
Let Outcome := Outcome State Engine Gen.

Implicit Types (dist : State -> Gen -> size_t * Gen) (s : State)
  (rnd : Gen) (engine : Engine) (e : WindowedStep) (o : Outcome).

Local Notation "'loop'" := (adaptive_loop m minDepth windowSize threshold).
Local Notation "'entry_of' e ws c" :=
  {| step := e; rewardWindow := fst ws; windowSum := snd ws; checked := c |}
  (at level 10, e at level 9, ws at level 9, c at level 9).

(** One iteration of the loop, with its local variables named. *)
Lemma adaptive_loop_step dist n d s totalRew g window sum rnd engine :
  let e := sample m dist d g s rnd engine in
  let totalRew1 := (totalRew + g * rew e)%float in
  let ws := slide windowSize window sum (g * rew e)%float in
  let rest :=
    loop dist n (S d) (to e) totalRew1 (g * getDiscount m)%float
      (fst ws) (snd ws) (rnd_next e) (engine_next e) in
  loop dist (S n) d s totalRew g window sum rnd engine
  = if isTerminal m (to e) then
      Returned {| ret := totalRew1; why := AtTerminal;
                  log := [entry_of e ws false];
                  rnd_after := rnd_next e; engine_after := engine_next e |}
    else if (minDepth <=? d) && (length (fst ws) =? windowSize) then
      match back (fst ws) with
      | None =>
          Undefined {| bad_depth := d; bad_window := fst ws;
                       bad_divisor := to_double windowSize;
                       bad_log := [entry_of e ws true] |}
      | Some latestReward =>
          if close_enough latestReward
               (snd ws / to_double windowSize)%float threshold
          then
            Returned {| ret := totalRew1; why := AtConvergence;
                        log := [entry_of e ws true];
                        rnd_after := rnd_next e;
                        engine_after := engine_next e |}
          else logged_outcome (entry_of e ws true) rest
      end
    else logged_outcome (entry_of e ws false) rest.
Proof.
  cbn [adaptive_loop].
  destruct (slide windowSize window sum _) as [window2 sum2].
  reflexivity.
Qed.

Lemma adaptive_run_loop s maxDepth rnd engine :
  adaptive_run m minDepth windowSize threshold s maxDepth rnd engine
  = loop (action_distribution m) maxDepth 0 s 0%float 1%float
      [] 0%float rnd engine.
Proof.
  unfold adaptive_run, action_distribution, legal_actions.
  destruct (getA m); reflexivity.
Qed.

Lemma steps_of_logged e o :
  steps_of (logged_outcome e o) = e :: steps_of o.
Proof. destruct o; reflexivity. Qed.

(** The steps of an adaptive rollout are the steps [rollout] makes when it
    is given their number as its depth, and so is the value returned. *)
Lemma adaptive_loop_truncates dist n :
  forall d s totalRew g window sum rnd engine,
    let o := loop dist n d s totalRew g window sum rnd engine in
    let k := length (steps_of o) in
    k <= n /\
    map step (steps_of o)
    = log (rollout_loop m dist k d s totalRew g rnd engine) /\
    match o with
    | Returned r =>
        agree r (rollout_loop m dist k d s totalRew g rnd engine)
    | Undefined b => windowSize = 0
    end.
Proof.
  induction n as [|n IH]; intros d s totalRew g window sum rnd engine.
  { cbn. repeat split; lia. }
  cbv zeta. rewrite adaptive_loop_step. cbv zeta.
  set (e := sample m dist d g s rnd engine).
  set (ws := slide windowSize window sum (g * rew e)%float).
  specialize (IH (S d) (to e) (totalRew + g * rew e)%float
                (g * getDiscount m)%float (fst ws) (snd ws)
                (rnd_next e) (engine_next e)).
  cbv zeta in IH.
  set (rest := loop dist n (S d) (to e) _ _ _ _ _ _) in *.
  assert (Hnext : forall c,
    let o := logged_outcome (entry_of e ws c) rest in
    length (steps_of o) <= S n /\
    map step (steps_of o)
    = log (rollout_loop m dist (length (steps_of o)) d s totalRew g rnd engine) /\
    match o with
    | Returned r =>
        agree r (rollout_loop m dist (length (steps_of o)) d s totalRew g rnd engine)
    | Undefined b => windowSize = 0
    end \/ isTerminal m (to e) = true).
  { intros c. cbv zeta. destruct (isTerminal m (to e)) eqn:Hterm; [now right|left].
    rewrite steps_of_logged. cbn [length map step rollout_loop].
    fold e. rewrite Hterm. cbn [logged log].
    destruct IH as (Hk & Hlog & Hagree).
    repeat split; [lia|now rewrite Hlog|].
    destruct rest as [r|b]; [|exact Hagree].
    cbn [logged_outcome steps_of logged log length] in *.
    exact Hagree. }
  destruct (isTerminal m (to e)) eqn:Hterm.
  { cbn [steps_of log length map step rollout_loop]. fold e. rewrite Hterm.
    repeat split; lia. }
  assert (Hone : forall c why0,
    let r := {| ret := (totalRew + g * rew e)%float; why := why0;
                log := [entry_of e ws c];
                rnd_after := rnd_next e; engine_after := engine_next e |} in
    length (log r) <= S n /\
    map step (log r)
    = log (rollout_loop m dist (length (log r)) d s totalRew g rnd engine) /\
    agree r (rollout_loop m dist (length (log r)) d s totalRew g rnd engine)).
  { intros c why0. cbn [log length map step rollout_loop]. fold e.
    rewrite Hterm. cbn. repeat split; lia. }
  destruct ((minDepth <=? d) && (length (fst ws) =? windowSize)) eqn:Hguard.
  - destruct (back (fst ws)) as [latest|] eqn:Hback.
    + destruct (close_enough _ _ _).
      * apply (Hone true AtConvergence).
      * destruct (Hnext true) as [Hn|Hn]; [exact Hn|congruence].
    + cbn [steps_of bad_log length map step rollout_loop]. fold e.
      rewrite Hterm. cbn [logged log rollout_loop].
      repeat split; [lia|].
      apply back_None in Hback. apply andb_prop in Hguard as [_ Hlen].
      apply Nat.eqb_eq in Hlen. rewrite Hback in Hlen. now rewrite <- Hlen.
  - destruct (Hnext false) as [Hn|Hn]; [exact Hn|congruence].
Qed.

Local Notation "'Examined'" := (examined m minDepth windowSize).
Local Notation "'Converged'" := (converged m minDepth windowSize threshold).
Local Notation "'Passed'" := (passed m minDepth windowSize threshold).

(** How a call ends: at the depth bound after steps that all passed, or
    with a last step that reached a terminal state or met the criterion,
    or else reading the back of an empty window. *)
Lemma adaptive_loop_shape dist n :
  forall d s totalRew g window sum rnd engine,
    match loop dist n d s totalRew g window sum rnd engine with
    | Returned r =>
        (why r = AtMaxDepth /\ length (log r) = n /\ Forall Passed (log r))
        \/ exists init e,
             log r = init ++ [e] /\ Forall Passed init /\
             checked e = Examined e /\
             ((why r = AtTerminal /\ isTerminal m (to (step e)) = true)
              \/ (why r = AtConvergence /\ Converged e = true))
    | Undefined b =>
        exists init e,
          bad_log b = init ++ [e] /\ Forall Passed init /\
          Examined e = true /\ checked e = true /\
          rewardWindow e = [] /\ windowSize = 0 /\
          bad_depth b = depth (step e) /\ bad_window b = [] /\
          bad_divisor b = to_double windowSize
    end.
Proof.
  induction n as [|n IH]; intros d s totalRew g window sum rnd engine.
  { cbn. left. repeat split. constructor. }
  rewrite adaptive_loop_step. cbv zeta.
  set (e := sample m dist d g s rnd engine).
  set (ws := slide windowSize window sum (g * rew e)%float).
  specialize (IH (S d) (to e) (totalRew + g * rew e)%float
                (g * getDiscount m)%float (fst ws) (snd ws)
                (rnd_next e) (engine_next e)).
  set (rest := loop dist n (S d) (to e) _ _ _ _ _ _) in *.
  assert (Hd : depth e = d) by apply sample_depth.
  assert (Hnext : forall c,
    Passed (entry_of e ws c) ->
    match logged_outcome (entry_of e ws c) rest with
    | Returned r =>
        (why r = AtMaxDepth /\ length (log r) = S n /\ Forall Passed (log r))
        \/ exists init e,
             log r = init ++ [e] /\ Forall Passed init /\
             checked e = Examined e /\
             ((why r = AtTerminal /\ isTerminal m (to (step e)) = true)
              \/ (why r = AtConvergence /\ Converged e = true))
    | Undefined b =>
        exists init e,
          bad_log b = init ++ [e] /\ Forall Passed init /\
          Examined e = true /\ checked e = true /\
          rewardWindow e = [] /\ windowSize = 0 /\
          bad_depth b = depth (step e) /\ bad_window b = [] /\
          bad_divisor b = to_double windowSize
    end).
  { intros c Hpass. destruct rest as [r|b]; cbn [logged_outcome].
    - destruct IH as [(Hwhy & Hlen & Hall)|(init & e' & Hlog & Hall & Hrest)].
      + left. cbn [logged why log length]. repeat split; [exact Hwhy|lia|].
        now constructor.
      + right. exists (entry_of e ws c :: init), e'. cbn [logged why log].
        rewrite Hlog. repeat split; [now constructor|apply Hrest|apply Hrest].
    - destruct IH as (init & e' & Hlog & Hall & Hrest).
      exists (entry_of e ws c :: init), e'. cbn [bad_log bad_depth bad_window bad_divisor].
      rewrite Hlog. repeat split; try apply Hrest. now constructor. }
  unfold passed, converged, examined in Hnext.
  cbn [step rewardWindow windowSum checked] in Hnext. rewrite Hd in Hnext.
  destruct (isTerminal m (to e)) eqn:Hterm.
  { right. exists [], (entry_of e ws false). cbn [log why app].
    unfold examined. cbn [step rewardWindow windowSum checked].
    rewrite Hterm. repeat split; [constructor|]. now left. }
  cbn [negb andb] in Hnext.
  destruct ((minDepth <=? d) && (length (fst ws) =? windowSize)) eqn:Hguard.
  - destruct (back (fst ws)) as [latest|] eqn:Hback.
    + destruct (close_enough _ _ _) eqn:Hclose.
      * right. exists [], (entry_of e ws true). cbn [log why app].
        unfold converged, examined.
        cbn [step rewardWindow windowSum checked].
        rewrite Hd, Hterm, Hback, Hclose. cbn [negb andb]. rewrite Hguard.
        repeat split; [constructor|]. now right.
      * apply Hnext. repeat split; eauto.
    + exists [], (entry_of e ws true).
      unfold examined.
      cbn [bad_log bad_depth bad_window bad_divisor step rewardWindow checked app].
      rewrite Hd, Hterm. cbn [negb andb]. rewrite Hguard.
      apply back_None in Hback. apply andb_prop in Hguard as [_ Hlen].
      apply Nat.eqb_eq in Hlen. rewrite Hback in *.
      repeat split; [constructor|now rewrite <- Hlen].
  - apply Hnext. repeat split; try discriminate; eauto.
Qed.


(** A call that did not stop by convergence before its last iteration
    did what [rollout] does. *)
Lemma adaptive_loop_whole dist n :
  forall d s totalRew g window sum rnd engine r,
    loop dist n d s totalRew g window sum rnd engine = Returned r ->
    (why r = AtConvergence -> length (log r) = n) ->
    agree r (rollout_loop m dist n d s totalRew g rnd engine) /\
    map step (log r) = log (rollout_loop m dist n d s totalRew g rnd engine).
Proof.
  induction n as [|n IH]; intros d s totalRew g window sum rnd engine r.
  { cbn. intros [= <-] _. cbn. repeat split. }
  rewrite adaptive_loop_step. cbv zeta. cbn [rollout_loop].
  set (e := sample m dist d g s rnd engine).
  set (ws := slide windowSize window sum (g * rew e)%float).
  specialize (IH (S d) (to e) (totalRew + g * rew e)%float
                (g * getDiscount m)%float (fst ws) (snd ws)
                (rnd_next e) (engine_next e)).
  set (rest := loop dist n (S d) (to e) _ _ _ _ _ _) in *.
  assert (Hnext : forall c,
    isTerminal m (to e) = false ->
    logged_outcome (entry_of e ws c) rest = Returned r ->
    (why r = AtConvergence -> length (log r) = S n) ->
    agree r
      (logged e
         (rollout_loop m dist n (S d) (to e) (totalRew + g * rew e)%float
            (g * getDiscount m)%float (rnd_next e) (engine_next e))) /\
    map step (log r)
    = e :: log (rollout_loop m dist n (S d) (to e) (totalRew + g * rew e)%float
                  (g * getDiscount m)%float (rnd_next e) (engine_next e))).
  { intros c Hterm Hr Hconv. destruct rest as [r'|b]; [|discriminate].
    injection Hr as <-. cbn [logged why log length] in Hconv.
    destruct (IH r' eq_refl) as (Hagree & Hlog); [intros Hc; apply Hconv in Hc; lia|].
    split; [exact Hagree|].
    cbn [logged log map step]. now rewrite Hlog. }
  destruct (isTerminal m (to e)) eqn:Hterm.
  { intros [= <-] _. cbn. repeat split. }
  destruct ((minDepth <=? d) && (length (fst ws) =? windowSize)).
  - destruct (back (fst ws)) as [latest|]; [|discriminate].
    destruct (close_enough _ _ _).
    + intros [= <-] Hconv. cbn [why log length] in Hconv.
      assert (n = 0) as -> by (specialize (Hconv eq_refl); lia).
      cbn. repeat split.
    + now apply Hnext.
  - now apply Hnext.
Qed.


(** The first entry of a call's steps, whatever follows. *)
Lemma adaptive_loop_first dist n d s totalRew g window sum rnd engine :
  let e := sample m dist d g s rnd engine in
  let ws := slide windowSize window sum (g * rew e)%float in
  let rest :=
    loop dist n (S d) (to e) (totalRew + g * rew e)%float
      (g * getDiscount m)%float (fst ws) (snd ws) (rnd_next e) (engine_next e) in
  exists c tail,
    steps_of (loop dist (S n) d s totalRew g window sum rnd engine)
    = entry_of e ws c :: tail
    /\ (tail = [] \/ tail = steps_of rest).
Proof.
  cbv zeta. rewrite adaptive_loop_step. cbv zeta.
  destruct (isTerminal m (to _)); [exists false, []; split; [reflexivity|now left]|].
  destruct ((minDepth <=? d) && _).
  - destruct (back _); [|exists true, []; split; [reflexivity|now left]].
    destruct (close_enough _ _ _);
      [exists true, []; split; [reflexivity|now left]|].
    eexists true, _. rewrite steps_of_logged. split; [reflexivity|now right].
  - eexists false, _. rewrite steps_of_logged. split; [reflexivity|now right].
Qed.

(** Depth, weight, window and running sum of every step of a call that
    starts at depth [d] after the discounted rewards [hist]. *)
Lemma adaptive_loop_windows dist n :
  forall d s totalRew hist sum rnd engine,
    length hist = d ->
    sum = sum_before windowSize hist d ->
    let o := loop dist n d s totalRew (discount_pow (getDiscount m) d)
               (recent windowSize hist) sum rnd engine in
    let xs := hist ++ map (discounted m) (map step (steps_of o)) in
    forall j e,
      nth_error (steps_of o) j = Some e ->
      depth (step e) = d + j /\
      gamma (step e) = discount_pow (getDiscount m) (d + j) /\
      rewardWindow e = recent windowSize (firstn (S (d + j)) xs) /\
      windowSum e = running_sum windowSize xs (d + j).
Proof.
  induction n as [|n IH]; intros d s totalRew hist sum rnd engine Hlen Hsum.
  { cbn. intros [|j] e; discriminate. }
  cbv zeta.
  destruct (adaptive_loop_first dist n d s totalRew
              (discount_pow (getDiscount m) d) (recent windowSize hist) sum
              rnd engine) as (c & tail & Hsteps & Htail).
  rewrite Hsteps. clear Hsteps.
  set (g := discount_pow (getDiscount m) d) in *.
  set (e0 := sample m dist d g s rnd engine) in *.
  set (x0 := (g * rew e0)%float) in *.
  set (ws := slide windowSize (recent windowSize hist) sum x0) in *.
  assert (Hd : depth e0 = d) by apply sample_depth.
  assert (Hg : gamma e0 = g) by apply sample_gamma.
  assert (Hx : discounted m e0 = x0).
  { unfold discounted. now rewrite Hd. }
  assert (Hw : fst ws = recent windowSize (hist ++ [x0])) by apply slide_recent.
  cbn [map step]. rewrite Hx.
  intros [|j] e Hj.
  - injection Hj as <-. cbn [step rewardWindow windowSum].
    rewrite Nat.add_0_r, Hd, Hg.
    repeat split.
    + rewrite Hw. f_equal.
      rewrite firstn_app, firstn_all2 by lia. rewrite Hlen.
      replace (S d - d) with 1 by lia. reflexivity.
    + subst ws. rewrite <- Hlen. apply slide_sum. now rewrite Hlen.
  - cbn [nth_error] in Hj.
    destruct Htail as [->| ->]; [destruct j; discriminate|].
    rewrite Hw in Hj.
    assert (Hs : snd ws = sum_before windowSize (hist ++ [x0]) (S d)).
    { cbn [sum_before]. subst ws. rewrite <- Hlen.
      apply (slide_sum windowSize hist []). now rewrite Hlen. }
    rewrite Hs in Hj.
    specialize (IH (S d) (to e0) (totalRew + x0)%float (hist ++ [x0])
                  (sum_before windowSize (hist ++ [x0]) (S d))
                  (rnd_next e0) (engine_next e0)).
    cbv zeta in IH.
    specialize (IH ltac:(rewrite length_app; cbn; lia) eq_refl j e Hj).
    rewrite Hw, Hs.
    rewrite <- app_assoc in IH. cbn [app] in IH.
    replace (d + S j) with (S d + j) by lia.
    exact IH.
Qed.


End AdaptiveFacts.

(** ** The properties of the two rollouts *)

Section RolloutProperties.

Context {State Engine Gen : Type} `{UniformRandomBitGenerator Gen}.

Variable m : GenerativeModel State Engine.

Let Step := Step State Engine Gen.
Let WindowedStep := WindowedStep State Engine Gen.

Implicit Types (s : State) (rnd : Gen) (engine : Engine).

Lemma until_terminal_Forall (P : Step -> Prop) (steps : list Step) :
  Forall P steps -> Forall P (until_terminal m steps).
Proof.
  induction 1 as [|e rest He _ IH]; cbn [until_terminal]; [constructor|].
  destruct (isTerminal m (to e)); repeat constructor; assumption.
Qed.

Lemma trajectory_drawn n :
  forall d s rnd engine,
    Forall (drawn_uniformly m) (trajectory m n d s rnd engine).
Proof.
  induction n as [|n IH]; intros d s rnd engine; cbn [trajectory]; constructor.
  - apply sample_drawn.
  - apply IH.
Qed.

Lemma rollout_steps s maxDepth rnd engine :
  log (rollout_run m s maxDepth rnd engine)
  = until_terminal m (trajectory m maxDepth 0 s rnd engine).
Proof. rewrite rollout_run_loop. apply (rollout_loop_log m maxDepth 0). Qed.

(** The steps of an adaptive rollout are those of [rollout] run to their
    number, with the same value, generator and engine at the end. *)
Lemma adaptive_run_truncates minDepth windowSize threshold s maxDepth rnd engine :
  let o := adaptive_run m minDepth windowSize threshold s maxDepth rnd engine in
  let k := length (steps_of o) in
  k <= maxDepth /\
  map step (steps_of o) = log (rollout_run m s k rnd engine) /\
  match o with
  | Returned r => agree r (rollout_run m s k rnd engine)
  | Undefined b => windowSize = 0
  end.
Proof.
  cbv zeta. rewrite adaptive_run_loop, rollout_run_loop.
  apply (adaptive_loop_truncates m minDepth windowSize threshold
           (action_distribution m) maxDepth 0).
Qed.

(** The value of [rollout] is the running discounted sum of its steps. *)
Lemma rollout_value_sum s maxDepth rnd engine :
  rollout m s maxDepth rnd engine
  = discounted_sum m (log (rollout_run m s maxDepth rnd engine)).
Proof.
  unfold rollout, discounted_sum. rewrite rollout_run_loop.
  rewrite rollout_loop_ret.
  change 1%float with (discount_pow (getDiscount m) 0).
  rewrite (rollout_loop_log m maxDepth 0).
  apply discounted_sum_weights, until_terminal_Forall, trajectory_gamma.
Qed.

(** Claim C2: [rollout] returns the running discounted sum of the steps it
    simulates, the reward of the step at depth [d] (counted from 0)
    weighted by [gamma^d] for the model's discount [gamma]; the steps are
    the first ones of the uniformly random simulation from [s], at most
    [maxDepth] of them; a step that reaches a terminal state is the last
    one, and its discounted reward is part of the sum; the simulation is
    shorter than [maxDepth] only when it reached a terminal state; and
    with [maxDepth = 0] the result is [0]. *)
Theorem rollout_discounted_sum s maxDepth rnd engine :
  let steps := log (rollout_run m s maxDepth rnd engine) in
  rollout m s maxDepth rnd engine = discounted_sum m steps
  /\ map depth steps = seq 0 (length steps)
  /\ steps = firstn (length steps) (trajectory m maxDepth 0 s rnd engine)
  /\ length steps <= maxDepth
  /\ (forall i e,
        nth_error steps i = Some e ->
        isTerminal m (to e) = true ->
        S i = length steps)
  /\ (length steps < maxDepth ->
      exists e,
        nth_error steps (length steps - 1) = Some e
        /\ isTerminal m (to e) = true)
  /\ rollout m s 0 rnd engine = 0%float.
Proof.
  cbv zeta. split; [apply rollout_value_sum|].
  rewrite rollout_steps.
  set (tr := trajectory m maxDepth 0 s rnd engine).
  assert (Hlen : length tr = maxDepth) by apply trajectory_length.
  repeat split.
  - rewrite (until_terminal_prefix m tr) at 1.
    rewrite <- firstn_map. unfold tr. rewrite trajectory_depth, firstn_seq.
    f_equal. pose proof (until_terminal_length m tr). fold tr. lia.
  - apply until_terminal_prefix.
  - rewrite <- Hlen. apply until_terminal_length.
  - apply until_terminal_stops.
  - rewrite <- Hlen. apply until_terminal_short.
  - unfold rollout. rewrite rollout_run_loop. reflexivity.
Qed.


End RolloutProperties.

Section ZeroWindow.

Context {State Engine Gen : Type} `{UniformRandomBitGenerator Gen}.

Variable m : GenerativeModel State Engine.

Variables (minDepth : nat) (threshold : double).

Implicit Types (s : State) (rnd : Gen) (engine : Engine).

(** With [windowSize = 0] the window is empty after every update, and the
    first evaluation of the convergence test, at depth [minDepth], reads
    the back of the empty window and divides by zero, unless a terminal
    state ends the call before. *)
Lemma zero_window_loop n :
  forall d s totalRew sum rnd engine,
    d <= minDepth ->
    minDepth < d + n ->
    Forall (fun e => isTerminal m (to e) = false)
      (trajectory m (S minDepth - d) d s rnd engine) ->
    exists b,
      adaptive_loop m minDepth 0 threshold (action_distribution m) n d s
        totalRew (discount_pow (getDiscount m) d) [] sum rnd engine
      = Undefined b
      /\ bad_depth b = minDepth
      /\ bad_window b = []
      /\ bad_divisor b = 0%float
      /\ length (bad_log b) = S minDepth - d.
Proof.
  induction n as [|n IH]; intros d s totalRew sum rnd engine Hd Hn Hlive;
    [lia|].
  rewrite adaptive_loop_step. cbv zeta.
  replace (S minDepth - d) with (S (minDepth - d)) in Hlive by lia.
  cbn [trajectory] in Hlive.
  set (g := discount_pow (getDiscount m) d) in *.
  set (e := sample m (action_distribution m) d g s rnd engine) in *.
  inversion Hlive as [|? ? Hterm Hrest]; subst.
  rewrite Hterm.
  change (slide 0 [] sum (g * rew e)%float)
    with (@nil double, (sum + g * rew e - g * rew e)%float).
  cbn [fst snd length Nat.eqb back]. rewrite andb_true_r.
  destruct (minDepth <=? d) eqn:Hmin.
  - apply Nat.leb_le in Hmin. assert (d = minDepth) as -> by lia.
    eexists. split; [reflexivity|].
    cbn [bad_depth bad_window bad_divisor bad_log length].
    repeat split. lia.
  - apply Nat.leb_gt in Hmin.
    destruct (IH (S d) (to e) (totalRew + g * rew e)%float
                (sum + g * rew e - g * rew e)%float
                (rnd_next e) (engine_next e))
      as (b & Hb & Hdepth & Hwindow & Hdivisor & Hlog); [lia|lia| |].
    { replace (S minDepth - S d) with (minDepth - d) by lia. exact Hrest. }
    change (g * getDiscount m)%float
      with (discount_pow (getDiscount m) (S d)).
    rewrite Hb. cbn [logged_outcome].
    eexists. split; [reflexivity|].
    cbn [bad_depth bad_window bad_divisor bad_log length].
    repeat split; try assumption. lia.
Qed.

End ZeroWindow.

Section AdaptiveProperties.

Context {State Engine Gen : Type} `{UniformRandomBitGenerator Gen}.

Variable m : GenerativeModel State Engine.

Variables (minDepth windowSize : nat) (threshold : double).

Implicit Types (s : State) (rnd : Gen) (engine : Engine)
  (e : WindowedStep State Engine Gen).

Local Notation "'run'" := (adaptive_run m minDepth windowSize threshold).
Local Notation "'Examined'" := (examined m minDepth windowSize).
Local Notation "'Converged'" := (converged m minDepth windowSize threshold).
Local Notation "'Passed'" := (passed m minDepth windowSize threshold).

Lemma adaptive_run_shape s maxDepth rnd engine :
  match run s maxDepth rnd engine with
  | Returned r =>
      (why r = AtMaxDepth /\ length (log r) = maxDepth /\ Forall Passed (log r))
      \/ exists init e,
           log r = init ++ [e] /\ Forall Passed init /\
           checked e = Examined e /\
           ((why r = AtTerminal /\ isTerminal m (to (step e)) = true)
            \/ (why r = AtConvergence /\ Converged e = true))
  | Undefined b =>
      exists init e,
        bad_log b = init ++ [e] /\ Forall Passed init /\
        Examined e = true /\ checked e = true /\
        rewardWindow e = [] /\ windowSize = 0 /\
        bad_depth b = depth (step e) /\ bad_window b = [] /\
        bad_divisor b = to_double windowSize
  end.
Proof. rewrite adaptive_run_loop. apply adaptive_loop_shape. Qed.

Lemma adaptive_run_windows s maxDepth rnd engine :
  let o := run s maxDepth rnd engine in
  let xs := map (discounted m) (map step (steps_of o)) in
  forall i e,
    nth_error (steps_of o) i = Some e ->
    depth (step e) = i /\
    gamma (step e) = discount_pow (getDiscount m) i /\
    rewardWindow e = recent windowSize (firstn (S i) xs) /\
    windowSum e = running_sum windowSize xs i.
Proof.
  cbv zeta. rewrite adaptive_run_loop.
  exact (adaptive_loop_windows m minDepth windowSize threshold
           (action_distribution m) maxDepth 0 s 0%float [] 0%float rnd engine
           eq_refl eq_refl).
Qed.

Lemma adaptive_run_whole s maxDepth rnd engine r :
  run s maxDepth rnd engine = Returned r ->
  (why r = AtConvergence -> length (log r) = maxDepth) ->
  agree r (rollout_run m s maxDepth rnd engine) /\
  map step (log r) = log (rollout_run m s maxDepth rnd engine).
Proof.
  rewrite adaptive_run_loop, rollout_run_loop. apply adaptive_loop_whole.
Qed.

Lemma passed_not_converged e : Passed e -> Converged e = false.
Proof. intros Hp. apply Hp. Qed.

(** A call returns unless its window size is zero. *)
Lemma adaptive_run_returns s maxDepth rnd engine :
  1 <= windowSize ->
  exists r, run s maxDepth rnd engine = Returned r.
Proof.
  intros Hw.
  pose proof (adaptive_run_truncates m minDepth windowSize threshold
                s maxDepth rnd engine) as (_ & _ & Hu).
  destruct (run s maxDepth rnd engine) as [r|b]; [now exists r|lia].
Qed.

(** With a threshold that is zero or negative the criterion is met at no
    step, and the call does what [rollout] does. *)
Lemma nonpositive_threshold_whole s maxDepth rnd engine :
  (threshold <=? 0)%float = true ->
  1 <= windowSize ->
  exists r,
    run s maxDepth rnd engine = Returned r
    /\ why r <> AtConvergence
    /\ agree r (rollout_run m s maxDepth rnd engine)
    /\ map step (log r) = log (rollout_run m s maxDepth rnd engine).
Proof.
  intros Ht Hw.
  destruct (adaptive_run_returns s maxDepth rnd engine Hw) as (r & Hr).
  assert (Hnever : forall e, Converged e = false).
  { intros e. unfold converged.
    destruct (back (rewardWindow e)); [|apply andb_false_r].
    rewrite close_enough_nonpositive by exact Ht. apply andb_false_r. }
  assert (Hwhy : why r <> AtConvergence).
  { pose proof (adaptive_run_shape s maxDepth rnd engine) as Hshape.
    rewrite Hr in Hshape.
    destruct Hshape as [(-> & _)|(init & e & _ & _ & _ & [(-> & _)|(_ & Hc)])];
      try discriminate.
    now rewrite Hnever in Hc. }
  exists r. repeat split; [exact Hr|exact Hwhy| | | |];
    apply (adaptive_run_whole s maxDepth rnd engine r Hr); intros Hc;
    contradiction.
Qed.

(** Claim C3: whatever its parameters, the value [adaptiveRollout] returns
    is the value [rollout] returns when run, from the same state, generator
    and engine, to a depth equal to the number of steps the adaptive call
    executed; the steps are the same, and the value is their running
    discounted sum. The only calls that return nothing are those with
    [windowSize = 0], which read the back of an empty window. *)
Theorem adaptive_is_truncated_rollout s maxDepth rnd engine :
  match run s maxDepth rnd engine with
  | Returned r =>
      let k := length (log r) in
      k <= maxDepth
      /\ adaptiveRollout m minDepth windowSize threshold s maxDepth rnd engine
         = Some (rollout m s k rnd engine)
      /\ map step (log r) = log (rollout_run m s k rnd engine)
      /\ agree r (rollout_run m s k rnd engine)
      /\ ret r = discounted_sum m (map step (log r))
  | Undefined b => windowSize = 0
  end.
Proof.
  pose proof (adaptive_run_truncates m minDepth windowSize threshold
                s maxDepth rnd engine) as Htrunc.
  cbv zeta in Htrunc. unfold adaptiveRollout.
  destruct (run s maxDepth rnd engine) as [r|b]; [|apply Htrunc].
  cbn [steps_of] in Htrunc. destruct Htrunc as (Hk & Hlog & Hagree).
  cbv zeta. repeat split; try apply Hagree; try assumption.
  - f_equal. apply Hagree.
  - rewrite Hlog. destruct Hagree as (-> & _).
    apply (rollout_value_sum m s (length (log r)) rnd engine).
Qed.

(** Claim C10: for every threshold that is zero or negative, and
    [windowSize >= 1], the strict comparison of the convergence test never
    holds, the call never stops by convergence, and it returns exactly the
    value of [rollout] on the same model, state, depth, generator and
    engine, after the same steps. *)
Theorem nonpositive_threshold_is_rollout s maxDepth rnd engine :
  (threshold <=? 0)%float = true ->
  1 <= windowSize ->
  (forall latestReward avgReward,
      close_enough latestReward avgReward threshold = false)
  /\ adaptiveRollout m minDepth windowSize threshold s maxDepth rnd engine
     = Some (rollout m s maxDepth rnd engine)
  /\ exists r,
       run s maxDepth rnd engine = Returned r
       /\ why r <> AtConvergence
       /\ agree r (rollout_run m s maxDepth rnd engine)
       /\ map step (log r) = log (rollout_run m s maxDepth rnd engine).
Proof.
  intros Ht Hw.
  destruct (nonpositive_threshold_whole s maxDepth rnd engine Ht Hw)
    as (r & Hr & Hwhy & Hagree & Hlog).
  split; [intros; now apply close_enough_nonpositive|].
  split; [|now exists r].
  unfold adaptiveRollout, rollout. rewrite Hr. f_equal. apply Hagree.
Qed.

(** Claim C6, as the code has it: [adaptiveRollout] does not examine its
    threshold before it simulates. Called with a negative threshold (and
    [windowSize >= 1]) it rejects nothing: it simulates every step that
    [rollout] simulates and returns the value [rollout] returns. *)
Theorem negative_threshold_is_simulated s maxDepth rnd engine :
  (threshold <? 0)%float = true ->
  1 <= windowSize ->
  exists r,
    run s maxDepth rnd engine = Returned r
    /\ map step (log r) = log (rollout_run m s maxDepth rnd engine)
    /\ adaptiveRollout m minDepth windowSize threshold s maxDepth rnd engine
       = Some (rollout m s maxDepth rnd engine).
Proof.
  intros Ht Hw. apply negative_nonpositive in Ht.
  destruct (nonpositive_threshold_whole s maxDepth rnd engine Ht Hw)
    as (r & Hr & _ & Hagree & Hlog).
  exists r. repeat split; [exact Hr|exact Hlog|].
  unfold adaptiveRollout, rollout. rewrite Hr. f_equal. apply Hagree.
Qed.

(** The criterion, spelled out. *)
Lemma converged_spec e :
  Converged e = true <->
  isTerminal m (to (step e)) = false
  /\ minDepth <= depth (step e)
  /\ length (rewardWindow e) = windowSize
  /\ exists latestReward,
       back (rewardWindow e) = Some latestReward
       /\ (abs (latestReward - windowSum e / to_double windowSize) <? threshold)%float
          = true.
Proof.
  unfold converged, examined, close_enough.
  rewrite !andb_true_iff, negb_true_iff, Nat.leb_le, Nat.eqb_eq.
  destruct (back (rewardWindow e)) as [latest|].
  - split.
    + intros (((Ht & Hd) & Hl) & Hc). repeat split; try assumption.
      now exists latest.
    + intros (Ht & Hd & Hl & x & [= <-] & Hc). repeat split; assumption.
  - split.
    + intros (_ & Hc). discriminate.
    + intros (_ & _ & _ & x & Hx & _). discriminate.
Qed.

(** The window of the step at position [i] holds [min windowSize (i + 1)]
    entries. *)
Lemma adaptive_run_window_length s maxDepth rnd engine i e :
  nth_error (steps_of (run s maxDepth rnd engine)) i = Some e ->
  depth (step e) = i /\
  length (rewardWindow e) = Nat.min windowSize (S i).
Proof.
  intros Hi.
  destruct (adaptive_run_windows s maxDepth rnd engine i e Hi)
    as (Hd & _ & Hw & _).
  split; [exact Hd|].
  rewrite Hw, recent_length, length_firstn, !length_map.
  assert (i < length (steps_of (run s maxDepth rnd engine)))
    by (apply nth_error_Some; congruence).
  lia.
Qed.

(** A call stops by convergence right after a step exactly when the
    criterion holds at that step. *)
Lemma adaptive_run_stop_iff s maxDepth rnd engine i e :
  let o := run s maxDepth rnd engine in
  nth_error (steps_of o) i = Some e ->
  (exists r, o = Returned r /\ why r = AtConvergence /\ S i = length (log r))
  <-> Converged e = true.
Proof.
  cbv zeta. intros Hi.
  pose proof (adaptive_run_shape s maxDepth rnd engine) as Hshape.
  destruct (run s maxDepth rnd engine) as [r|b]; cbn [steps_of] in Hi.
  - destruct Hshape as [(Hwhy & _ & Hall)|(init & e' & Hlog & Hall & _ & Hlast)].
    + assert (Hc : Converged e = false).
      { apply passed_not_converged.
        apply (proj1 (Forall_forall _ _) Hall). eapply nth_error_In, Hi. }
      rewrite Hc. split; [|discriminate].
      intros (r0 & [= <-] & Hw & _). congruence.
    + rewrite Hlog in Hi.
      apply nth_error_snoc in Hi as [(Hlt & Hi)|(-> & ->)].
      * assert (Hc : Converged e = false).
        { apply passed_not_converged.
          apply (proj1 (Forall_forall _ _) Hall). eapply nth_error_In, Hi. }
        rewrite Hc. split; [|discriminate].
        intros (r0 & [= <-] & _ & Hlen). rewrite Hlog, length_app in Hlen.
        cbn in Hlen. lia.
      * destruct Hlast as [(Hwhy & Hterm)|(Hwhy & Hc)].
        -- split.
           ++ intros (r0 & [= <-] & Hw & _). congruence.
           ++ intros Hc. apply converged_spec in Hc. destruct Hc. congruence.
        -- split; [intros _; exact Hc|].
           intros _. exists r. rewrite Hlog, length_app. cbn.
           repeat split; [exact Hwhy|lia].
  - destruct Hshape as (init & e' & Hlog & Hall & _ & _ & Hempty & _).
    split; [intros (r0 & [=] & _)|].
    intros Hc. cbn [steps_of] in Hi. rewrite Hlog in Hi.
    apply nth_error_snoc in Hi as [(Hlt & Hi)|(-> & ->)].
    + assert (Hc' : Converged e = false).
      { apply passed_not_converged.
        apply (proj1 (Forall_forall _ _) Hall). eapply nth_error_In, Hi. }
      congruence.
    + apply converged_spec in Hc as (_ & _ & _ & x & Hx & _).
      rewrite Hempty in Hx. discriminate.
Qed.



(** Every step records whether the test was reached. *)
Lemma adaptive_run_checked s maxDepth rnd engine i e :
  nth_error (steps_of (run s maxDepth rnd engine)) i = Some e ->
  checked e = Examined e.
Proof.
  intros Hi.
  pose proof (adaptive_run_shape s maxDepth rnd engine) as Hshape.
  destruct (run s maxDepth rnd engine) as [r|b]; cbn [steps_of] in Hi.
  - destruct Hshape as [(_ & _ & Hall)|(init & e' & Hlog & Hall & Hlast & _)].
    + apply (proj1 (Forall_forall _ _) Hall). eapply nth_error_In, Hi.
    + rewrite Hlog in Hi.
      apply nth_error_snoc in Hi as [(_ & Hi)|(-> & ->)]; [|exact Hlast].
      apply (proj1 (Forall_forall _ _) Hall). eapply nth_error_In, Hi.
  - destruct Hshape as (init & e' & Hlog & Hall & Hex & Hch & _).
    rewrite Hlog in Hi.
    apply nth_error_snoc in Hi as [(_ & Hi)|(-> & ->)]; [|congruence].
    apply (proj1 (Forall_forall _ _) Hall). eapply nth_error_In, Hi.
Qed.

(** Claim C5: at a step whose window holds fewer than [windowSize]
    entries the convergence test is not evaluated; the call neither stops
    by convergence there nor fails: either it simulates a further step, or
    it returns because the state reached is terminal or because
    [maxDepth] steps are done. Such a step is among the first
    [windowSize - 1] of the call. *)
Theorem short_window_is_not_converged s maxDepth rnd engine i e :
  let o := run s maxDepth rnd engine in
  nth_error (steps_of o) i = Some e ->
  length (rewardWindow e) < windowSize ->
  checked e = false
  /\ S i < windowSize
  /\ ((exists e', nth_error (steps_of o) (S i) = Some e')
      \/ exists r,
           o = Returned r /\ S i = length (log r)
           /\ ((why r = AtTerminal /\ isTerminal m (to (step e)) = true)
               \/ (why r = AtMaxDepth /\ S i = maxDepth))).
Proof.
  cbv zeta. intros Hi Hshort.
  assert (Hex : Examined e = false).
  { unfold examined. replace (length (rewardWindow e) =? windowSize) with false
      by (symmetry; apply Nat.eqb_neq; lia).
    apply andb_false_r. }
  assert (Hconv : Converged e = false).
  { unfold converged. now rewrite Hex. }
  split; [now rewrite (adaptive_run_checked s maxDepth rnd engine i e Hi)|].
  split.
  { destruct (adaptive_run_window_length s maxDepth rnd engine i e Hi). lia. }
  pose proof (adaptive_run_shape s maxDepth rnd engine) as Hshape.
  destruct (run s maxDepth rnd engine) as [r|b]; cbn [steps_of] in *.
  - destruct Hshape as [(Hwhy & Hlen & _)|(init & e' & Hlog & _ & _ & Hlast)].
    + assert (i < length (log r)) by (apply nth_error_Some; congruence).
      destruct (Nat.eq_dec (S i) (length (log r))) as [Heq|Hne].
      * right. exists r. repeat split; [exact Heq|]. right. split; [exact Hwhy|lia].
      * left. apply nth_error_next. lia.
    + rewrite Hlog in *.
      apply nth_error_snoc in Hi as [(Hlt & Hi)|(-> & ->)].
      * left. apply nth_error_next. rewrite length_app. cbn. lia.
      * destruct Hlast as [(Hwhy & Hterm)|(_ & Hc)]; [|congruence].
        right. exists r. rewrite Hlog, length_app. cbn.
        repeat split; [lia|]. now left.
  - destruct Hshape as (init & e' & Hlog & _ & _ & _ & Hempty & Hzero & _).
    rewrite Hlog in *.
    apply nth_error_snoc in Hi as [(Hlt & Hi)|(-> & ->)]; [|lia].
    left. apply nth_error_next. rewrite length_app. cbn. lia.
Qed.

(** Claim C9: with [windowSize >= 1] the call returns, and every
    evaluation of its convergence test finds the window holding exactly
    [windowSize] entries, hence not empty, so that its back element is
    read from a non-empty window and the divisor [windowSize] is not zero.
    With [windowSize = 0] and [minDepth < maxDepth], a call that meets no
    terminal state in its first [minDepth + 1] steps evaluates the test at
    depth [minDepth]: it reads the back of an empty window and divides by
    zero. *)
Theorem convergence_test_reads s maxDepth rnd engine :
  (1 <= windowSize ->
   exists r,
     run s maxDepth rnd engine = Returned r
     /\ Forall (fun e =>
                  checked e = true ->
                  length (rewardWindow e) = windowSize
                  /\ rewardWindow e <> []
                  /\ exists latestReward,
                       back (rewardWindow e) = Some latestReward)
          (log r))
  /\ (minDepth < maxDepth ->
      Forall (fun made => isTerminal m (to made) = false)
        (trajectory m (S minDepth) 0 s rnd engine) ->
      exists b,
        adaptive_run m minDepth 0 threshold s maxDepth rnd engine = Undefined b
        /\ adaptiveRollout m minDepth 0 threshold s maxDepth rnd engine = None
        /\ bad_depth b = minDepth
        /\ bad_window b = []
        /\ bad_divisor b = 0%float
        /\ length (bad_log b) = S minDepth).
Proof.
  split.
  - intros Hw.
    destruct (adaptive_run_returns s maxDepth rnd engine Hw) as (r & Hr).
    exists r. split; [exact Hr|].
    apply Forall_forall. intros e He Hch.
    apply In_nth_error in He as (i & Hi).
    assert (Hsteps : nth_error (steps_of (run s maxDepth rnd engine)) i = Some e)
      by now rewrite Hr.
    rewrite (adaptive_run_checked s maxDepth rnd engine i e Hsteps) in Hch.
    unfold examined in Hch. apply andb_prop in Hch as [_ Hlen].
    apply Nat.eqb_eq in Hlen.
    split; [exact Hlen|]. split.
    + intros Hnil. rewrite Hnil in Hlen. cbn in Hlen. lia.
    + apply back_nonempty. lia.
  - intros Hdepth Hlive.
    destruct (zero_window_loop m minDepth threshold maxDepth 0 s 0%float
                0%float rnd engine) as (b & Hb & Hrest);
      [lia|lia|now rewrite Nat.sub_0_r|].
    rewrite Nat.sub_0_r in Hrest.
    exists b. unfold adaptiveRollout. rewrite adaptive_run_loop.
    change 1%float with (discount_pow (getDiscount m) 0).
    rewrite Hb. repeat split; apply Hrest.
Qed.

(** When a call stops by convergence it has made more than [minDepth]
    steps, and at least [windowSize]. *)
Lemma convergence_needs_steps s maxDepth rnd engine r :
  run s maxDepth rnd engine = Returned r ->
  why r = AtConvergence ->
  minDepth < length (log r) /\ windowSize <= length (log r).
Proof.
  intros Hr Hwhy.
  pose proof (adaptive_run_shape s maxDepth rnd engine) as Hshape.
  rewrite Hr in Hshape.
  destruct Hshape
    as [(Hw' & _)|(init & e & Hlog & _ & _ & [(Hw' & _)|(_ & Hc)])];
    try congruence.
  assert (Hi : nth_error (steps_of (run s maxDepth rnd engine)) (length init)
               = Some e).
  { rewrite Hr. cbn [steps_of]. rewrite Hlog, nth_error_app2 by lia.
    now rewrite Nat.sub_diag. }
  destruct (adaptive_run_window_length s maxDepth rnd engine _ e Hi)
    as (Hd & Hlen).
  apply converged_spec in Hc as (_ & Hmin & Hfull & _).
  rewrite Hlog, length_app. cbn. lia.
Qed.

(** Claim C1, as the code has it: with [windowSize >= maxDepth] or
    [minDepth >= maxDepth] the adaptive rollout returns exactly the value
    of [rollout], after the same steps and leaving the same generator and
    engine. The convergence test does not make it stop when
    [windowSize > maxDepth] or [minDepth >= maxDepth]; when
    [windowSize = maxDepth > minDepth] the test is evaluated in the last
    iteration and can make the call return there, after all [maxDepth]
    steps. *)
Theorem adaptive_beyond_depth_is_rollout s maxDepth rnd engine :
  maxDepth <= windowSize \/ maxDepth <= minDepth ->
  exists r,
    run s maxDepth rnd engine = Returned r
    /\ adaptiveRollout m minDepth windowSize threshold s maxDepth rnd engine
       = Some (rollout m s maxDepth rnd engine)
    /\ agree r (rollout_run m s maxDepth rnd engine)
    /\ map step (log r) = log (rollout_run m s maxDepth rnd engine)
    /\ (why r = AtConvergence ->
        windowSize = maxDepth /\ minDepth < maxDepth
        /\ length (log r) = maxDepth)
    /\ (maxDepth < windowSize \/ maxDepth <= minDepth ->
        why r <> AtConvergence).
Proof.
  intros Hbeyond.
  pose proof (adaptive_run_truncates m minDepth windowSize threshold
                s maxDepth rnd engine) as (Hk & _ & Hu).
  pose proof (adaptive_run_shape s maxDepth rnd engine) as Hshape.
  destruct (run s maxDepth rnd engine) as [r|b] eqn:Hr.
  - cbn [steps_of] in Hk.
    assert (Hconv : why r = AtConvergence ->
                    windowSize = maxDepth /\ minDepth < maxDepth
                    /\ length (log r) = maxDepth).
    { intros Hwhy.
      destruct (convergence_needs_steps s maxDepth rnd engine r Hr Hwhy). lia. }
    destruct (adaptive_run_whole s maxDepth rnd engine r Hr) as (Hagree & Hlog);
      [intros Hwhy; now apply Hconv|].
    exists r. split; [reflexivity|]. split.
    { unfold adaptiveRollout, rollout. rewrite Hr. f_equal. apply Hagree. }
    split; [exact Hagree|]. split; [exact Hlog|]. split; [exact Hconv|].
    intros Hstrict Hwhy. apply Hconv in Hwhy. lia.
  - exfalso.
    destruct Hshape as (init & e & Hlog & _ & Hex & _ & _ & Hzero & _).
    assert (Hi : nth_error (steps_of (run s maxDepth rnd engine)) (length init)
                 = Some e).
    { rewrite Hr. cbn [steps_of]. rewrite Hlog, nth_error_app2 by lia.
      now rewrite Nat.sub_diag. }
    destruct (adaptive_run_window_length s maxDepth rnd engine _ e Hi)
      as (Hd & _).
    unfold examined in Hex. apply andb_prop in Hex as [Hex _].
    apply andb_prop in Hex as [_ Hmin]. apply Nat.leb_le in Hmin.
    cbn [steps_of] in Hk. rewrite Hlog, length_app in Hk. cbn in Hk. lia.
Qed.


End AdaptiveProperties.

(** ** The tiger model *)

(** Claim C8: the model built by [makeTigerProblem] has 2 states, 3 actions
    and 2 observations; listening leaves the state where it is with
    probability 1 and yields the observation that matches the state with
    probability 0.85; listening costs -1 in every state; opening the door
    with the treasure yields +10 and the door with the tiger -100; opening
    either door moves to each state with probability 1/2; and every row of
    the transition and of the observation table is a probability
    distribution, non-negative and summing to 1. *)
Theorem tiger_model_tables :
  let M := Tiger.makeTigerProblem in
  let T := Tiger.at3 (Tiger.transitions M) in
  let R := Tiger.at3 (Tiger.rewards M) in
  let O := Tiger.at3 (Tiger.observations M) in
  (Tiger.getS M = 2 /\ Tiger.getA M = 3 /\ Tiger.getO M = 2)
  /\ (forall s s1, s < 2 -> s1 < 2 ->
        T s Tiger.A_LISTEN s1 = if s =? s1 then 1%float else 0%float)
  /\ (forall s o, s < 2 -> o < 2 ->
        O s Tiger.A_LISTEN o = if s =? o then 0.85%float else 0.15%float)
  /\ (forall s s1, s < 2 -> s1 < 2 -> R s Tiger.A_LISTEN s1 = (-1)%float)
  /\ (forall s1, s1 < 2 ->
        R Tiger.TIG_RIGHT Tiger.A_LEFT s1 = 10%float
        /\ R Tiger.TIG_LEFT Tiger.A_RIGHT s1 = 10%float
        /\ R Tiger.TIG_LEFT Tiger.A_LEFT s1 = (-100)%float
        /\ R Tiger.TIG_RIGHT Tiger.A_RIGHT s1 = (-100)%float)
  /\ (forall s s1, s < 2 -> s1 < 2 ->
        T s Tiger.A_LEFT s1 = 0.5%float /\ T s Tiger.A_RIGHT s1 = 0.5%float)
  /\ (forall s a, s < 2 -> a < 3 ->
        length (nth a (nth s (Tiger.transitions M) []) []) = 2
        /\ length (nth a (nth s (Tiger.observations M) []) []) = 2
        /\ Tiger.is_distribution (Tiger.transitions M) s a
        /\ Tiger.is_distribution (Tiger.observations M) s a).
Proof.
  cbv zeta. unfold Tiger.is_distribution.
  repeat split; try reflexivity; intros;
    repeat match goal with
           | Hlt : ?x < _ |- _ =>
               destruct x as [|[|[|x]]]; try lia; clear Hlt
           end;
    vm_compute; reflexivity.
Qed.

(** ** The rollouts on concrete models *)

Lemma lcg_draws_in_range : draws_in_range Example.Lcg.
Proof.
  intros a b g Hab. unfold size_t in *.
  cbn [uniform_int_distribution Example.Lcg_generator fst].
  assert (Hx : (Example.seed (Example.lcg_next g) mod (b - a + 1) < b - a + 1)%N)
    by (apply N.mod_upper_bound; lia).
  revert Hx.
  generalize (Example.seed (Example.lcg_next g) mod (b - a + 1))%N.
  intros x Hx. lia.
Qed.

Example rollout_corridor :
  rollout (Example.corridor 100 0.5%float) 0 5 Example.g0 tt = 4.3125%float.
Proof. vm_compute. reflexivity. Qed.

Example rollout_corridor_terminal :
  rollout (Example.corridor 3 0.5%float) 0 10 Example.g0 tt = 3.75%float
  /\ length (log (rollout_run (Example.corridor 3 0.5%float) 0 10 Example.g0 tt)) = 3.
Proof. vm_compute. split; reflexivity. Qed.

(** An adaptive rollout that stops by convergence after four of ten
    steps, where [rollout] goes on. *)
Example adaptive_corridor_converges :
  adaptiveRollout (Example.corridor 100 0.5%float) 2 3 0.6%float 0 10 Example.g0 tt
  = Some 4.125%float
  /\ rollout (Example.corridor 100 0.5%float) 0 4 Example.g0 tt = 4.125%float
  /\ rollout (Example.corridor 100 0.5%float) 0 10 Example.g0 tt
     = 4.494140625%float.
Proof. vm_compute. repeat split; reflexivity. Qed.

(** The input that refutes claim C1 as stated: with
    [windowSize = maxDepth = 1] and [minDepth = 0] the convergence test is
    evaluated in the only iteration and holds there, the single window
    entry being equal to its own average. *)
Lemma convergence_in_last_iteration :
  (1 <= 1 \/ 1 <= 0)
  /\ exists r,
       adaptive_run (Example.corridor 100 0.5%float) 0 1 0.01%float 0 1
         Example.g0 tt = Returned r
       /\ why r = AtConvergence
       /\ map checked (log r) = [true].
Proof.
  split; [left; lia|].
  eexists. split; [vm_compute; reflexivity|]. split; reflexivity.
Qed.

Lemma adaptive_beyond_depth_witness :
  (3 <= 5 \/ 3 <= 0)
  /\ adaptiveRollout (Example.corridor 100 0.5%float) 0 5 0.01%float 0 3
       Example.g0 tt
     = Some (rollout (Example.corridor 100 0.5%float) 0 3 Example.g0 tt).
Proof.
  assert (Hbeyond : 3 <= 5 \/ 3 <= 0) by (left; repeat constructor).
  split; [exact Hbeyond|].
  destruct (adaptive_beyond_depth_is_rollout
              (Example.corridor 100 0.5%float) 0 5 0.01%float 0 3
              Example.g0 tt Hbeyond) as (r & _ & Hvalue & _).
  exact Hvalue.
Defined.

(** The input that refutes claim C6 as stated: a call with threshold [-1]
    is not rejected; it simulates three steps and returns their sum. *)
Lemma negative_threshold_not_rejected :
  (-1 <? 0)%float = true
  /\ adaptiveRollout (Example.corridor 100 0.5%float) 0 1 (-1)%float 0 3
       Example.g0 tt = Some 3.75%float
  /\ length
       (steps_of
          (adaptive_run (Example.corridor 100 0.5%float) 0 1 (-1)%float 0 3
             Example.g0 tt)) = 3.
Proof. vm_compute. repeat split; reflexivity. Qed.

Lemma negative_threshold_witness :
  (-1 <? 0)%float = true /\ 1 <= 1
  /\ adaptiveRollout (Example.corridor 100 0.5%float) 0 1 (-1)%float 0 3
       Example.g0 tt
     = Some (rollout (Example.corridor 100 0.5%float) 0 3 Example.g0 tt).
Proof.
  assert (Hneg : (-1 <? 0)%float = true) by reflexivity.
  assert (Hw : 1 <= 1) by constructor.
  split; [exact Hneg|]. split; [exact Hw|].
  destruct (negative_threshold_is_simulated
              (Example.corridor 100 0.5%float) 0 1 (-1)%float 0 3
              Example.g0 tt Hneg Hw) as (r & _ & _ & Hvalue).
  exact Hvalue.
Defined.

Lemma nonpositive_threshold_witness :
  (0 <=? 0)%float = true /\ 1 <= 2
  /\ adaptiveRollout (Example.corridor 100 0.5%float) 0 2 0%float 0 6
       Example.g0 tt
     = Some (rollout (Example.corridor 100 0.5%float) 0 6 Example.g0 tt).
Proof.
  assert (Hzero : (0 <=? 0)%float = true) by reflexivity.
  assert (Hw : 1 <= 2) by repeat constructor.
  split; [exact Hzero|]. split; [exact Hw|].
  destruct (nonpositive_threshold_is_rollout
              (Example.corridor 100 0.5%float) 0 2 0%float 0 6
              Example.g0 tt Hzero Hw) as (_ & Hvalue & _).
  exact Hvalue.
Defined.


Lemma short_window_witness :
  exists e,
    nth_error
      (steps_of
         (adaptive_run (Example.corridor 100 0.5%float) 0 3 0.6%float 0 10
            Example.g0 tt)) 0 = Some e
    /\ length (rewardWindow e) < 3
    /\ checked e = false
    /\ exists e',
         nth_error
           (steps_of
              (adaptive_run (Example.corridor 100 0.5%float) 0 3 0.6%float 0 10
                 Example.g0 tt)) 1 = Some e'.
Proof.
  eexists. split; [vm_compute; reflexivity|].
  split; [repeat constructor|].
  match goal with
  | |- checked ?e = false /\ _ =>
      destruct (short_window_is_not_converged
                  (Example.corridor 100 0.5%float) 0 3 0.6%float 0 10
                  Example.g0 tt 0 e) as (Hchecked & _ & _)
  end.
  - vm_compute. reflexivity.
  - repeat constructor.
  - split; [exact Hchecked|]. eexists. vm_compute. reflexivity.
Defined.

Lemma zero_window_witness :
  0 < 1
  /\ adaptiveRollout (Example.corridor 100 0.5%float) 0 0 0.01%float 0 1
       Example.g0 tt = None.
Proof.
  assert (Hdepth : 0 < 1) by constructor.
  split; [exact Hdepth|].
  destruct (convergence_test_reads
              (Example.corridor 100 0.5%float) 0 5 0.01%float 0 1
              Example.g0 tt) as (_ & Hzero).
  destruct (Hzero Hdepth) as (b & _ & Hnone & _).
  - repeat constructor.
  - exact Hnone.
Defined.


(** ** Further properties of the two rollouts *)

Section MoreRolloutProperties.

Context {State Engine Gen : Type} `{UniformRandomBitGenerator Gen}.

Variable m : GenerativeModel State Engine.

Variables (minDepth windowSize : nat) (threshold : double).

Implicit Types (s : State) (rnd : Gen) (engine : Engine).

Lemma last_cons_default {X : Type} (x d : X) (l : list X) :
  last (x :: l) d = last l x.
Proof.
  revert x d. induction l as [|y l IH]; intros x d; [reflexivity|].
  change (last (x :: y :: l) d) with (last (y :: l) d).
  now rewrite (IH y d), (IH y x).
Qed.

Lemma trajectory_firstn k n :
  k <= n ->
  forall d s rnd engine,
    firstn k (trajectory m n d s rnd engine) = trajectory m k d s rnd engine.
Proof.
  revert n. induction k as [|k IH]; intros n Hk d s rnd engine; [reflexivity|].
  destruct n as [|n]; [lia|].
  cbn [trajectory firstn]. f_equal. apply IH. lia.
Qed.

Lemma until_terminal_firstn k (steps : list (Step State Engine Gen)) :
  until_terminal m (firstn k steps) = firstn k (until_terminal m steps).
Proof.
  revert k. induction steps as [|e rest IH]; intros [|k]; try reflexivity.
  cbn [firstn until_terminal]. destruct (isTerminal m (to e)).
  - cbn [firstn]. now destruct k.
  - cbn [firstn]. now rewrite IH.
Qed.

Lemma trajectory_threaded n :
  forall d s rnd engine, threaded m s rnd engine (trajectory m n d s rnd engine).
Proof.
  induction n as [|n IH]; intros d s rnd engine; cbn [trajectory threaded];
    [exact I|].
  destruct (sample_fields m (action_distribution m) d
              (discount_pow (getDiscount m) d) s rnd engine)
    as (_ & _ & Hs & Hr & He & Hd & Hm).
  repeat split; try assumption. apply IH.
Qed.

Lemma until_terminal_threaded (steps : list (Step State Engine Gen)) :
  forall s rnd engine,
    threaded m s rnd engine steps ->
    threaded m s rnd engine (until_terminal m steps).
Proof.
  induction steps as [|e rest IH]; intros s rnd engine Ht; [exact I|].
  cbn [until_terminal]. cbn [threaded] in Ht.
  destruct Ht as (H1 & H2 & H3 & H4 & H5 & H6).
  destruct (isTerminal m (to e)); cbn [threaded]; repeat split;
    try assumption. now apply IH.
Qed.

Lemma rollout_loop_after dist n :
  forall d s totalRew g rnd engine,
    let r := rollout_loop m dist n d s totalRew g rnd engine in
    rnd_after r = last (map rnd_next (log r)) rnd
    /\ engine_after r = last (map engine_next (log r)) engine.
Proof.
  induction n as [|n IH]; intros d s totalRew g rnd engine; [split; reflexivity|].
  cbv zeta. cbn [rollout_loop].
  destruct (isTerminal m (to _)); [split; reflexivity|].
  cbn [logged rnd_after engine_after log map].
  rewrite !last_cons_default. apply IH.
Qed.

(** The steps of [rollout] to a smaller depth are the first steps of
    [rollout] to a larger one. *)
Lemma rollout_steps_firstn k n s rnd engine :
  k <= n ->
  log (rollout_run m s k rnd engine)
  = firstn k (log (rollout_run m s n rnd engine)).
Proof.
  intros Hk. rewrite !rollout_steps, <- until_terminal_firstn.
  now rewrite trajectory_firstn.
Qed.

(** Extra X1: neither rollout looks at the state it starts from. With
    [maxDepth >= 1] both simulate a first step from [s], at depth 0 and with
    weight 1, whether or not [s] is terminal; only the state that step
    reaches is tested. *)
Theorem rollouts_simulate_from_any_start s maxDepth rnd engine :
  1 <= maxDepth ->
  let e := sample m (action_distribution m) 0 1%float s rnd engine in
  from e = s
  /\ (exists rest, log (rollout_run m s maxDepth rnd engine) = e :: rest)
  /\ (exists rest,
        map step
          (steps_of
             (adaptive_run m minDepth windowSize threshold s maxDepth rnd engine))
        = e :: rest)
  /\ (isTerminal m (to e) = true ->
      rollout m s maxDepth rnd engine = (0 + 1 * rew e)%float
      /\ adaptiveRollout m minDepth windowSize threshold s maxDepth rnd engine
         = Some (0 + 1 * rew e)%float).
Proof.
  intros Hdepth. destruct maxDepth as [|n]; [lia|]. cbv zeta.
  split; [apply (sample_fields m (action_distribution m) 0 1%float s rnd engine)|].
  split.
  { rewrite rollout_run_loop. cbn [rollout_loop].
    destruct (isTerminal m (to _)); eexists; reflexivity. }
  split.
  { rewrite adaptive_run_loop.
    destruct (adaptive_loop_first m minDepth windowSize threshold
                (action_distribution m) n 0 s 0%float 1%float [] 0%float
                rnd engine) as (c & tail & -> & _).
    eexists. reflexivity. }
  intros Hterm. split.
  - unfold rollout. rewrite rollout_run_loop. cbn [rollout_loop].
    now rewrite Hterm.
  - unfold adaptiveRollout. rewrite adaptive_run_loop, adaptive_loop_step.
    cbv zeta. now rewrite Hterm.
Qed.

(** Extra X2: an adaptive rollout simulates nothing that [rollout] with the
    same arguments does not simulate: its steps are the first steps of that
    rollout, in the same order. *)
Theorem adaptive_steps_prefix_of_rollout s maxDepth rnd engine :
  let made :=
    map step
      (steps_of
         (adaptive_run m minDepth windowSize threshold s maxDepth rnd engine)) in
  length made <= length (log (rollout_run m s maxDepth rnd engine))
  /\ made = firstn (length made) (log (rollout_run m s maxDepth rnd engine)).
Proof.
  cbv zeta.
  destruct (adaptive_run_truncates m minDepth windowSize threshold
              s maxDepth rnd engine) as (Hk & Hlog & _).
  rewrite length_map.
  set (k := length (steps_of _)) in *.
  assert (Hpre : map step
                   (steps_of
                      (adaptive_run m minDepth windowSize threshold s maxDepth
                         rnd engine))
                 = firstn k (log (rollout_run m s maxDepth rnd engine))).
  { rewrite Hlog. now apply rollout_steps_firstn. }
  split; [|exact Hpre].
  apply (f_equal (@length _)) in Hpre.
  rewrite length_map, length_firstn in Hpre. fold k in Hpre. lia.
Qed.

(** Extra X3: a rollout to depth [k <= n] simulates the first steps of the
    rollout to depth [n], and returns the running discounted sum of those
    steps; the deeper rollout only adds steps after them. *)
Theorem rollout_shallower_is_prefix k n s rnd engine :
  k <= n ->
  log (rollout_run m s k rnd engine)
  = firstn k (log (rollout_run m s n rnd engine))
  /\ rollout m s k rnd engine
     = discounted_sum m (firstn k (log (rollout_run m s n rnd engine))).
Proof.
  intros Hk. split; [now apply rollout_steps_firstn|].
  rewrite rollout_value_sum. now rewrite (rollout_steps_firstn k n).
Qed.

(** Extra X4: both rollouts draw from the generator exactly once per
    simulated step and sample the model exactly once per step, each step
    starting from the state, generator and engine the step before left;
    the generator and engine handed back are those the last step left, and
    the ones passed in when no step was simulated. *)
Theorem rollouts_thread_generator s maxDepth rnd engine :
  let plain := rollout_run m s maxDepth rnd engine in
  threaded m s rnd engine (log plain)
  /\ rnd_after plain = last (map rnd_next (log plain)) rnd
  /\ engine_after plain = last (map engine_next (log plain)) engine
  /\ match adaptive_run m minDepth windowSize threshold s maxDepth rnd engine with
     | Returned r =>
         threaded m s rnd engine (map step (log r))
         /\ rnd_after r = last (map rnd_next (map step (log r))) rnd
         /\ engine_after r = last (map engine_next (map step (log r))) engine
     | Undefined b => threaded m s rnd engine (map step (bad_log b))
     end.
Proof.
  cbv zeta.
  assert (Hplain : forall k,
    threaded m s rnd engine (log (rollout_run m s k rnd engine))
    /\ rnd_after (rollout_run m s k rnd engine)
       = last (map rnd_next (log (rollout_run m s k rnd engine))) rnd
    /\ engine_after (rollout_run m s k rnd engine)
       = last (map engine_next (log (rollout_run m s k rnd engine))) engine).
  { intros k. split.
    - rewrite rollout_steps. apply until_terminal_threaded, trajectory_threaded.
    - rewrite rollout_run_loop. apply rollout_loop_after. }
  destruct (Hplain maxDepth) as (Ht & Hr & He).
  repeat split; try assumption.
  destruct (adaptive_run_truncates m minDepth windowSize threshold
              s maxDepth rnd engine) as (_ & Hlog & Hagree).
  destruct (adaptive_run m minDepth windowSize threshold s maxDepth rnd engine)
    as [r|b]; cbn [steps_of] in *.
  - destruct (Hplain (length (log r))) as (Ht' & Hr' & He').
    destruct Hagree as (_ & Hra & Hea).
    rewrite Hlog, Hra, Hea. repeat split; assumption.
  - rewrite Hlog. apply Hplain.
Qed.

(** Extra X5: unless a terminal state ends it, an adaptive rollout
    simulates at least [min maxDepth (max (minDepth + 1) windowSize)] steps:
    when it stops by convergence it has made more than [minDepth] steps and
    at least [windowSize]. *)
Theorem adaptive_simulates_at_least s maxDepth rnd engine r :
  adaptive_run m minDepth windowSize threshold s maxDepth rnd engine
  = Returned r ->
  why r <> AtTerminal ->
  Nat.min maxDepth (Nat.max (S minDepth) windowSize) <= length (log r)
  /\ (why r = AtConvergence ->
      minDepth < length (log r) /\ windowSize <= length (log r))
  /\ (why r = AtMaxDepth -> length (log r) = maxDepth).
Proof.
  intros Hr Hwhy.
  assert (Hconv : why r = AtConvergence ->
                  minDepth < length (log r) /\ windowSize <= length (log r))
    by apply (convergence_needs_steps m minDepth windowSize threshold
                s maxDepth rnd engine r Hr).
  assert (Hmax : why r = AtMaxDepth -> length (log r) = maxDepth).
  { intros Hw.
    pose proof (adaptive_run_shape m minDepth windowSize threshold
                  s maxDepth rnd engine) as Hshape.
    rewrite Hr in Hshape.
    destruct Hshape as [(_ & Hlen & _)|(init & e & _ & _ & _ & [(Hw' & _)|(Hw' & _)])];
      [exact Hlen|congruence|congruence]. }
  split; [|split; assumption].
  destruct (why r) eqn:Hw; [contradiction| |].
  - destruct (Hconv eq_refl). lia.
  - rewrite (Hmax eq_refl). lia.
Qed.

End MoreRolloutProperties.

(** ** The console helpers *)

Section RenderingProperties.

Import Rendering.

Lemma print_up_shape (d : nat) (c : Console) a0 a1 ch rest :
  up c = a0 :: a1 :: ch :: rest ->
  print_up d c
  = {| up := cursor_up a0 a1 rest d;
       cout := cout c ++ cursor_up a0 a1 rest d |}.
Proof. intros Hup. unfold print_up. rewrite Hup. reflexivity. Qed.

Lemma goup_loop_spec fuel :
  forall x c a0 a1 ch rest,
    up c = a0 :: a1 :: ch :: rest ->
    x <= fuel ->
    exists c' ch',
      goup_loop fuel x c = (x - 9 * ((x - 1) / 9), c')
      /\ up c' = a0 :: a1 :: ch' :: rest
      /\ cout c'
         = cout c ++ concat (repeat (cursor_up a0 a1 rest 9) ((x - 1) / 9)).
Proof.
  induction fuel as [|fuel IH]; intros x c a0 a1 ch rest Hup Hfuel.
  - assert (x = 0) as -> by lia. exists c, ch. cbn. now rewrite app_nil_r.
  - cbn [goup_loop]. destruct (9 <? x) eqn:Hx.
    + apply Nat.ltb_lt in Hx.
      rewrite (print_up_shape 9 c a0 a1 ch rest Hup).
      destruct (IH (x - 9)
                  {| up := cursor_up a0 a1 rest 9;
                     cout := cout c ++ cursor_up a0 a1 rest 9 |}
                  a0 a1 (digit_char 9) rest eq_refl ltac:(lia))
        as (c' & ch' & Hloop & Hup' & Hout).
      assert (Hk : (x - 1) / 9 = S ((x - 9 - 1) / 9)).
      { replace (x - 1) with ((x - 9 - 1) + 1 * 9) by lia.
        rewrite Nat.div_add by lia. lia. }
      exists c', ch'. rewrite Hloop, Hk. repeat split; [f_equal; lia|exact Hup'|].
      rewrite Hout. cbn [cout repeat concat]. now rewrite <- app_assoc.
    + apply Nat.ltb_ge in Hx.
      assert (Hk : (x - 1) / 9 = 0) by (apply Nat.div_small; lia).
      exists c, ch. rewrite Hk, Nat.mul_0_r, Nat.sub_0_r. cbn.
      now rewrite app_nil_r.
Qed.

Lemma goup_output_aux (x : nat) (c : Console) a0 a1 ch rest :
  up c = a0 :: a1 :: ch :: rest ->
  cout (goup x c)
  = cout c ++ concat (repeat (cursor_up a0 a1 rest 9) ((x - 1) / 9))
    ++ cursor_up a0 a1 rest (x - 9 * ((x - 1) / 9))
  /\ 9 * ((x - 1) / 9) + (x - 9 * ((x - 1) / 9)) = x.
Proof.
  intros Hup.
  destruct (goup_loop_spec x x c a0 a1 ch rest Hup (le_n x))
    as (c' & ch' & Hloop & Hup' & Hout).
  unfold goup. rewrite Hloop.
  rewrite (print_up_shape _ c' a0 a1 ch' rest Hup'). cbn [cout].
  rewrite Hout, <- app_assoc.
  pose proof (Nat.div_mod_eq (x - 1) 9) as Hdm.
  pose proof (Nat.mod_upper_bound (x - 1) 9 ltac:(lia)) as Hmod.
  split; [reflexivity|lia].
Qed.

(** Extra X6: [goup x] writes [(x - 1) / 9] times the sequence that moves
    the cursor up by 9 lines and then once the sequence for the lines that
    remain, between 1 and 9 of them when [x >= 1]; the line counts written
    add up to [x], and every count is a single digit. The string [up] is
    left holding the last sequence, so that a later call starts from a
    string of the same shape. For [x = 0] the single sequence written
    carries the count 0. *)
Theorem goup_moves_up_by_x (x : nat) (c : Console) a0 a1 ch rest :
  up c = a0 :: a1 :: ch :: rest ->
  let k := (x - 1) / 9 in
  let r := x - 9 * k in
  cout (goup x c)
  = cout c ++ concat (repeat (cursor_up a0 a1 rest 9) k) ++ cursor_up a0 a1 rest r
  /\ up (goup x c) = cursor_up a0 a1 rest r
  /\ 9 * k + r = x
  /\ r <= 9
  /\ (1 <= x -> 1 <= r).
Proof.
  intros Hup. cbv zeta.
  destruct (goup_loop_spec x x c a0 a1 ch rest Hup (le_n x))
    as (c' & ch' & Hloop & Hup' & Hout).
  unfold goup. rewrite Hloop.
  rewrite (print_up_shape _ c' a0 a1 ch' rest Hup'). cbn [cout up].
  rewrite Hout, <- app_assoc.
  pose proof (Nat.div_mod_eq (x - 1) 9) as Hdm.
  pose proof (Nat.mod_upper_bound (x - 1) 9 ltac:(lia)) as Hmod.
  repeat split; lia.
Qed.

Lemma godown_spec (x : nat) :
  forall c,
    cout (godown x c) = cout c ++ repeat newline x /\ up (godown x c) = up c.
Proof.
  induction x as [|x IH]; intros c; cbn [godown repeat].
  - now rewrite app_nil_r.
  - destruct (IH {| up := up c; cout := cout c ++ [newline] |}) as (-> & ->).
    cbn [cout up]. now rewrite <- app_assoc.
Qed.

(** Extra X7: [godown x] writes exactly [x] newline characters and leaves
    [up] alone, and a following [goup x] writes cursor-up sequences whose
    digits add up to the same [x]. For [x = 0] nothing is written by
    [godown] and [goup] still writes one sequence, with the digit 0; what a
    terminal does with the sequences is not part of the program. *)
Theorem godown_then_goup (x : nat) (c : Console) a0 a1 ch rest :
  up c = a0 :: a1 :: ch :: rest ->
  let k := (x - 1) / 9 in
  let r := x - 9 * k in
  cout (godown x c) = cout c ++ repeat newline x
  /\ up (godown x c) = up c
  /\ cout (goup x (godown x c))
     = cout c ++ repeat newline x
       ++ concat (repeat (cursor_up a0 a1 rest 9) k) ++ cursor_up a0 a1 rest r
  /\ List.length (repeat newline x) = 9 * k + r
  /\ (x = 0 ->
      cout (goup x (godown x c)) = cout c ++ cursor_up a0 a1 rest 0).
Proof.
  intros Hup. cbv zeta.
  destruct (godown_spec x c) as (Hout & Hsame).
  assert (Hup' : up (godown x c) = a0 :: a1 :: ch :: rest) by congruence.
  destruct (goup_output_aux x (godown x c) a0 a1 ch rest Hup')
    as (Hgo & Hsum).
  assert (Hboth : cout (goup x (godown x c))
                  = cout c ++ repeat newline x
                    ++ concat (repeat (cursor_up a0 a1 rest 9) ((x - 1) / 9))
                    ++ cursor_up a0 a1 rest (x - 9 * ((x - 1) / 9)))
    by (rewrite Hgo, Hout, <- app_assoc; reflexivity).
  split; [exact Hout|]. split; [exact Hsame|]. split; [exact Hboth|].
  split.
  - rewrite repeat_length. lia.
  - intros ->. rewrite Hboth. reflexivity.
Qed.

End RenderingProperties.

(** ** The rock states *)

Section RockStateProperties.

Import RockState.

Lemma iter_div3 (rockIndex : nat) (x : N) :
  Nat.iter rockIndex (fun shifted => shifted / 3)%N x
  = (x / 3 ^ N.of_nat rockIndex)%N.
Proof.
  induction rockIndex as [|r IH].
  - cbn. now rewrite N.div_1_r.
  - rewrite Nat.iter_succ, IH, N.Div0.div_div.
    rewrite Nat2N.inj_succ, N.pow_succ_r'. f_equal. lia.
Qed.

Lemma encode_rocks_digit (rocks : list N) :
  Forall (fun rock => rock < 3)%N rocks ->
  forall i,
    ((encode_rocks rocks / 3 ^ N.of_nat i) mod 3)%N = nth i rocks 0%N.
Proof.
  induction 1 as [|rock rocks Hrock _ IH]; intros i.
  - cbn [encode_rocks fold_right]. rewrite N.Div0.div_0_l.
    now destruct i.
  - change (encode_rocks (rock :: rocks))
      with (rock + 3 * encode_rocks rocks)%N.
    destruct i as [|i].
    + cbn [N.of_nat nth]. rewrite N.pow_0_r, N.div_1_r.
      rewrite N.mul_comm, N.Div0.mod_add. now apply N.mod_small.
    + cbn [nth]. rewrite Nat2N.inj_succ, N.pow_succ_r', <- N.Div0.div_div.
      rewrite N.mul_comm, N.div_add by lia.
      rewrite (N.div_small rock 3) by exact Hrock. apply IH.
Qed.

Lemma encode_rocks_bound (rocks : list N) :
  Forall (fun rock => rock < 3)%N rocks ->
  (encode_rocks rocks < 3 ^ N.of_nat (length rocks))%N.
Proof.
  induction 1 as [|rock rocks Hrock _ IH].
  - cbn. lia.
  - change (encode_rocks (rock :: rocks))
      with (rock + 3 * encode_rocks rocks)%N.
    cbn [length]. rewrite Nat2N.inj_succ, N.pow_succ_r'. lia.
Qed.

(** Extra X8: [getRockState s i] is the base-3 digit [i] of [s / 25]: it
    is below 3, and on the state made of a position below 25 and of rock
    states below 3 it gives back the state of rock [i] (and 0 beyond the
    last rock), whatever the position and the other rocks. *)
Theorem getRockState_reads_digit (s : size_t) (i : nat) :
  getRockState s i = ((s / (25 * 3 ^ N.of_nat i)) mod 3)%N
  /\ (getRockState s i < 3)%N
  /\ (forall pos rocks,
        (pos < 25)%N ->
        Forall (fun rock => rock < 3)%N rocks ->
        getRockState (encode_state pos rocks) i = nth i rocks 0%N
        /\ (encode_state pos rocks mod 25 = pos)%N
        /\ (encode_state pos rocks < 25 * 3 ^ N.of_nat (length rocks))%N).
Proof.
  assert (Hdigit : forall s', getRockState s' i
                              = ((s' / (25 * 3 ^ N.of_nat i)) mod 3)%N).
  { intros s'. unfold getRockState. cbv zeta.
    now rewrite iter_div3, N.Div0.div_div. }
  split; [apply Hdigit|]. split.
  { rewrite Hdigit. apply N.mod_upper_bound. lia. }
  intros pos rocks Hpos Hrocks.
  pose proof (encode_rocks_bound rocks Hrocks) as Hbound.
  unfold encode_state. repeat split.
  - rewrite Hdigit, <- N.Div0.div_div.
    rewrite (N.mul_comm 25), N.div_add by lia.
    rewrite (N.div_small pos 25) by exact Hpos.
    apply (encode_rocks_digit rocks Hrocks).
  - rewrite (N.mul_comm 25), N.Div0.mod_add. now apply N.mod_small.
  - lia.
Qed.

(** Extra X9: when [std::pow(3, i)] is computed exactly and [i <= 37], so
    that the product [25 * 3^i] fits a [size_t] and does not wrap around,
    the [getRockState] of [testerf] and [testerplease], one division by
    [25 * 3^i], reads the same digit as the [getRockState] of
    [make9x9RockSampleProblemEXAMPLE], [i] divisions by 3. *)
Theorem getRockState_variants_agree (pow3 : nat -> size_t) (s : size_t) (i : nat) :
  pow3 i = (3 ^ N.of_nat i)%N ->
  i <= 37 ->
  getRockStateFast pow3 s i = getRockState s i.
Proof.
  intros Hpow Hi.
  assert (Hfits : (25 * 3 ^ N.of_nat i < 2 ^ 64)%N).
  { apply N.le_lt_trans with (25 * 3 ^ 37)%N;
      [|apply N.ltb_lt; vm_compute; reflexivity].
    apply N.mul_le_mono_l, N.pow_le_mono_r; lia. }
  unfold getRockStateFast, getRockState. cbv zeta.
  rewrite Hpow, (N.mod_small _ _ Hfits), iter_div3.
  now rewrite N.Div0.div_div.
Qed.

Lemma size_t_high_bits (s : size_t) (i : N) :
  (s < 2 ^ 64)%N -> (64 <= i)%N -> N.testbit s i = false.
Proof.
  intros Hs Hi. rewrite <- (N.mod_small s (2 ^ 64)) by exact Hs.
  now apply N.mod_pow2_bits_high.
Qed.

Lemma lor_ge_l (a b : N) : (a <= N.lor a b)%N.
Proof.
  assert (Hsplit : N.lor a b = (a + N.ldiff b a)%N).
  { rewrite N.add_nocarry_lxor, N.lxor_lor.
    - apply N.bits_inj. intros i.
      rewrite !N.lor_spec, N.ldiff_spec.
      now destruct (N.testbit a i), (N.testbit b i).
    - apply N.bits_inj. intros i.
      rewrite N.land_spec, N.ldiff_spec, N.bits_0.
      now destruct (N.testbit a i), (N.testbit b i).
    - apply N.bits_inj. intros i.
      rewrite N.land_spec, N.ldiff_spec, N.bits_0.
      now destruct (N.testbit a i), (N.testbit b i). }
  rewrite Hsplit. lia.
Qed.

(** What [setRockSampled] computes: the bitwise or of [s] and the mask. *)
Lemma setRockSampled_lor (pow3 : nat -> size_t) (s : size_t) (i : nat) :
  (s < 2 ^ 64)%N ->
  setRockSampled pow3 s i
  = N.lor s ((2 * pow3 i * 25) mod 2 ^ 64)%N.
Proof.
  intros Hs. unfold setRockSampled, size_not. cbv zeta.
  set (mask := ((2 * pow3 i * 25) mod 2 ^ 64)%N).
  apply N.bits_inj. intros b.
  rewrite !N.lor_spec, N.land_spec, N.lxor_spec.
  change SIZE_MAX with (N.ones 64).
  destruct (N.lt_ge_cases b 64) as [Hlow|Hhigh].
  - rewrite N.ones_spec_low by exact Hlow.
    now destruct (N.testbit s b), (N.testbit mask b).
  - rewrite N.ones_spec_high by exact Hhigh.
    rewrite (size_t_high_bits s b Hs Hhigh).
    now destruct (N.testbit mask b).
Qed.

(** Extra X10: [setRockSampled s i] is the bitwise or of [s] with the
    mask [2 * pow(3, i) * 25]: the complement and the and of the source
    change nothing. So it never lowers the state, it sets every bit of the
    mask, applying it twice is applying it once, and it returns [s] itself
    exactly when [s] already has every bit of the mask. *)
Theorem setRockSampled_is_bitwise_or (pow3 : nat -> size_t) (s : size_t) (i : nat) :
  (s < 2 ^ 64)%N ->
  let mask := ((2 * pow3 i * 25) mod 2 ^ 64)%N in
  setRockSampled pow3 s i = N.lor s mask
  /\ (s <= setRockSampled pow3 s i < 2 ^ 64)%N
  /\ N.land (setRockSampled pow3 s i) mask = mask
  /\ setRockSampled pow3 (setRockSampled pow3 s i) i = setRockSampled pow3 s i
  /\ (setRockSampled pow3 s i = s <-> N.land s mask = mask).
Proof.
  intros Hs. cbv zeta.
  set (mask := ((2 * pow3 i * 25) mod 2 ^ 64)%N).
  assert (Hmask : (mask < 2 ^ 64)%N) by (apply N.mod_upper_bound; lia).
  assert (Hlor : setRockSampled pow3 s i = N.lor s mask)
    by now apply setRockSampled_lor.
  assert (Hbound : (N.lor s mask < 2 ^ 64)%N).
  { destruct (N.eq_dec (N.lor s mask) 0) as [->|Hnz]; [lia|].
    apply N.log2_lt_pow2; [lia|].
    rewrite N.log2_lor.
    destruct (N.eq_dec s 0) as [->|Hs0], (N.eq_dec mask 0) as [Hm|Hm0];
      try rewrite Hm; cbn [N.log2]; try lia;
      try (apply N.max_lub_lt; apply N.log2_lt_pow2; lia);
      try (rewrite N.max_0_l; apply N.log2_lt_pow2; lia);
      try (rewrite N.max_0_r; apply N.log2_lt_pow2; lia). }
  split; [exact Hlor|]. rewrite Hlor. split; [split; [apply lor_ge_l|exact Hbound]|].
  split.
  { apply N.bits_inj. intros b. rewrite N.land_spec, N.lor_spec.
    now destruct (N.testbit s b), (N.testbit mask b). }
  split.
  { rewrite (setRockSampled_lor pow3 (N.lor s mask) i Hbound). fold mask.
    now rewrite <- N.lor_assoc, N.lor_diag. }
  split; intros Heq.
  - rewrite <- Heq at 1. apply N.bits_inj. intros b.
    rewrite N.land_spec, N.lor_spec.
    now destruct (N.testbit s b), (N.testbit mask b).
  - rewrite <- Heq. apply N.bits_inj. intros b.
    rewrite N.lor_spec, N.land_spec.
    now destruct (N.testbit s b), (N.testbit mask b).
Qed.

(** Extra X11: [setRockSampled] is not a write of the base-3 digit of the
    rock. With [std::pow] exact and the 2025 states of [testerf] and
    [testerplease] (25 positions, 4 rocks), it does not always leave the
    rock in state 2, it does not always keep the position, and it does
    not always return a state: state 100 with rock 0 gives 118, where
    rock 0 is still in state 1 and the position is 18 instead of 0, and
    state 680 with rock 3 gives 2030. *)
Theorem setRockSampled_is_not_a_digit_write :
  let S := (25 * 3 ^ 4)%N in
  let sampled s i := setRockSampled exact_pow3 s i in
  ~ (forall s i, (s < S)%N -> i < 4 ->
       getRockStateFast exact_pow3 s i <> 2%N ->
       getRockStateFast exact_pow3 (sampled s i) i = 2%N)
  /\ ~ (forall s i, (s < S)%N -> i < 4 ->
          getRockStateFast exact_pow3 s i <> 2%N ->
          (sampled s i mod 25 = s mod 25)%N)
  /\ ~ (forall s i, (s < S)%N -> i < 4 ->
          getRockStateFast exact_pow3 s i <> 2%N ->
          (sampled s i < S)%N).
Proof.
  cbv zeta. split; [|split]; intros Hall.
  - specialize (Hall 100%N 0). vm_compute in Hall.
    assert (Hfalse : 1%N = 2%N)
      by (apply Hall; [reflexivity|repeat constructor|discriminate]).
    discriminate.
  - specialize (Hall 100%N 0). vm_compute in Hall.
    assert (Hfalse : 18%N = 0%N)
      by (apply Hall; [reflexivity|repeat constructor|discriminate]).
    discriminate.
  - specialize (Hall 680%N 3). vm_compute in Hall.
    assert (Hfalse : Gt = Lt)
      by (apply Hall; [reflexivity|repeat constructor|discriminate]).
    discriminate.
Qed.

End RockStateProperties.

(** ** Tables written cell by cell *)

Section TableFacts.

Import Tiger RockSample.

Lemma update_length {X : Type} (i : nat) (f : X -> X) (l : list X) :
  length (update i f l) = length l.
Proof.
  revert i. induction l as [|x l IH]; intros [|i]; cbn [update length];
    try reflexivity. now rewrite IH.
Qed.

Lemma nth_update_eq {X : Type} (i : nat) (f : X -> X) (l : list X) (d : X) :
  i < length l -> nth i (update i f l) d = f (nth i l d).
Proof.
  revert i. induction l as [|x l IH]; intros [|i] Hi; cbn in *;
    try lia; try reflexivity. apply IH. lia.
Qed.

Lemma nth_update_neq {X : Type} (i j : nat) (f : X -> X) (l : list X) (d : X) :
  i <> j -> nth j (update i f l) d = nth j l d.
Proof.
  revert i j. induction l as [|x l IH]; intros [|i] [|j] Hij; cbn;
    try reflexivity; try lia. apply IH. lia.
Qed.

Lemma Forall_update {X : Type} (P : X -> Prop) (i : nat) (f : X -> X) (l : list X) :
  (forall x, P x -> P (f x)) -> Forall P l -> Forall P (update i f l).
Proof.
  intros Hf Hl. revert i.
  induction Hl as [|x l Hx Hl IH]; intros [|i]; cbn [update]; constructor;
    auto.
Qed.

Lemma rect_extents (d0 d1 d2 : nat) : rect d0 d1 d2 (extents d0 d1 d2).
Proof.
  unfold rect, extents. split; [apply repeat_length|].
  apply Forall_forall. intros mat Hmat. apply repeat_spec in Hmat as ->.
  split; [apply repeat_length|].
  apply Forall_forall. intros row Hrow. apply repeat_spec in Hrow as ->.
  apply repeat_length.
Qed.

Lemma rect_assign d0 d1 d2 i j k v t :
  rect d0 d1 d2 t -> rect d0 d1 d2 (assign i j k v t).
Proof.
  intros (Hlen & Hall). unfold assign. split; [now rewrite update_length|].
  apply Forall_update; [|exact Hall].
  intros mat (Hmat & Hrows). split; [now rewrite update_length|].
  apply Forall_update; [|exact Hrows].
  intros row Hrow. now rewrite update_length.
Qed.

Lemma rect_rows d0 d1 d2 t i j :
  rect d0 d1 d2 t -> i < d0 -> j < d1 ->
  length (nth i t []) = d1 /\ length (nth j (nth i t []) []) = d2.
Proof.
  intros (Hlen & Hall) Hi Hj.
  assert (Hmat : In (nth i t []) t) by (apply nth_In; lia).
  apply (proj1 (Forall_forall _ _) Hall) in Hmat as (Hd1 & Hrows).
  split; [exact Hd1|].
  assert (Hrow : In (nth j (nth i t []) []) (nth i t [])) by (apply nth_In; lia).
  exact (proj1 (Forall_forall _ _) Hrows _ Hrow).
Qed.

Lemma at3_assign d0 d1 d2 i j k v t i' j' k' :
  rect d0 d1 d2 t -> i < d0 -> j < d1 -> k < d2 ->
  at3 (assign i j k v t) i' j' k'
  = match point i j k v i' j' k' with
    | Some w => w
    | None => at3 t i' j' k'
    end.
Proof.
  intros Hrect Hi Hj Hk.
  destruct (rect_rows d0 d1 d2 t i j Hrect Hi Hj) as (Hd1 & Hd2).
  destruct Hrect as (Hlen & _).
  unfold point, at3, assign.
  destruct (Nat.eqb_spec i i') as [<-|Hii]; cbn [andb].
  - rewrite nth_update_eq by lia.
    destruct (Nat.eqb_spec j j') as [<-|Hjj]; cbn [andb].
    + rewrite nth_update_eq by lia.
      destruct (Nat.eqb_spec k k') as [<-|Hkk].
      * now rewrite nth_update_eq by lia.
      * now rewrite nth_update_neq by exact Hkk.
    + now rewrite nth_update_neq by exact Hjj.
  - now rewrite nth_update_neq by exact Hii.
Qed.

Lemma at3_extents d0 d1 d2 i j k : at3 (extents d0 d1 d2) i j k = 0%float.
Proof.
  unfold at3, extents.
  destruct (Nat.lt_ge_cases i d0) as [Hi|Hi].
  - rewrite (nth_indep _ [] (repeat (repeat 0%float d2) d1))
      by now rewrite repeat_length.
    rewrite nth_repeat.
    destruct (Nat.lt_ge_cases j d1) as [Hj|Hj].
    + rewrite (nth_indep _ [] (repeat 0%float d2)) by now rewrite repeat_length.
      rewrite nth_repeat. apply nth_repeat.
    + rewrite (nth_overflow (repeat (repeat 0%float d2) d1))
        by now rewrite repeat_length.
      now destruct k.
  - rewrite (nth_overflow (repeat _ d0)) by now rewrite repeat_length.
    destruct j, k; reflexivity.
Qed.

(** A row of a table, read cell by cell. *)
Lemma row_as_map d0 d1 d2 t i j :
  rect d0 d1 d2 t -> i < d0 -> j < d1 ->
  nth j (nth i t []) [] = map (at3 t i j) (seq 0 d2).
Proof.
  intros Hrect Hi Hj.
  destruct (rect_rows d0 d1 d2 t i j Hrect Hi Hj) as (_ & Hd2).
  apply (nth_ext _ _ 0%float 0%float).
  - now rewrite length_map, length_seq.
  - intros k Hk'. assert (Hk : k < d2) by (rewrite <- Hd2; exact Hk').
    rewrite (nth_indep (map _ _) 0%float (at3 t i j 0))
      by now rewrite length_map, length_seq.
    rewrite map_nth, seq_nth by exact Hk. reflexivity.
Qed.

Lemma wrote_refl d0 d1 d2 t : wrote d0 d1 d2 t t (fun _ _ _ => None).
Proof. intros Hrect. split; [exact Hrect|reflexivity]. Qed.

Lemma wrote_assign d0 d1 d2 t t1 E1 i j k v :
  wrote d0 d1 d2 t t1 E1 ->
  i < d0 -> j < d1 -> k < d2 ->
  wrote d0 d1 d2 t (assign i j k v t1)
    (fun i' j' k' => later (point i j k v i' j' k') (E1 i' j' k')).
Proof.
  intros H1 Hi Hj Hk Hrect. destruct (H1 Hrect) as (Hrect1 & Hat).
  split; [now apply rect_assign|].
  intros i' j' k'.
  rewrite (at3_assign d0 d1 d2 i j k v t1 i' j' k' Hrect1 Hi Hj Hk).
  destruct (point i j k v i' j' k'); cbn [later]; [reflexivity|apply Hat].
Qed.

Lemma wrote_if d0 d1 d2 t (c : bool) t1 t2 E1 E2 :
  (c = true -> wrote d0 d1 d2 t t1 E1) ->
  (c = false -> wrote d0 d1 d2 t t2 E2) ->
  wrote d0 d1 d2 t (if c then t1 else t2)
    (fun i j k => if c then E1 i j k else E2 i j k).
Proof. destruct c; intros H1 H2; [now apply H1|now apply H2]. Qed.

(** The writes of a loop: those of its iterations, the later ones over the
    earlier ones, over what was written before the loop. *)
Lemma wrote_fold d0 d1 d2 (body : nat -> DumbMatrix3D -> DumbMatrix3D)
    (E : nat -> Writes) (l : list nat) :
  (forall n t', In n l -> wrote d0 d1 d2 t' (body n t') (E n)) ->
  forall t t1 E1,
    wrote d0 d1 d2 t t1 E1 ->
    wrote d0 d1 d2 t (fold_left (fun acc n => body n acc) l t1)
      (fun i j k =>
         fold_left (fun acc n => later (E n i j k) acc) l (E1 i j k)).
Proof.
  induction l as [|n l IH]; intros Hbody t t1 E1 H1; [exact H1|].
  cbn [fold_left].
  apply (IH (fun n' t' Hn' => Hbody n' t' (or_intror Hn')) t (body n t1)
            (fun i j k => later (E n i j k) (E1 i j k))).
  intros Hrect. destruct (H1 Hrect) as (Hrect1 & Hat1).
  destruct (Hbody n t1 (or_introl eq_refl) Hrect1) as (Hrect2 & Hat2).
  split; [exact Hrect2|].
  intros i j k. rewrite Hat2.
  destruct (E n i j k); cbn [later]; [reflexivity|apply Hat1].
Qed.

Lemma wrote_for_range d0 d1 d2 body E first count t t1 E1 :
  wrote d0 d1 d2 t t1 E1 ->
  (forall n t', first <= n < first + count ->
                wrote d0 d1 d2 t' (body n t') (E n)) ->
  wrote d0 d1 d2 t (for_range first count body t1)
    (fun i j k =>
       fold_left (fun acc n => later (E n i j k) acc) (seq first count)
         (E1 i j k)).
Proof.
  intros H1 Hbody. unfold for_range. apply wrote_fold; [|exact H1].
  intros n t' Hn. apply Hbody. apply in_seq in Hn. lia.
Qed.

Lemma wrote_for_each d0 d1 d2 body E count t t1 E1 :
  wrote d0 d1 d2 t t1 E1 ->
  (forall n t', n < count -> wrote d0 d1 d2 t' (body n t') (E n)) ->
  wrote d0 d1 d2 t (for_each count body t1)
    (fun i j k =>
       fold_left (fun acc n => later (E n i j k) acc) (seq 0 count)
         (E1 i j k)).
Proof.
  intros H1 Hbody. unfold for_each. apply wrote_fold; [|exact H1].
  intros n t' Hn. apply Hbody. apply in_seq in Hn. lia.
Qed.

(** A loop in which only iteration [key] writes the cell. *)
Lemma fold_later_owner (F : nat -> option double) (key first count : nat)
    (init : option double) :
  (forall n, n <> key -> F n = None) ->
  fold_left (fun acc n => later (F n) acc) (seq first count) init
  = if (first <=? key) && (key <? first + count) then later (F key) init
    else init.
Proof.
  intros Hother. revert first init.
  induction count as [|count IH]; intros first init.
  - cbn [seq fold_left]. rewrite Nat.add_0_r.
    destruct (first <=? key) eqn:H1, (key <? first) eqn:H2; cbn [andb];
      try reflexivity.
    apply Nat.leb_le in H1. apply Nat.ltb_lt in H2. lia.
  - cbn [seq fold_left]. rewrite IH.
    destruct (Nat.eq_dec first key) as [->|Hne].
    + replace (S key <=? key) with false by (symmetry; apply Nat.leb_gt; lia).
      replace (key <=? key) with true by (symmetry; apply Nat.leb_le; lia).
      replace (key <? key + S count) with true
        by (symmetry; apply Nat.ltb_lt; lia).
      reflexivity.
    + rewrite (Hother first Hne). cbn [later].
      replace (first + S count) with (S first + count) by lia.
      destruct (S first <=? key) eqn:H1, (first <=? key) eqn:H2;
        cbn [andb]; try reflexivity.
      * apply Nat.leb_le in H1. apply Nat.leb_gt in H2. lia.
      * apply Nat.leb_gt in H1. apply Nat.leb_le in H2. lia.
Qed.

End TableFacts.

(** ** The rock-sample tables *)

Section RockSampleProperties.

Import Tiger RockSample.

Lemma wrote_let d0 d1 d2 t (X : DumbMatrix3D)
    (body : DumbMatrix3D -> DumbMatrix3D) E1 E2 :
  wrote d0 d1 d2 t X E1 ->
  (forall t1, wrote d0 d1 d2 t1 (body t1) E2) ->
  wrote d0 d1 d2 t (body X) (fun i j k => later (E2 i j k) (E1 i j k)).
Proof.
  intros H1 H2 Hrect. destruct (H1 Hrect) as (Hrect1 & Hat1).
  destruct (H2 X Hrect1) as (Hrect2 & Hat2).
  split; [exact Hrect2|]. intros i j k. rewrite Hat2.
  destruct (E2 i j k); cbn [later]; [reflexivity|apply Hat1].
Qed.

Lemma if_same {X : Type} (c : bool) (x : X) : (if c then x else x) = x.
Proof. now destruct c. Qed.

Lemma fold_left_keep {X Y : Type} (l : list Y) (init : X) :
  fold_left (fun acc _ => acc) l init = init.
Proof. induction l as [|y l IH]; [reflexivity|exact IH]. Qed.

(** *** [std::fill_n] on a table *)

Lemma wrote_ext d0 d1 d2 t t' (E E' : Writes) :
  (forall i j k, E i j k = E' i j k) ->
  wrote d0 d1 d2 t t' E -> wrote d0 d1 d2 t t' E'.
Proof.
  intros Hext H Hrect. destruct (H Hrect) as (Hrect' & Hat).
  split; [exact Hrect'|]. intros i j k. now rewrite <- Hext.
Qed.

Lemma fold_later_none_in (F : nat -> option double) (l : list nat)
    (init : option double) :
  (forall n, In n l -> F n = None) ->
  fold_left (fun acc n => later (F n) acc) l init = init.
Proof.
  induction l as [|n l IH] in init |- *; intros Hnone; [reflexivity|].
  cbn [fold_left]. rewrite (Hnone n (or_introl eq_refl)). cbn [later].
  apply IH. intros n' Hn'. apply Hnone. now right.
Qed.

Lemma fold_later_some_in (F : nat -> option double) (l : list nat)
    (init : option double) (v : double) :
  (forall n, In n l -> F n = Some v \/ F n = None) ->
  (exists n, In n l /\ F n = Some v) ->
  fold_left (fun acc n => later (F n) acc) l init = Some v.
Proof.
  induction l as [|n l IH] in init |- *; intros Hall (n' & Hin & Hn');
    [destruct Hin|].
  cbn [fold_left].
  assert (Htail : forall n0, In n0 l -> F n0 = Some v \/ F n0 = None)
    by (intros n0 Hn0; apply Hall; now right).
  destruct Hin as [<-|Hin].
  - rewrite Hn'. cbn [later]. clear IH Hall Hn'.
    induction l as [|n0 l IH]; [reflexivity|].
    cbn [fold_left].
    destruct (Htail n0 (or_introl eq_refl)) as [-> | ->]; cbn [later];
      apply IH; intros n1 Hn1; apply Htail; now right.
  - apply IH; [exact Htail|]. exists n'. now split.
Qed.

(** The cell at offset [f] after [(s, a, 0)], in row-major order. *)
Lemma row_major d1 d2 s a f :
  0 < d2 -> a + f / d2 < d1 ->
  let flat := (s * d1 + a) * d2 + 0 + f in
  flat / (d1 * d2) = s
  /\ (flat / d2) mod d1 = a + f / d2
  /\ flat mod d2 = f mod d2.
Proof.
  intros Hd2 Hrow. cbv zeta.
  pose proof (Nat.div_mod_eq f d2) as Hf.
  pose proof (Nat.mod_upper_bound f d2 ltac:(lia)) as Hr.
  set (q := f / d2) in *. set (r := f mod d2) in *.
  assert (Hdiv : ((s * d1 + a) * d2 + 0 + f) / d2 = s * d1 + (a + q)).
  { symmetry. apply (Nat.div_unique _ _ _ r); [exact Hr|]. nia. }
  assert (Hmod : ((s * d1 + a) * d2 + 0 + f) mod d2 = r).
  { symmetry. apply (Nat.mod_unique _ _ (s * d1 + (a + q))); [exact Hr|]. nia. }
  split; [|split; [|exact Hmod]].
  - symmetry. apply (Nat.div_unique _ _ _ ((a + q) * d2 + r)); nia.
  - rewrite Hdiv. symmetry.
    apply (Nat.mod_unique _ _ s); [exact Hrow|]. lia.
Qed.

Lemma wrote_fill_n d0 d1 d2 t t1 E1 s a c n v :
  wrote d0 d1 d2 t t1 E1 ->
  s < d0 -> a + c <= d1 -> n = c * d2 ->
  wrote d0 d1 d2 t (Rock9x9.fill_n d1 d2 s a 0 n v t1)
    (fun i j k =>
       later (if (s =? i) && (a <=? j) && (j <? a + c) && (k <? d2)
              then Some v else None)
             (E1 i j k)).
Proof.
  intros H1 Hs Hc ->.
  assert (Hcell : forall f, f < c * d2 ->
            0 < d2 /\ f / d2 < c /\ f mod d2 < d2).
  { intros f Hf. assert (Hd2 : 0 < d2) by nia.
    split; [exact Hd2|]. split.
    - apply Nat.Div0.div_lt_upper_bound. lia.
    - apply Nat.mod_upper_bound. lia. }
  eapply wrote_ext; [|eapply (wrote_let d0 d1 d2 t t1
                                (Rock9x9.fill_n d1 d2 s a 0 (c * d2) v));
                      [exact H1|]].
  2: { intros t2. unfold Rock9x9.fill_n.
       eapply wrote_for_each; [apply wrote_refl|].
       intros f t' Hf. cbv zeta.
       destruct (Hcell f Hf) as (Hd2 & Hq & Hr).
       destruct (row_major d1 d2 s a f Hd2 ltac:(lia)) as (-> & -> & ->).
       eapply wrote_assign; [apply wrote_refl|lia|lia|lia]. }
  intros i j k. cbv beta. f_equal.
  destruct ((s =? i) && (a <=? j) && (j <? a + c) && (k <? d2)) eqn:Hcond.
  - apply andb_prop in Hcond. destruct Hcond as (Hcond & Hk).
    apply andb_prop in Hcond. destruct Hcond as (Hcond & Hj2).
    apply andb_prop in Hcond. destruct Hcond as (Hi & Hj1).
    apply Nat.eqb_eq in Hi. apply Nat.leb_le in Hj1.
    apply Nat.ltb_lt in Hj2. apply Nat.ltb_lt in Hk. subst i.
    assert (Hkey : (j - a) * d2 + k < c * d2) by nia.
    apply fold_later_some_in.
    + intros f _. cbv zeta. unfold point.
      destruct (_ && _); [now left|now right].
    + exists ((j - a) * d2 + k).
      split; [apply in_seq; split; [apply Nat.le_0_l|exact Hkey]|].
      cbv zeta.
      assert (Hq : ((j - a) * d2 + k) / d2 = j - a)
        by (symmetry; apply (Nat.div_unique _ _ _ k); lia).
      assert (Hr : ((j - a) * d2 + k) mod d2 = k)
        by (symmetry; apply (Nat.mod_unique _ _ (j - a)); lia).
      rewrite Hq, Hr. unfold point.
      replace (a + (j - a)) with j by lia.
      now rewrite !Nat.eqb_refl.
  - apply fold_later_none_in. intros f Hf. apply in_seq in Hf.
    cbv zeta.
    destruct (Hcell f ltac:(lia)) as (Hd2 & Hq & Hr).
    unfold point.
    destruct (Nat.eqb_spec s i) as [->|Hi]; [|reflexivity].
    destruct (Nat.eqb_spec (a + f / d2) j) as [<-|Hj];
      [|reflexivity].
    destruct (Nat.eqb_spec (f mod d2) k) as [<-|Hk]; [|reflexivity].
    exfalso. rewrite ?Nat.eqb_refl in Hcond. cbn [andb] in Hcond.
    apply andb_false_iff in Hcond. destruct Hcond as [Hcond|Hcond].
    + apply andb_false_iff in Hcond. destruct Hcond as [Hcond|Hcond].
      * apply Nat.leb_gt in Hcond. lia.
      * apply Nat.ltb_ge in Hcond. lia.
    + apply Nat.ltb_ge in Hcond. lia.
Qed.

Lemma wrote_fill_slab d0 d1 d2 t t1 E1 s v :
  wrote d0 d1 d2 t t1 E1 ->
  s < d0 ->
  wrote d0 d1 d2 t (Rock9x9.fill_n d1 d2 s 0 0 (d1 * d2) v t1)
    (fun i j k =>
       later (if (s =? i) && (0 <=? j) && (j <? 0 + d1) && (k <? d2)
              then Some v else None)
             (E1 i j k)).
Proof.
  intros H1 Hs. apply (wrote_fill_n d0 d1 d2 t t1 E1 s 0 d1);
    [exact H1|exact Hs|lia|reflexivity].
Qed.

Lemma wrote_fill_row d0 d1 d2 t t1 E1 s a v :
  wrote d0 d1 d2 t t1 E1 ->
  s < d0 -> a < d1 ->
  wrote d0 d1 d2 t (Rock9x9.fill_n d1 d2 s a 0 d2 v t1)
    (fun i j k =>
       later (if (s =? i) && (a <=? j) && (j <? a + 1) && (k <? d2)
              then Some v else None)
             (E1 i j k)).
Proof.
  intros H1 Hs Ha. apply (wrote_fill_n d0 d1 d2 t t1 E1 s a 1);
    [exact H1|exact Hs|lia|lia].
Qed.

(** The writes of a piece of code, read off its text. *)
Ltac derive side :=
  cbv beta;
  lazymatch goal with
  | |- wrote _ _ _ ?t ?t _ => apply wrote_refl
  | |- wrote ?a ?b ?c ?t (let x := ?v in @?body x) ?E =>
      lazymatch type of v with
      | nat => change (wrote a b c t (body v) E); derive side
      | bool => change (wrote a b c t (body v) E); derive side
      | _ => eapply (wrote_let a b c t v body); [derive side | intro; derive side]
      end
  | |- wrote _ _ _ _ (assign _ _ _ _ _) _ =>
      eapply wrote_assign; [derive side | side | side | side]
  | |- wrote _ _ _ _ (if _ then _ else _) _ =>
      eapply wrote_if; [intro; derive side | intro; derive side]
  | |- wrote _ _ _ _ (for_range _ _ _ _) _ =>
      eapply wrote_for_range; [derive side | intros ? ? ?; derive side]
  | |- wrote _ _ _ _ (for_each _ _ _) _ =>
      eapply wrote_for_each; [derive side | intros ? ? ?; derive side]
  | |- wrote _ _ _ _ (Rock9x9.fill_n _ _ _ _ _ (_ * _) _ _) _ =>
      eapply wrote_fill_slab; [derive side | side]
  | |- wrote _ _ _ _ (Rock9x9.fill_n _ _ _ _ _ _ _ _) _ =>
      eapply wrote_fill_row; [derive side | side | side]
  | |- wrote _ _ _ _ _ _ => apply wrote_refl
  end.

Ltac constants :=
  unfold Rock11.A, Rock11.O, Rock11.NUM_ROCKS, Rock7.A, Rock7.O,
    Rock9x9.A, Rock9x9.O,
    A_NORTH, A_SOUTH, A_EAST, A_WEST, A_SAMPLE, A_CHECK1, A_CHECK8,
    O_GOOD, O_BAD, O_NONE in *;
  cbn [Nat.add Nat.sub] in *.

Ltac in_range := first [assumption | solve [auto] | (constants; lia)].

Lemma fold_later_none (F : nat -> option double) (l : list nat)
    (init : option double) :
  (forall n, F n = None) ->
  fold_left (fun acc n => later (F n) acc) l init = init.
Proof.
  intros Hnone. induction l as [|n l IH] in init |- *; [reflexivity|].
  cbn [fold_left]. rewrite Hnone. apply IH.
Qed.

(** Code that writes no cell at the index looked up. *)
Ltac nothing :=
  cbv beta; cbn [andb later];
  repeat (first [rewrite if_same
                |rewrite fold_left_keep
                |rewrite fold_later_none by (intro; nothing)];
          cbn [andb later]);
  reflexivity.

(** A loop over an index writes the cell [key] in one iteration only. *)
Ltac owner key count :=
  repeat match goal with
         | |- context [fold_left (fun acc n => later (@?F n) acc)
                         (seq 0 count) ?init] =>
             rewrite (fold_later_owner F key 0 count init)
               by (let n := fresh "n" in
                   let Hn := fresh "Hn" in
                   intros n Hn; unfold point;
                   destruct (Nat.eqb_spec n key); [contradiction|];
                   rewrite ?andb_false_r; nothing)
         end;
  cbv beta.

(** Case analysis on the tests a table of writes is made of. *)
Ltac tests :=
  repeat match goal with
         | |- context [Nat.eqb ?x ?y] => destruct (Nat.eqb_spec x y)
         | |- context [if ?c then _ else _] => destruct c eqn:?
         end;
  cbn [later]; try reflexivity; try lia.

(** *** Sums of rows with one or two cells that are not zero *)

Lemma sum_zero (f : nat -> float) (l : list nat) (acc : float) :
  (forall k, In k l -> f k = 0%float) ->
  (acc + 0 = acc)%float ->
  fold_left PrimFloat.add (map f l) acc = acc.
Proof.
  intros Hzero Hacc. induction l as [|k l IH]; [reflexivity|].
  cbn [map fold_left]. rewrite (Hzero k (or_introl eq_refl)), Hacc.
  apply IH. intros k' Hk'. apply Hzero. now right.
Qed.

Lemma sum_one (f : nat -> float) (n i : nat) (acc p : float) first :
  first <= i < n ->
  f i = p ->
  (forall k, first <= k < n -> k <> i -> f k = 0%float) ->
  (acc + 0 = acc)%float ->
  (acc + p + 0 = acc + p)%float ->
  fold_left PrimFloat.add (map f (seq first (n - first))) acc = (acc + p)%float.
Proof.
  intros Hi Hp Hzero Hacc Hsum.
  replace (n - first) with ((i - first) + S (n - i - 1)) by lia.
  rewrite seq_app, map_app, fold_left_app.
  rewrite (sum_zero f (seq first (i - first)));
    [|intros k Hk; apply in_seq in Hk; apply Hzero; lia|exact Hacc].
  replace (first + (i - first)) with i by lia.
  cbn [seq map fold_left]. rewrite Hp.
  apply sum_zero; [|exact Hsum].
  intros k Hk. apply in_seq in Hk. apply Hzero; lia.
Qed.

Lemma sum_two (f : nat -> float) (n i j : nat) (p q : float) :
  i < j < n ->
  f i = p -> f j = q ->
  (forall k, k < n -> k <> i -> k <> j -> f k = 0%float) ->
  (0 + p + 0 = 0 + p)%float ->
  (0 + p + q + 0 = 0 + p + q)%float ->
  fold_left PrimFloat.add (map f (seq 0 n)) 0%float = (0 + p + q)%float.
Proof.
  intros Hij Hp Hq Hzero H1 H2.
  replace n with (j + (n - j)) at 1 by lia.
  rewrite seq_app, map_app, fold_left_app.
  pose proof (sum_one f j i 0%float p 0) as Hfirst.
  rewrite Nat.sub_0_r in Hfirst.
  rewrite Hfirst; try reflexivity; try lia;
    [|exact Hp|intros k Hk Hki; apply Hzero; lia|exact H1].
  cbn [Nat.add].
  apply (sum_one f n j (0 + p)%float q j); try lia;
    [exact Hq|intros k Hk Hkj; apply Hzero; lia|exact H1|exact H2].
Qed.

Lemma sum_single (f : nat -> float) (n i : nat) (p : float) :
  i < n ->
  f i = p ->
  (forall k, k < n -> k <> i -> f k = 0%float) ->
  (0 + p + 0 = 0 + p)%float ->
  fold_left PrimFloat.add (map f (seq 0 n)) 0%float = (0 + p)%float.
Proof.
  intros Hi Hp Hzero H1.
  pose proof (sum_one f n i 0%float p 0) as Hfirst.
  rewrite Nat.sub_0_r in Hfirst.
  apply Hfirst; try lia;
    [exact Hp|intros k Hk Hki; apply Hzero; lia|reflexivity|exact H1].
Qed.

(** *** The 11 by 11 problem *)

Lemma S11 : Rock11.S = 121 * 256.
Proof. reflexivity. Qed.

Lemma grid11 s :
  s < Rock11.S ->
  let pos := s mod (Rock11.GRID_SIZE * Rock11.GRID_SIZE) in
  let x := pos mod Rock11.GRID_SIZE in
  let y := pos / Rock11.GRID_SIZE in
  ((y <? Rock11.GRID_SIZE - 1) = true -> s + Rock11.GRID_SIZE < Rock11.S)
  /\ ((0 <? y) = true -> Rock11.GRID_SIZE <= s)
  /\ ((x <? Rock11.GRID_SIZE - 1) = true -> s + 1 < Rock11.S)
  /\ ((0 <? x) = true -> 1 <= s).
Proof.
  intros Hs. cbv zeta. rewrite S11 in *.
  change Rock11.GRID_SIZE with 11. change (11 * 11) with 121.
  pose proof (Nat.div_mod_eq s 121) as H1.
  pose proof (Nat.mod_upper_bound s 121 ltac:(lia)) as H2.
  pose proof (Nat.div_mod_eq (s mod 121) 11) as H3.
  pose proof (Nat.mod_upper_bound (s mod 121) 11 ltac:(lia)) as H4.
  assert (H5 : s / 121 < 256) by (apply Nat.Div0.div_lt_upper_bound; lia).
  repeat split; intros Hc;
    first [apply Nat.ltb_lt in Hc | idtac]; lia.
Qed.

Lemma owner_in_range (s n : nat) :
  s < n -> (0 <=? s) && (s <? 0 + n) = true.
Proof.
  intros Hs. apply andb_true_intro. split;
    [apply Nat.leb_le; lia | apply Nat.ltb_lt; lia].
Qed.

(** What [transitions] holds in each cell: [neighbour] is the cell a
    move reaches, and the text of the loop is the rest. *)
Lemma rock11_transitions_written :
  rect Rock11.S Rock11.A Rock11.S Rock11.transitions
  /\ forall s a s1,
       s < Rock11.S -> a < Rock11.A -> s1 < Rock11.S ->
       at3 Rock11.transitions s a s1
       = if a <? A_SAMPLE then
           if s1 =? s then (1 - 0.9)%float
           else match neighbour Rock11.GRID_SIZE s a with
                | Some s' => if s1 =? s' then 0.9%float else 0%float
                | None => 0%float
                end
         else if s1 =? s then 1%float else 0%float.
Proof.
  eassert (H : wrote Rock11.S Rock11.A Rock11.S _ Rock11.transitions _).
  { unfold Rock11.transitions.
    eapply wrote_for_each; [apply wrote_refl|].
    intros n t' Hn. cbv beta delta [Rock11.transitions_of].
    destruct (grid11 n Hn) as (Hnorth & Hsouth & Heast & Hwest).
    derive in_range. }
  destruct (H (rect_extents _ _ _)) as (Hrect & Hat). clear H.
  split; [exact Hrect|].
  intros s a s1 Hs Ha Hs1.
  rewrite Hat, at3_extents. clear Hat Hrect.
  cbv beta.
  rewrite (fold_later_owner _ s).
  2: { intros n Hn. unfold point.
       rewrite (proj2 (Nat.eqb_neq n s) Hn). cbn [andb later].
       rewrite !if_same. cbn [later].
       unfold A_CHECK1, A_CHECK8. cbn [Nat.add Nat.sub seq fold_left later].
       reflexivity. }
  rewrite (owner_in_range s Rock11.S Hs).
  unfold point, neighbour, Rock11.MOVE_PROB. rewrite !Nat.eqb_refl.
  unfold A_CHECK1, A_CHECK8, A_NORTH, A_SOUTH, A_EAST, A_WEST, A_SAMPLE.
  cbn [Nat.add Nat.sub seq fold_left].
  unfold Rock11.A in Ha.
  do 13 (destruct a as [|a];
         [cbn [Nat.eqb Nat.ltb Nat.leb andb later];
          rewrite ?if_same; cbn [later]; tests|]).
  lia.
Qed.

Lemma row_sum_cells d0 d1 d2 t i j (f : nat -> float) :
  rect d0 d1 d2 t -> i < d0 -> j < d1 ->
  (forall k, k < d2 -> at3 t i j k = f k) ->
  row_sum t i j = fold_left PrimFloat.add (map f (seq 0 d2)) 0%float
  /\ row_nonneg t i j = forallb (fun k => PrimFloat.leb 0%float (f k)) (seq 0 d2).
Proof.
  intros Hrect Hi Hj Hcells. unfold row_sum, row_nonneg.
  rewrite (row_as_map d0 d1 d2 t i j Hrect Hi Hj).
  assert (Hmap : map (at3 t i j) (seq 0 d2) = map f (seq 0 d2)).
  { apply map_ext_in. intros k Hk. apply in_seq in Hk. apply Hcells. lia. }
  rewrite Hmap. split; [reflexivity|].
  clear. induction (seq 0 d2) as [|k l IH]; [reflexivity|].
  cbn [map forallb]. now rewrite IH.
Qed.

Lemma forallb_seq (g : nat -> bool) (n : nat) :
  (forall k, k < n -> g k = true) -> forallb g (seq 0 n) = true.
Proof.
  intros Hg. apply forallb_forall. intros k Hk. apply in_seq in Hk.
  apply Hg. lia.
Qed.

Lemma not_one (x : float) : PrimFloat.ltb x 1%float = true -> x <> 1%float.
Proof. intros Hlt ->. vm_compute in Hlt. discriminate. Qed.

Lemma neighbour11_in_range s a s' :
  s < Rock11.S -> neighbour Rock11.GRID_SIZE s a = Some s' ->
  s' < Rock11.S /\ s' <> s /\ a < A_SAMPLE.
Proof.
  intros Hs. destruct (grid11 s Hs) as (Hnorth & Hsouth & Heast & Hwest).
  unfold neighbour. cbv zeta in *.
  unfold Rock11.GRID_SIZE, A_NORTH, A_SOUTH, A_EAST, A_WEST, A_SAMPLE in *.
  repeat match goal with
         | |- context [Nat.eqb a ?y] => destruct (Nat.eqb_spec a y)
         | |- context [if ?c then _ else _] => destruct c eqn:?
         end;
    intros [= <-]; try discriminate;
    repeat match goal with
           | H : true = true -> _ |- _ => specialize (H eq_refl)
           end; lia.
Qed.

(** Extra X12: in the transition table of [makeRockSampleProblem] a move
    stays in place with probability [1 - MOVE_PROB] and reaches the next
    cell in its direction with [MOVE_PROB]; a move into the wall of the
    board writes the [1 - MOVE_PROB] only.  Sampling and checking keep
    the state. *)
Theorem rock11_transition_cells s a s1 :
  s < Rock11.S -> a < Rock11.A -> s1 < Rock11.S ->
  at3 (Tiger.transitions Rock11.makeRockSampleProblem) s a s1
  = if a <? A_SAMPLE then
      if s1 =? s then (1 - 0.9)%float
      else match neighbour Rock11.GRID_SIZE s a with
           | Some s' => if s1 =? s' then 0.9%float else 0%float
           | None => 0%float
           end
    else if s1 =? s then 1%float else 0%float.
Proof. apply (proj2 rock11_transitions_written). Qed.

(** Extra X13: a row of that table is a probability distribution exactly
    when it is not the row of a move into the wall; the row of such a
    move sums to [1 - MOVE_PROB]. *)
Theorem rock11_blocked_moves_lose_mass s a :
  s < Rock11.S -> a < Rock11.A ->
  (is_distribution Rock11.transitions s a
   <-> (a < A_SAMPLE -> neighbour Rock11.GRID_SIZE s a <> None))
  /\ (a < A_SAMPLE -> neighbour Rock11.GRID_SIZE s a = None ->
      row_sum Rock11.transitions s a = (1 - 0.9)%float).
Proof.
  intros Hs Ha.
  destruct rock11_transitions_written as (Hrect & Hcells).
  destruct (row_sum_cells _ _ _ _ s a _ Hrect Hs Ha
              (fun k Hk => Hcells s a k Hs Ha Hk)) as (Hsum & Hnonneg).
  unfold is_distribution. rewrite Hsum, Hnonneg. clear Hsum Hnonneg Hcells Hrect.
  match goal with
  | |- context [forallb ?g ?l] => assert (Hpos : forallb g l = true)
  end.
  { apply forallb_seq. intros k _.
    repeat match goal with
           | |- context [if ?c then _ else _] => destruct c
           | |- context [match ?c with Some _ => _ | None => _ end] => destruct c
           end; reflexivity. }
  rewrite Hpos. clear Hpos.
  destruct (a <? A_SAMPLE) eqn:Hmove.
  - apply Nat.ltb_lt in Hmove.
    destruct (neighbour Rock11.GRID_SIZE s a) as [s'|] eqn:Hnext; cbv beta iota.
    + destruct (neighbour11_in_range s a s' Hs Hnext) as (Hs' & Hne & _).
      match goal with
      | |- context [fold_left PrimFloat.add ?l ?z] =>
          assert (Hrow : fold_left PrimFloat.add l z = 1%float)
      end.
      { destruct (Nat.lt_ge_cases s s') as [Hlt|Hge].
        - transitivity (0 + (1 - 0.9) + 0.9)%float; [|reflexivity].
          apply (sum_two _ Rock11.S s s'); try reflexivity; try lia.
          + rewrite Nat.eqb_refl. reflexivity.
          + rewrite Nat.eqb_refl, (proj2 (Nat.eqb_neq s' s) Hne). reflexivity.
          + intros k _ Hk1 Hk2.
            now rewrite (proj2 (Nat.eqb_neq k s) Hk1),
                        (proj2 (Nat.eqb_neq k s') Hk2).
        - transitivity (0 + 0.9 + (1 - 0.9))%float; [|reflexivity].
          apply (sum_two _ Rock11.S s' s); try reflexivity; try lia.
          + rewrite Nat.eqb_refl, (proj2 (Nat.eqb_neq s' s) Hne). reflexivity.
          + rewrite Nat.eqb_refl. reflexivity.
          + intros k _ Hk1 Hk2.
            now rewrite (proj2 (Nat.eqb_neq k s) Hk2),
                        (proj2 (Nat.eqb_neq k s') Hk1). }
      rewrite Hrow. split; [|discriminate].
      split; [intros _ _; discriminate|intros _; split; reflexivity].
    + match goal with
      | |- context [fold_left PrimFloat.add ?l ?z] =>
          assert (Hrow : fold_left PrimFloat.add l z = (1 - 0.9)%float)
      end.
      { transitivity (0 + (1 - 0.9))%float; [|reflexivity].
        apply (sum_single _ Rock11.S s); try reflexivity; try lia.
        - rewrite Nat.eqb_refl. reflexivity.
        - intros k _ Hk. now rewrite (proj2 (Nat.eqb_neq k s) Hk). }
      rewrite Hrow. split; [|intros _ _; reflexivity].
      split.
      * intros (_ & Hone). exfalso. revert Hone. now apply not_one.
      * intros Hfree. now destruct (Hfree Hmove).
  - apply Nat.ltb_ge in Hmove.
    match goal with
    | |- context [fold_left PrimFloat.add ?l ?z] =>
        assert (Hrow : fold_left PrimFloat.add l z = 1%float)
    end.
    { transitivity (0 + 1)%float; [|reflexivity].
      apply (sum_single _ Rock11.S s); try reflexivity; try lia.
      - rewrite Nat.eqb_refl. reflexivity.
      - intros k _ Hk. now rewrite (proj2 (Nat.eqb_neq k s) Hk). }
    rewrite Hrow. split; [|lia]. split; [lia|intros _; split; reflexivity].
Qed.

Lemma isGood_testbit (rocks r : nat) : isGood rocks r = Nat.testbit rocks r.
Proof.
  unfold isGood. rewrite Nat.shiftl_1_l.
  destruct (Nat.testbit rocks r) eqn:Hbit.
  - apply negb_true_iff, Nat.eqb_neq. intros Hzero.
    assert (Hr : Nat.testbit (Nat.land rocks (2 ^ r)) r = true)
      by (rewrite Nat.land_spec, Hbit, Nat.pow2_bits_true; reflexivity).
    rewrite Hzero, Nat.bits_0 in Hr. discriminate.
  - apply negb_false_iff, Nat.eqb_eq. apply Nat.bits_inj. intros i.
    rewrite Nat.land_spec, Nat.bits_0, Nat.pow2_bits_eqb.
    destruct (Nat.eqb_spec r i) as [<-|_];
      [rewrite Hbit; reflexivity|apply andb_false_r].
Qed.

Lemma rock11_observations_written :
  rect Rock11.S Rock11.A Rock11.O Rock11.observations
  /\ forall s a o,
       s < Rock11.S -> a < Rock11.A -> o < Rock11.O ->
       at3 Rock11.observations s a o
       = if a <=? A_SAMPLE then (if o =? O_NONE then 1%float else 0%float)
         else if Nat.testbit (s / (Rock11.GRID_SIZE * Rock11.GRID_SIZE))
                   (a - A_CHECK1)
              then (if o =? O_GOOD then 0.95%float
                    else if o =? O_BAD then (1 - 0.95)%float else 0%float)
              else (if o =? O_BAD then 0.95%float
                    else if o =? O_GOOD then (1 - 0.95)%float else 0%float).
Proof.
  eassert (H : wrote Rock11.S Rock11.A Rock11.O _ Rock11.observations _).
  { cbv beta zeta delta [Rock11.observations Rock11.check_of].
    derive in_range. }
  destruct (H (rect_extents _ _ _)) as (Hrect & Hat). clear H.
  split; [exact Hrect|].
  intros s a o Hs Ha Ho.
  rewrite Hat, at3_extents. clear Hat Hrect.
  cbv beta.
  owner s Rock11.S.
  rewrite (owner_in_range s Rock11.S Hs).
  rewrite <- !isGood_testbit.
  unfold point, Rock11.CHECK_CORRECT_PROB. rewrite !Nat.eqb_refl.
  constants. unfold Rock11.GRID_SIZE.
  cbn [Nat.add Nat.sub seq fold_left andb].
  do 13 (destruct a as [|a];
         [do 3 (destruct o as [|o];
                [cbn [Nat.eqb Nat.ltb Nat.leb Nat.sub andb later];
                 rewrite ?if_same; cbn [later]; tests|]); lia|]).
  lia.
Qed.

(** Extra X14: the observation table of [makeRockSampleProblem] gives
    [O_NONE] for moves and sampling, and for the check of rock [r] the
    value of bit [r] of the rock part of the state with probability
    0.95; every row is a probability distribution. *)
Theorem rock11_observation_rows s a :
  s < Rock11.S -> a < Rock11.A ->
  nth a (nth s (Tiger.observations Rock11.makeRockSampleProblem) []) []
  = (if a <=? A_SAMPLE then [0; 0; 1]%float
     else if Nat.testbit (s / (Rock11.GRID_SIZE * Rock11.GRID_SIZE))
               (a - A_CHECK1)
          then [0.95; 1 - 0.95; 0]%float
          else [1 - 0.95; 0.95; 0]%float)
  /\ is_distribution Rock11.observations s a.
Proof.
  intros Hs Ha.
  destruct rock11_observations_written as (Hrect & Hcells).
  assert (Hrow : nth a (nth s Rock11.observations []) []
                 = (if a <=? A_SAMPLE then [0; 0; 1]%float
                    else if Nat.testbit
                              (s / (Rock11.GRID_SIZE * Rock11.GRID_SIZE))
                              (a - A_CHECK1)
                         then [0.95; 1 - 0.95; 0]%float
                         else [1 - 0.95; 0.95; 0]%float)).
  { rewrite (row_as_map _ _ _ _ s a Hrect Hs Ha).
    unfold Rock11.O. cbn [seq map].
    rewrite !(Hcells s a) by (unfold Rock11.O; first [exact Hs|exact Ha|lia]).
    unfold O_NONE, O_GOOD, O_BAD. cbn [Nat.eqb].
    repeat match goal with
           | |- context [if ?c then _ else _] => destruct c
           end; reflexivity. }
  split; [exact Hrow|].
  unfold is_distribution, row_nonneg, row_sum. rewrite Hrow.
  repeat match goal with
         | |- context [if ?c then _ else _] => destruct c
         end; split; reflexivity.
Qed.

Lemma rock11_rewards_written :
  rect Rock11.S Rock11.A Rock11.S Rock11.rewards
  /\ forall s a s1,
       s < Rock11.S -> a < Rock11.A -> s1 < Rock11.S ->
       at3 Rock11.rewards s a s1
       = if a =? A_SAMPLE then 10%float
         else if (a =? A_EAST)
                 && ((s mod (Rock11.GRID_SIZE * Rock11.GRID_SIZE))
                       mod Rock11.GRID_SIZE =? Rock11.GRID_SIZE - 1)
              then 10%float else 0%float.
Proof.
  eassert (H : wrote Rock11.S Rock11.A Rock11.S _ Rock11.rewards _).
  { cbv beta zeta delta [Rock11.rewards]. derive in_range. }
  destruct (H (rect_extents _ _ _)) as (Hrect & Hat). clear H.
  split; [exact Hrect|].
  intros s a s1 Hs Ha Hs1.
  rewrite Hat, at3_extents. clear Hat Hrect.
  cbv beta. cbn [andb].
  owner s Rock11.S.
  rewrite (owner_in_range s Rock11.S Hs).
  owner s1 Rock11.S.
  rewrite (owner_in_range s1 Rock11.S Hs1).
  unfold point. rewrite !Nat.eqb_refl.
  constants.
  do 13 (destruct a as [|a];
         [cbn [Nat.eqb andb later]; rewrite ?if_same; cbn [later]; tests|]).
  lia.
Qed.

(** Extra X15: the reward table of [makeRockSampleProblem] pays 10 for
    sampling in every state and towards every state, whatever the rock,
    and 10 for moving east from the rightmost column; every other cell
    is 0, and no cell holds the penalty of -10. *)
Theorem rock11_rewards_never_penalise s a s1 :
  s < Rock11.S -> a < Rock11.A -> s1 < Rock11.S ->
  at3 (Tiger.rewards Rock11.makeRockSampleProblem) s a s1
  = (if a =? A_SAMPLE then 10%float
     else if (a =? A_EAST)
             && ((s mod (Rock11.GRID_SIZE * Rock11.GRID_SIZE))
                   mod Rock11.GRID_SIZE =? Rock11.GRID_SIZE - 1)
          then 10%float else 0%float)
  /\ at3 (Tiger.rewards Rock11.makeRockSampleProblem) s a s1 <> (-10)%float.
Proof.
  intros Hs Ha Hs1. cbn [Tiger.rewards Rock11.makeRockSampleProblem].
  rewrite (proj2 rock11_rewards_written s a s1 Hs Ha Hs1).
  split; [reflexivity|].
  repeat match goal with
         | |- context [if ?c then _ else _] => destruct c
         end;
    intros Heq; apply (f_equal (PrimFloat.leb 0%float)) in Heq;
    vm_compute in Heq; discriminate.
Qed.

(** *** The 7 by 7 problem *)

Lemma S7 : Rock7.S = 49 * 32.
Proof. reflexivity. Qed.

Lemma grid7 s :
  s < Rock7.S ->
  let pos := s mod (Rock7.GRID_SIZE * Rock7.GRID_SIZE) in
  let x := pos mod Rock7.GRID_SIZE in
  let y := pos / Rock7.GRID_SIZE in
  ((y <? Rock7.GRID_SIZE - 1) = true -> s + Rock7.GRID_SIZE < Rock7.S)
  /\ ((0 <? y) = true -> Rock7.GRID_SIZE <= s)
  /\ ((x <? Rock7.GRID_SIZE - 1) = true -> s + 1 < Rock7.S)
  /\ ((0 <? x) = true -> 1 <= s).
Proof.
  intros Hs. cbv zeta. rewrite S7 in *.
  change Rock7.GRID_SIZE with 7. change (7 * 7) with 49.
  pose proof (Nat.div_mod_eq s 49) as H1.
  pose proof (Nat.mod_upper_bound s 49 ltac:(lia)) as H2.
  pose proof (Nat.div_mod_eq (s mod 49) 7) as H3.
  pose proof (Nat.mod_upper_bound (s mod 49) 7 ltac:(lia)) as H4.
  assert (H5 : s / 49 < 32) by (apply Nat.Div0.div_lt_upper_bound; lia).
  repeat split; intros Hc;
    first [apply Nat.ltb_lt in Hc | idtac]; lia.
Qed.

Lemma neighbour7_in_range s a s' :
  s < Rock7.S -> neighbour Rock7.GRID_SIZE s a = Some s' ->
  s' < Rock7.S /\ s' <> s /\ a < A_SAMPLE.
Proof.
  intros Hs. destruct (grid7 s Hs) as (Hnorth & Hsouth & Heast & Hwest).
  unfold neighbour. cbv zeta in *.
  unfold Rock7.GRID_SIZE, A_NORTH, A_SOUTH, A_EAST, A_WEST, A_SAMPLE in *.
  repeat match goal with
         | |- context [Nat.eqb a ?y] => destruct (Nat.eqb_spec a y)
         | |- context [if ?c then _ else _] => destruct c eqn:?
         end;
    intros [= <-]; try discriminate;
    repeat match goal with
           | H : true = true -> _ |- _ => specialize (H eq_refl)
           end; lia.
Qed.

Lemma fold_later_zero (F : nat -> option double) (l : list nat)
    (init : option double) :
  (forall n, F n = Some 0%float \/ F n = None) ->
  init = Some 0%float \/ init = None ->
  fold_left (fun acc n => later (F n) acc) l init = Some 0%float
  \/ fold_left (fun acc n => later (F n) acc) l init = None.
Proof.
  intros HF. induction l as [|n l IH] in init |- *; intros Hinit;
    [exact Hinit|].
  cbn [fold_left]. apply IH.
  destruct (HF n) as [-> | ->]; cbn [later]; [now left|exact Hinit].
Qed.

(** The zeroing loops leave a table of zeros a table of zeros. *)
Lemma zeroed_cells d2 t :
  rect Rock7.S Rock7.A d2 t ->
  (forall i j k, at3 t i j k = 0%float) ->
  rect Rock7.S Rock7.A d2 (Rock7.zeroed d2 t)
  /\ forall i j k, at3 (Rock7.zeroed d2 t) i j k = 0%float.
Proof.
  intros Hrect Hzero.
  eassert (H : wrote Rock7.S Rock7.A d2 t (Rock7.zeroed d2 t) _).
  { cbv beta delta [Rock7.zeroed]. derive in_range. }
  destruct (H Hrect) as (Hrect' & Hat). clear H.
  split; [exact Hrect'|].
  intros i j k. rewrite Hat. cbv beta.
  match goal with
  | |- match ?X with _ => _ end = _ =>
      assert (HX : X = Some 0%float \/ X = None)
  end.
  { apply fold_later_zero; [|now right]. intros n.
    apply fold_later_zero; [|now right]. intros a.
    apply fold_later_zero; [|now right]. intros s1.
    unfold point. destruct (_ && _); cbn [later]; [now left|now right]. }
  destruct HX as [-> | ->]; [reflexivity|apply Hzero].
Qed.

Lemma rock7_transitions_written :
  rect Rock7.S Rock7.A Rock7.S Rock7.transitions
  /\ forall s a s1,
       s < Rock7.S -> a < Rock7.A -> s1 < Rock7.S ->
       at3 Rock7.transitions s a s1
       = match neighbour Rock7.GRID_SIZE s a with
         | Some s' => if s1 =? s then (1 - 0.9)%float
                      else if s1 =? s' then 0.9%float else 0%float
         | None => if s1 =? s then 1%float else 0%float
         end.
Proof.
  destruct (zeroed_cells Rock7.S (extents Rock7.S Rock7.A Rock7.S)
              (rect_extents _ _ _)
              (at3_extents Rock7.S Rock7.A Rock7.S)) as (Hzrect & Hzero).
  eassert (H : wrote Rock7.S Rock7.A Rock7.S _ Rock7.transitions _).
  { unfold Rock7.transitions.
    eapply wrote_for_each; [apply wrote_refl|].
    intros n t' Hn. cbv beta delta [Rock7.transitions_of].
    destruct (grid7 n Hn) as (Hnorth & Hsouth & Heast & Hwest).
    derive in_range. }
  destruct (H Hzrect) as (Hrect & Hat). clear H.
  split; [exact Hrect|].
  intros s a s1 Hs Ha Hs1.
  rewrite Hat, Hzero. clear Hat Hrect Hzero Hzrect.
  cbv beta. unfold point.
  owner s Rock7.S.
  rewrite (owner_in_range s Rock7.S Hs).
  unfold neighbour, Rock7.MOVE_PROB. rewrite !Nat.eqb_refl.
  constants.
  cbn [Nat.add Nat.sub seq fold_left].
  do 10 (destruct a as [|a];
         [cbn [Nat.eqb Nat.ltb Nat.leb andb later];
          rewrite ?if_same; cbn [later]; tests|]).
  lia.
Qed.

(** Extra X16: in the transition table of [make7x7RockSampleProblem] a
    move reaches the next cell with 0.9 and stays with [1 - 0.9]; a move
    into the wall stays with probability 1, as sampling and checking
    do. *)
Theorem rock7_transition_cells s a s1 :
  s < Rock7.S -> a < Rock7.A -> s1 < Rock7.S ->
  at3 (Tiger.transitions Rock7.make7x7RockSampleProblem) s a s1
  = match neighbour Rock7.GRID_SIZE s a with
    | Some s' => if s1 =? s then (1 - 0.9)%float
                 else if s1 =? s' then 0.9%float else 0%float
    | None => if s1 =? s then 1%float else 0%float
    end.
Proof. apply (proj2 rock7_transitions_written). Qed.

(** Extra X17: every row of the transition table of
    [make7x7RockSampleProblem] is a probability distribution: its
    entries are not negative and add up, left to right in [double], to
    exactly 1. *)
Theorem rock7_transition_rows_are_distributions s a :
  s < Rock7.S -> a < Rock7.A ->
  is_distribution (Tiger.transitions Rock7.make7x7RockSampleProblem) s a.
Proof.
  intros Hs Ha. cbn [Tiger.transitions Rock7.make7x7RockSampleProblem].
  destruct rock7_transitions_written as (Hrect & Hcells).
  destruct (row_sum_cells _ _ _ _ s a _ Hrect Hs Ha
              (fun k Hk => Hcells s a k Hs Ha Hk)) as (Hsum & Hnonneg).
  unfold is_distribution. rewrite Hsum, Hnonneg. clear Hsum Hnonneg Hcells Hrect.
  split.
  - apply forallb_seq. intros k _.
    repeat match goal with
           | |- context [if ?c then _ else _] => destruct c
           | |- context [match ?c with Some _ => _ | None => _ end] => destruct c
           end; reflexivity.
  - destruct (neighbour Rock7.GRID_SIZE s a) as [s'|] eqn:Hnext; cbv beta iota.
    + destruct (neighbour7_in_range s a s' Hs Hnext) as (Hs' & Hne & _).
      destruct (Nat.lt_ge_cases s s') as [Hlt|Hge].
      * transitivity (0 + (1 - 0.9) + 0.9)%float; [|reflexivity].
        apply (sum_two _ Rock7.S s s'); try reflexivity; try lia.
        -- rewrite Nat.eqb_refl. reflexivity.
        -- rewrite Nat.eqb_refl, (proj2 (Nat.eqb_neq s' s) Hne). reflexivity.
        -- intros k _ Hk1 Hk2.
           now rewrite (proj2 (Nat.eqb_neq k s) Hk1),
                       (proj2 (Nat.eqb_neq k s') Hk2).
      * transitivity (0 + 0.9 + (1 - 0.9))%float; [|reflexivity].
        apply (sum_two _ Rock7.S s' s); try reflexivity; try lia.
        -- rewrite Nat.eqb_refl, (proj2 (Nat.eqb_neq s' s) Hne). reflexivity.
        -- rewrite Nat.eqb_refl. reflexivity.
        -- intros k _ Hk1 Hk2.
           now rewrite (proj2 (Nat.eqb_neq k s) Hk2),
                       (proj2 (Nat.eqb_neq k s') Hk1).
    + transitivity (0 + 1)%float; [|reflexivity].
      apply (sum_single _ Rock7.S s); try reflexivity; try lia.
      * rewrite Nat.eqb_refl. reflexivity.
      * intros k _ Hk. now rewrite (proj2 (Nat.eqb_neq k s) Hk).
Qed.

Lemma rock7_observations_written :
  rect Rock7.S Rock7.A Rock7.O Rock7.observations
  /\ forall s a o,
       s < Rock7.S -> a < Rock7.A -> o < Rock7.O ->
       at3 Rock7.observations s a o
       = if a <=? A_SAMPLE then (if o =? O_NONE then 1%float else 0%float)
         else if Nat.testbit (s / (Rock7.GRID_SIZE * Rock7.GRID_SIZE))
                   (a - A_SAMPLE - 1)
              then (if o =? O_GOOD then 0.95%float
                    else if o =? O_BAD then 0.05%float else 0%float)
              else (if o =? O_BAD then 0.95%float
                    else if o =? O_GOOD then 0.05%float else 0%float).
Proof.
  eassert (H : wrote Rock7.S Rock7.A Rock7.O _ Rock7.observations _).
  { cbv beta zeta delta [Rock7.observations Rock7.observations_of].
    derive in_range. }
  destruct (H (rect_extents _ _ _)) as (Hrect & Hat). clear H.
  split; [exact Hrect|].
  intros s a o Hs Ha Ho.
  rewrite Hat, at3_extents. clear Hat Hrect.
  cbv beta. unfold point.
  owner s Rock7.S.
  rewrite (owner_in_range s Rock7.S Hs).
  destruct (Nat.eqb_spec s s) as [_|Hne]; [|now destruct Hne].
  cbn [andb].
  owner a Rock7.A.
  rewrite (owner_in_range a Rock7.A Ha).
  destruct (Nat.eqb_spec a a) as [_|Hne]; [|now destruct Hne].
  cbn [andb].
  rewrite <- !isGood_testbit.
  constants. unfold Rock7.GRID_SIZE.
  cbn [Nat.add Nat.sub seq fold_left andb].
  do 3 (destruct o as [|o];
        [cbn [Nat.eqb andb later]; rewrite ?if_same; cbn [later]; tests|]).
  lia.
Qed.

(** Extra X18: the observation table of [make7x7RockSampleProblem]
    gives [O_NONE] for moves and sampling, and for the check of a rock
    the value of its bit in the state with probability 0.95, the other
    value with 0.05; every row is a probability distribution. *)
Theorem rock7_observation_rows s a :
  s < Rock7.S -> a < Rock7.A ->
  nth a (nth s (Tiger.observations Rock7.make7x7RockSampleProblem) []) []
  = (if a <=? A_SAMPLE then [0; 0; 1]%float
     else if Nat.testbit (s / (Rock7.GRID_SIZE * Rock7.GRID_SIZE))
               (a - A_SAMPLE - 1)
          then [0.95; 0.05; 0]%float
          else [0.05; 0.95; 0]%float)
  /\ is_distribution (Tiger.observations Rock7.make7x7RockSampleProblem) s a.
Proof.
  intros Hs Ha. cbn [Tiger.observations Rock7.make7x7RockSampleProblem].
  destruct rock7_observations_written as (Hrect & Hcells).
  assert (Hrow : nth a (nth s Rock7.observations []) []
                 = (if a <=? A_SAMPLE then [0; 0; 1]%float
                    else if Nat.testbit
                              (s / (Rock7.GRID_SIZE * Rock7.GRID_SIZE))
                              (a - A_SAMPLE - 1)
                         then [0.95; 0.05; 0]%float
                         else [0.05; 0.95; 0]%float)).
  { rewrite (row_as_map _ _ _ _ s a Hrect Hs Ha).
    unfold Rock7.O. cbn [seq map].
    rewrite !(Hcells s a) by (unfold Rock7.O; first [exact Hs|exact Ha|lia]).
    unfold O_NONE, O_GOOD, O_BAD. cbn [Nat.eqb].
    repeat match goal with
           | |- context [if ?c then _ else _] => destruct c
           end; reflexivity. }
  split; [exact Hrow|].
  unfold is_distribution, row_nonneg, row_sum. rewrite Hrow.
  repeat match goal with
         | |- context [if ?c then _ else _] => destruct c
         end; split; reflexivity.
Qed.

Lemma rock7_rewards_written :
  rect Rock7.S Rock7.A Rock7.S Rock7.rewards
  /\ forall s a s1,
       s < Rock7.S -> a < Rock7.A -> s1 < Rock7.S ->
       at3 Rock7.rewards s a s1
       = if a =? A_SAMPLE then (-10)%float
         else if (a =? A_EAST)
                 && ((s mod (Rock7.GRID_SIZE * Rock7.GRID_SIZE))
                       mod Rock7.GRID_SIZE =? Rock7.GRID_SIZE - 1)
              then 10%float else 0%float.
Proof.
  destruct (zeroed_cells Rock7.S (extents Rock7.S Rock7.A Rock7.S)
              (rect_extents _ _ _)
              (at3_extents Rock7.S Rock7.A Rock7.S)) as (Hzrect & Hzero).
  eassert (H : wrote Rock7.S Rock7.A Rock7.S _ Rock7.rewards _).
  { unfold Rock7.rewards.
    eapply wrote_for_each; [apply wrote_refl|].
    intros n t' Hn. cbv beta zeta delta [Rock7.rewards_of].
    derive in_range. }
  destruct (H Hzrect) as (Hrect & Hat). clear H.
  split; [exact Hrect|].
  intros s a s1 Hs Ha Hs1.
  rewrite Hat, Hzero. clear Hat Hrect Hzero Hzrect.
  cbv beta. unfold point.
  owner s Rock7.S.
  rewrite (owner_in_range s Rock7.S Hs).
  destruct (Nat.eqb_spec s s) as [_|Hne]; [|now destruct Hne].
  cbn [andb].
  owner s1 Rock7.S.
  rewrite (owner_in_range s1 Rock7.S Hs1).
  rewrite !Nat.eqb_refl.
  constants.
  do 10 (destruct a as [|a];
         [cbn [Nat.eqb andb later]; rewrite ?if_same; cbn [later]; tests|]).
  lia.
Qed.

(** Extra X19: the reward table of [make7x7RockSampleProblem] charges
    -10 for sampling in every state and towards every state, whatever
    the rock, pays 10 for moving east from the rightmost column, and is
    0 elsewhere. *)
Theorem rock7_sampling_is_penalised s a s1 :
  s < Rock7.S -> a < Rock7.A -> s1 < Rock7.S ->
  at3 (Tiger.rewards Rock7.make7x7RockSampleProblem) s a s1
  = if a =? A_SAMPLE then (-10)%float
    else if (a =? A_EAST)
            && ((s mod (Rock7.GRID_SIZE * Rock7.GRID_SIZE))
                  mod Rock7.GRID_SIZE =? Rock7.GRID_SIZE - 1)
         then 10%float else 0%float.
Proof. apply (proj2 rock7_rewards_written). Qed.


(** *** The problem of [make9x9RockSampleProblem] *)

Lemma S9 : Rock9x9.S = 9 * 256.
Proof. reflexivity. Qed.

Lemma grid9 s :
  s < Rock9x9.S ->
  let pos := s mod (Rock9x9.GRID_SIZE * Rock9x9.GRID_SIZE) in
  let x := pos mod Rock9x9.GRID_SIZE in
  let y := pos / Rock9x9.GRID_SIZE in
  ((y <? Rock9x9.GRID_SIZE - 1) = true -> s + Rock9x9.GRID_SIZE < Rock9x9.S)
  /\ ((0 <? y) = true -> Rock9x9.GRID_SIZE <= s)
  /\ ((x <? Rock9x9.GRID_SIZE - 1) = true -> s + 1 < Rock9x9.S)
  /\ ((0 <? x) = true -> 1 <= s).
Proof.
  intros Hs. cbv zeta. rewrite S9 in *.
  change Rock9x9.GRID_SIZE with 3. change (3 * 3) with 9.
  pose proof (Nat.div_mod_eq s 9) as H1.
  pose proof (Nat.mod_upper_bound s 9 ltac:(lia)) as H2.
  pose proof (Nat.div_mod_eq (s mod 9) 3) as H3.
  pose proof (Nat.mod_upper_bound (s mod 9) 3 ltac:(lia)) as H4.
  assert (H5 : s / 9 < 256) by (apply Nat.Div0.div_lt_upper_bound; lia).
  repeat split; intros Hc;
    first [apply Nat.ltb_lt in Hc | idtac]; lia.
Qed.

Lemma neighbour9_in_range s a s' :
  s < Rock9x9.S -> neighbour Rock9x9.GRID_SIZE s a = Some s' ->
  s' < Rock9x9.S /\ s' <> s /\ a < A_SAMPLE.
Proof.
  intros Hs. destruct (grid9 s Hs) as (Hnorth & Hsouth & Heast & Hwest).
  unfold neighbour. cbv zeta in *.
  unfold Rock9x9.GRID_SIZE, A_NORTH, A_SOUTH, A_EAST, A_WEST, A_SAMPLE in *.
  repeat match goal with
         | |- context [Nat.eqb a ?y] => destruct (Nat.eqb_spec a y)
         | |- context [if ?c then _ else _] => destruct c eqn:?
         end;
    intros [= <-]; try discriminate;
    repeat match goal with
           | H : true = true -> _ |- _ => specialize (H eq_refl)
           end; lia.
Qed.

(** The one loop writes each table as a loop of its own would. *)
Lemma rock9_tables_split (n : nat) (T : Rock9x9.Tables) :
  for_each n Rock9x9.body T
  = {| Rock9x9.transitions :=
         for_each n Rock9x9.transitions_of (Rock9x9.transitions T);
       Rock9x9.rewards :=
         for_each n Rock9x9.rewards_of (Rock9x9.rewards T);
       Rock9x9.observations :=
         for_each n Rock9x9.observations_of (Rock9x9.observations T) |}.
Proof.
  unfold for_each. generalize (seq 0 n) as l.
  induction l as [|s l IH] in T |- *; [now destruct T|].
  cbn [fold_left]. rewrite IH. reflexivity.
Qed.

Lemma rock9_transitions_written :
  rect Rock9x9.S Rock9x9.A Rock9x9.S
    (Rock9x9.transitions Rock9x9.tables)
  /\ forall s a s1,
       s < Rock9x9.S -> a < Rock9x9.A -> s1 < Rock9x9.S ->
       at3 (Rock9x9.transitions Rock9x9.tables) s a s1
       = match neighbour Rock9x9.GRID_SIZE s a with
         | Some s' => if s1 =? s then (1 - 0.9)%float
                      else if s1 =? s' then 0.9%float else 0%float
         | None => if s1 =? s then 1%float else 0%float
         end.
Proof.
  unfold Rock9x9.tables. rewrite rock9_tables_split.
  cbn [Rock9x9.transitions].
  eassert (H : wrote Rock9x9.S Rock9x9.A Rock9x9.S _
                 (for_each Rock9x9.S Rock9x9.transitions_of _) _).
  { eapply wrote_for_each; [apply wrote_refl|].
    intros n t' Hn.
    cbv beta delta [Rock9x9.transitions_of Rock9x9.setMovement].
    destruct (grid9 n Hn) as (Hnorth & Hsouth & Heast & Hwest).
    derive in_range. }
  destruct (H (rect_extents _ _ _)) as (Hrect & Hat). clear H.
  split; [exact Hrect|].
  intros s a s1 Hs Ha Hs1.
  rewrite Hat, at3_extents. clear Hat Hrect.
  cbv beta. unfold point.
  owner s Rock9x9.S.
  rewrite (owner_in_range s Rock9x9.S Hs).
  rewrite (proj2 (Nat.leb_le 0 a) (Nat.le_0_l a)),
    (proj2 (Nat.ltb_lt a (0 + Rock9x9.A)) Ha), (proj2 (Nat.ltb_lt _ _) Hs1).
  unfold neighbour, Rock9x9.MOVE_PROB. rewrite !Nat.eqb_refl.
  constants.
  cbn [Nat.add Nat.sub seq fold_left].
  do 13 (destruct a as [|a];
         [cbn [Nat.eqb Nat.ltb Nat.leb andb later];
          rewrite ?if_same; cbn [later]; tests|]).
  lia.
Qed.

(** Extra X20: in the transition table of [make9x9RockSampleProblem],
    built with [std::fill_n] over the row-major storage, a move reaches
    the next cell of the 3 by 3 board with 0.9 and stays with
    [1.0 - 0.9], a move into the wall stays with probability 1, as
    sampling and checking do; every row is a probability distribution. *)
Theorem rock9_transition_rows s a :
  s < Rock9x9.S -> a < Rock9x9.A ->
  (forall s1, s1 < Rock9x9.S ->
     at3 (Tiger.transitions Rock9x9.make9x9RockSampleProblem) s a s1
     = match neighbour Rock9x9.GRID_SIZE s a with
       | Some s' => if s1 =? s then (1 - 0.9)%float
                    else if s1 =? s' then 0.9%float else 0%float
       | None => if s1 =? s then 1%float else 0%float
       end)
  /\ is_distribution (Tiger.transitions Rock9x9.make9x9RockSampleProblem) s a.
Proof.
  intros Hs Ha. cbn [Tiger.transitions Rock9x9.make9x9RockSampleProblem].
  destruct rock9_transitions_written as (Hrect & Hcells).
  split; [intros s1 Hs1; now apply Hcells|].
  destruct (row_sum_cells _ _ _ _ s a _ Hrect Hs Ha
              (fun k Hk => Hcells s a k Hs Ha Hk)) as (Hsum & Hnonneg).
  unfold is_distribution. rewrite Hsum, Hnonneg. clear Hsum Hnonneg Hcells Hrect.
  split.
  - apply forallb_seq. intros k _.
    repeat match goal with
           | |- context [if ?c then _ else _] => destruct c
           | |- context [match ?c with Some _ => _ | None => _ end] => destruct c
           end; reflexivity.
  - destruct (neighbour Rock9x9.GRID_SIZE s a) as [s'|] eqn:Hnext;
      cbv beta iota.
    + destruct (neighbour9_in_range s a s' Hs Hnext) as (Hs' & Hne & _).
      destruct (Nat.lt_ge_cases s s') as [Hlt|Hge].
      * transitivity (0 + (1 - 0.9) + 0.9)%float; [|reflexivity].
        apply (sum_two _ Rock9x9.S s s'); try reflexivity; try lia.
        -- rewrite Nat.eqb_refl. reflexivity.
        -- rewrite Nat.eqb_refl, (proj2 (Nat.eqb_neq s' s) Hne). reflexivity.
        -- intros k _ Hk1 Hk2.
           now rewrite (proj2 (Nat.eqb_neq k s) Hk1),
                       (proj2 (Nat.eqb_neq k s') Hk2).
      * transitivity (0 + 0.9 + (1 - 0.9))%float; [|reflexivity].
        apply (sum_two _ Rock9x9.S s' s); try reflexivity; try lia.
        -- rewrite Nat.eqb_refl, (proj2 (Nat.eqb_neq s' s) Hne). reflexivity.
        -- rewrite Nat.eqb_refl. reflexivity.
        -- intros k _ Hk1 Hk2.
           now rewrite (proj2 (Nat.eqb_neq k s) Hk2),
                       (proj2 (Nat.eqb_neq k s') Hk1).
    + transitivity (0 + 1)%float; [|reflexivity].
      apply (sum_single _ Rock9x9.S s); try reflexivity; try lia.
      * rewrite Nat.eqb_refl. reflexivity.
      * intros k _ Hk. now rewrite (proj2 (Nat.eqb_neq k s) Hk).
Qed.

Lemma rock9_observations_written :
  rect Rock9x9.S Rock9x9.A Rock9x9.O
    (Rock9x9.observations Rock9x9.tables)
  /\ forall s a o,
       s < Rock9x9.S -> a < Rock9x9.A -> o < Rock9x9.O ->
       at3 (Rock9x9.observations Rock9x9.tables) s a o
       = if a <=? A_SAMPLE then (if o =? O_NONE then 1%float else 0%float)
         else if Nat.testbit (s / (Rock9x9.GRID_SIZE * Rock9x9.GRID_SIZE))
                   (a - A_SAMPLE - 1)
              then (if o =? O_GOOD then 0.95%float
                    else if o =? O_BAD then 0.05%float else 0%float)
              else (if o =? O_BAD then 0.95%float
                    else if o =? O_GOOD then 0.05%float else 0%float).
Proof.
  unfold Rock9x9.tables. rewrite rock9_tables_split.
  cbn [Rock9x9.observations].
  eassert (H : wrote Rock9x9.S Rock9x9.A Rock9x9.O _
                 (for_each Rock9x9.S Rock9x9.observations_of _) _).
  { eapply wrote_for_each; [apply wrote_refl|].
    intros n t' Hn.
    cbv beta delta [Rock9x9.observations_of].
    derive in_range. }
  destruct (H (rect_extents _ _ _)) as (Hrect & Hat). clear H.
  split; [exact Hrect|].
  intros s a o Hs Ha Ho.
  rewrite Hat, at3_extents. clear Hat Hrect.
  cbv beta. unfold point.
  owner s Rock9x9.S.
  rewrite (owner_in_range s Rock9x9.S Hs).
  rewrite (proj2 (Nat.leb_le 0 a) (Nat.le_0_l a)),
    (proj2 (Nat.ltb_lt a (0 + Rock9x9.A)) Ha), (proj2 (Nat.ltb_lt _ _) Ho).
  rewrite <- !isGood_testbit. rewrite !Nat.eqb_refl.
  constants. unfold Rock9x9.GRID_SIZE.
  cbn [Nat.add Nat.sub seq fold_left andb].
  do 13 (destruct a as [|a];
         [do 3 (destruct o as [|o];
                [cbn [Nat.eqb Nat.ltb Nat.leb Nat.sub andb later];
                 rewrite ?if_same; cbn [later]; tests|]); lia|]).
  lia.
Qed.

(** Extra X21: the observation table of [make9x9RockSampleProblem]
    gives [O_NONE] for moves and sampling, and for the check of a rock
    the value of its bit in the state with probability 0.95, the other
    value with 0.05; every row is a probability distribution. *)
Theorem rock9_observation_rows s a :
  s < Rock9x9.S -> a < Rock9x9.A ->
  nth a (nth s (Tiger.observations Rock9x9.make9x9RockSampleProblem) []) []
  = (if a <=? A_SAMPLE then [0; 0; 1]%float
     else if Nat.testbit (s / (Rock9x9.GRID_SIZE * Rock9x9.GRID_SIZE))
               (a - A_SAMPLE - 1)
          then [0.95; 0.05; 0]%float
          else [0.05; 0.95; 0]%float)
  /\ is_distribution (Tiger.observations Rock9x9.make9x9RockSampleProblem) s a.
Proof.
  intros Hs Ha. cbn [Tiger.observations Rock9x9.make9x9RockSampleProblem].
  destruct rock9_observations_written as (Hrect & Hcells).
  match goal with
  | |- ?row = ?val /\ _ => assert (Hrow : row = val)
  end.
  { rewrite (row_as_map _ _ _ _ s a Hrect Hs Ha).
    unfold Rock9x9.O. cbn [seq map].
    rewrite !(Hcells s a) by (unfold Rock9x9.O; first [exact Hs|exact Ha|lia]).
    unfold O_NONE, O_GOOD, O_BAD. cbn [Nat.eqb].
    repeat match goal with
           | |- context [if ?c then _ else _] => destruct c
           end; reflexivity. }
  split; [exact Hrow|].
  unfold is_distribution, row_nonneg, row_sum. rewrite Hrow.
  repeat match goal with
         | |- context [if ?c then _ else _] => destruct c
         end; split; reflexivity.
Qed.

Lemma rock9_rewards_written :
  rect Rock9x9.S Rock9x9.A Rock9x9.S (Rock9x9.rewards Rock9x9.tables)
  /\ forall s a s1,
       s < Rock9x9.S -> a < Rock9x9.A -> s1 < Rock9x9.S ->
       at3 (Rock9x9.rewards Rock9x9.tables) s a s1
       = if a =? A_SAMPLE then (-10)%float
         else if (a =? A_EAST)
                 && ((s mod (Rock9x9.GRID_SIZE * Rock9x9.GRID_SIZE))
                       mod Rock9x9.GRID_SIZE =? Rock9x9.GRID_SIZE - 1)
              then 10%float else 0%float.
Proof.
  unfold Rock9x9.tables. rewrite rock9_tables_split.
  cbn [Rock9x9.rewards].
  eassert (H : wrote Rock9x9.S Rock9x9.A Rock9x9.S _
                 (for_each Rock9x9.S Rock9x9.rewards_of _) _).
  { eapply wrote_for_each; [apply wrote_refl|].
    intros n t' Hn.
    cbv beta delta [Rock9x9.rewards_of].
    derive in_range. }
  destruct (H (rect_extents _ _ _)) as (Hrect & Hat). clear H.
  split; [exact Hrect|].
  intros s a s1 Hs Ha Hs1.
  rewrite Hat, at3_extents. clear Hat Hrect.
  cbv beta.
  owner s Rock9x9.S.
  rewrite (owner_in_range s Rock9x9.S Hs).
  rewrite (proj2 (Nat.leb_le 0 a) (Nat.le_0_l a)),
    (proj2 (Nat.ltb_lt a (0 + Rock9x9.A)) Ha), (proj2 (Nat.ltb_lt _ _) Hs1).
  rewrite !Nat.eqb_refl.
  constants.
  do 13 (destruct a as [|a];
         [cbn [Nat.eqb Nat.ltb Nat.leb Nat.add andb later];
          rewrite ?if_same; cbn [later]; tests|]).
  lia.
Qed.

(** Extra X22: the reward table of [make9x9RockSampleProblem] charges
    -10 for sampling in every state and towards every state, pays 10 for
    moving east from the rightmost column, and is 0 elsewhere. *)
Theorem rock9_sampling_is_penalised s a s1 :
  s < Rock9x9.S -> a < Rock9x9.A -> s1 < Rock9x9.S ->
  at3 (Tiger.rewards Rock9x9.make9x9RockSampleProblem) s a s1
  = if a =? A_SAMPLE then (-10)%float
    else if (a =? A_EAST)
            && ((s mod (Rock9x9.GRID_SIZE * Rock9x9.GRID_SIZE))
                  mod Rock9x9.GRID_SIZE =? Rock9x9.GRID_SIZE - 1)
         then 10%float else 0%float.
Proof. apply (proj2 rock9_rewards_written). Qed.

End RockSampleProperties.

(** ** The sample action of [testerf] *)

Section TesterfProperties.

Import Tiger RockSample.

Lemma store_rect d0 d1 d2 t i j k v :
  rect d0 d1 d2 t -> i < d0 -> j < d1 ->
  Testerf.store i j k v t
  = if k <? d2 then Some (assign i j k v t) else None.
Proof.
  intros Hrect Hi Hj. unfold Testerf.store.
  destruct (rect_rows d0 d1 d2 t i j Hrect Hi Hj) as (Hd1 & Hd2).
  destruct Hrect as (Hd0 & _).
  rewrite Hd0, Hd1, Hd2.
  rewrite (proj2 (Nat.ltb_lt i d0) Hi), (proj2 (Nat.ltb_lt j d1) Hj).
  reflexivity.
Qed.

Lemma testerf_S : Testerf.S = 2025.
Proof. reflexivity. Qed.

(** The tables the sample action leaves, and the states in which it
    writes outside them. *)
Lemma sample_of_spec (T : Testerf.Tables) (s : nat) :
  rect Testerf.S Testerf.A Testerf.S (Testerf.transitions T) ->
  rect Testerf.S Testerf.A Testerf.S (Testerf.rewards T) ->
  rect Testerf.S Testerf.A Testerf.O (Testerf.observations T) ->
  s < Testerf.S ->
  Testerf.sample_of s T
  = match Testerf.sampled_rock s with
    | Some r =>
        let next := Testerf.setRockSampled s r in
        if next <? Testerf.S then
          Some {| Testerf.transitions :=
                    assign s 4 s 0%float
                      (assign s 4 next 1%float
                         (assign s 4 s 1%float (Testerf.transitions T)));
                  Testerf.rewards :=
                    assign s 4 next
                      (if (Testerf.getRockState s r =? 1)%N
                       then 10%float else (-10)%float)
                      (Testerf.rewards T);
                  Testerf.observations :=
                    assign s 4 2 1%float (Testerf.observations T) |}
        else None
    | None =>
        Some {| Testerf.transitions :=
                  assign s 4 s 1%float (Testerf.transitions T);
                Testerf.rewards :=
                  assign s 4 s (-10)%float (Testerf.rewards T);
                Testerf.observations :=
                  assign s 4 2 1%float (Testerf.observations T) |}
    end.
Proof.
  destruct T as [tr rw ob]. cbn [Testerf.transitions Testerf.rewards
                                  Testerf.observations].
  intros Htr Hrw Hob Hs.
  assert (H4 : 4 < Testerf.A) by (unfold Testerf.A; lia).
  assert (Hs' : (s <? Testerf.S) = true) by now apply Nat.ltb_lt.
  pose proof (rect_assign _ _ _ s 4 s 1%float _ Htr) as Htr1.
  unfold Testerf.sample_of, Testerf.sampled_rock. cbv zeta.
  rewrite (store_rect _ _ _ tr s 4 s _ Htr Hs H4), Hs'.
  rewrite (store_rect _ _ _ ob s 4 2 _ Hob Hs H4).
  change (2 <? Testerf.O) with true.
  cbn [Testerf.bind Testerf.transitions Testerf.rewards Testerf.observations].
  set (x := (s mod (Testerf.GRID_SIZE * Testerf.GRID_SIZE))
              mod Testerf.GRID_SIZE).
  set (y := (s mod (Testerf.GRID_SIZE * Testerf.GRID_SIZE))
              / Testerf.GRID_SIZE).
  unfold Testerf.ROCK_POSITIONS, Testerf.NUM_ROCKS.
  cbn [Testerf.sample_rocks find seq nth fst snd Nat.add
       Testerf.transitions Testerf.rewards Testerf.observations].
  repeat match goal with
         | |- context [if (x =? ?a) && (y =? ?b) then _ else _] =>
             destruct ((x =? a) && (y =? b))
         end;
    cbn [Testerf.bind negb];
    try (rewrite (store_rect _ _ _ rw s 4 s _ Hrw Hs H4), Hs';
         reflexivity);
    match goal with
    | |- context [(Testerf.getRockState s ?r =? 2)%N] =>
        destruct (Testerf.getRockState s r =? 2)%N; cbn [negb Testerf.bind];
        [rewrite (store_rect _ _ _ rw s 4 s _ Hrw Hs H4), Hs'; reflexivity|];
        rewrite (store_rect _ _ _ _ s 4 (Testerf.setRockSampled s r) _
                   Htr1 Hs H4);
        destruct (Testerf.setRockSampled s r <? Testerf.S) eqn:Hnext;
        cbn [Testerf.bind]; [|reflexivity];
        rewrite (store_rect _ _ _ _ s 4 s _
                   (rect_assign _ _ _ s 4 (Testerf.setRockSampled s r)
                      1%float _ Htr1) Hs H4), Hs';
        cbn [Testerf.bind];
        rewrite (store_rect _ _ _ rw s 4 (Testerf.setRockSampled s r) _
                   Hrw Hs H4), Hnext;
        reflexivity
    end.
Qed.

(** Extra X23: with [std::pow] exact, the sample action of [testerf]
    writes outside its tables exactly in the states whose sampled rock
    makes [setRockSampled] return a number that is no state, and there
    are such states among the 2025: the index [setRockSampled(s, r)] is
    used unchecked. *)
Theorem testerf_sample_leaves_the_tables (T : Testerf.Tables) :
  rect Testerf.S Testerf.A Testerf.S (Testerf.transitions T) ->
  rect Testerf.S Testerf.A Testerf.S (Testerf.rewards T) ->
  rect Testerf.S Testerf.A Testerf.O (Testerf.observations T) ->
  (forall s, s < Testerf.S ->
     (Testerf.sample_of s T = None
      <-> exists r, Testerf.sampled_rock s = Some r
                    /\ Testerf.S <= Testerf.setRockSampled s r))
  /\ exists s r, s < Testerf.S /\ Testerf.sampled_rock s = Some r
                 /\ Testerf.S <= Testerf.setRockSampled s r.
Proof.
  intros Htr Hrw Hob. split.
  - intros s Hs. rewrite (sample_of_spec T s Htr Hrw Hob Hs).
    destruct (Testerf.sampled_rock s) as [r|]; cbv zeta.
    + destruct (Nat.ltb_spec (Testerf.setRockSampled s r) Testerf.S)
        as [Hin|Hout].
      * split; [discriminate|]. intros (r' & [= <-] & Hge). lia.
      * split; [|reflexivity]. intros _. exists r. now split.
    + split; [discriminate|]. intros (r & Hr & _). discriminate.
  - exists 680, 3. split; [apply Nat.ltb_lt; reflexivity|].
    split; [reflexivity|]. apply Nat.leb_le. reflexivity.
Qed.

(** Extra X24: when the sample action of [testerf] stays inside the
    tables, it leaves in the row of the state and action 4 a 0 at the
    state itself and a 1 at [setRockSampled(s, r)] if a rock is sampled,
    and a 1 at the state itself otherwise. The 0 is written last: in a
    state that [setRockSampled] returns unchanged, and there are such
    states, the action leaves no 1 in the row. *)
Theorem testerf_sample_row (T T' : Testerf.Tables) (s : nat) :
  rect Testerf.S Testerf.A Testerf.S (Testerf.transitions T) ->
  rect Testerf.S Testerf.A Testerf.S (Testerf.rewards T) ->
  rect Testerf.S Testerf.A Testerf.O (Testerf.observations T) ->
  s < Testerf.S ->
  Testerf.sample_of s T = Some T' ->
  (forall k, k < Testerf.S ->
     at3 (Testerf.transitions T') s 4 k
     = match Testerf.sampled_rock s with
       | Some r =>
           if k =? s then 0%float
           else if k =? Testerf.setRockSampled s r then 1%float
                else at3 (Testerf.transitions T) s 4 k
       | None =>
           if k =? s then 1%float else at3 (Testerf.transitions T) s 4 k
       end)
  /\ exists s0 r0, s0 < Testerf.S /\ Testerf.sampled_rock s0 = Some r0
                   /\ Testerf.setRockSampled s0 r0 = s0.
Proof.
  intros Htr Hrw Hob Hs Hsample.
  rewrite (sample_of_spec T s Htr Hrw Hob Hs) in Hsample.
  assert (H4 : 4 < Testerf.A) by (unfold Testerf.A; lia).
  pose proof (rect_assign _ _ _ s 4 s 1%float _ Htr) as Htr1.
  split.
  - intros k Hk.
    destruct (Testerf.sampled_rock s) as [r|]; cbv zeta in Hsample.
    + destruct (Nat.ltb_spec (Testerf.setRockSampled s r) Testerf.S)
        as [Hin|Hout]; [|discriminate].
      injection Hsample as <-. cbn [Testerf.transitions].
      rewrite (at3_assign _ _ _ s 4 s _ _ s 4 k
                 (rect_assign _ _ _ s 4 _ 1%float _ Htr1) Hs H4 Hs).
      rewrite (at3_assign _ _ _ s 4 _ _ _ s 4 k Htr1 Hs H4 Hin).
      rewrite (at3_assign _ _ _ s 4 s _ _ s 4 k Htr Hs H4 Hs).
      unfold point. rewrite !Nat.eqb_refl. cbn [andb].
      rewrite (Nat.eqb_sym k s),
        (Nat.eqb_sym k (Testerf.setRockSampled s r)).
      destruct (s =? k), (Testerf.setRockSampled s r =? k); reflexivity.
    + injection Hsample as <-. cbn [Testerf.transitions].
      rewrite (at3_assign _ _ _ s 4 s _ _ s 4 k Htr Hs H4 Hs).
      unfold point. rewrite !Nat.eqb_refl. cbn [andb].
      rewrite (Nat.eqb_sym k s). destruct (s =? k); reflexivity.
  - exists 250, 0. split; [apply Nat.ltb_lt; reflexivity|].
    split; reflexivity.
Qed.

End TesterfProperties.

(** ** The properties above at concrete inputs *)

Lemma any_start_witness :
  1 <= 3
  /\ exists rest,
       log (rollout_run (Example.corridor 100 0.5%float) 0 3 Example.g0 tt)
       = sample (Example.corridor 100 0.5%float)
           (action_distribution (Example.corridor 100 0.5%float))
           0 1%float 0 Example.g0 tt :: rest.
Proof.
  assert (Hdepth : 1 <= 3) by repeat constructor.
  split; [exact Hdepth|].
  destruct (rollouts_simulate_from_any_start
              (Example.corridor 100 0.5%float) 0 1 0.01%float 0 3
              Example.g0 tt Hdepth) as (_ & Hplain & _).
  exact Hplain.
Defined.

Lemma shallower_prefix_witness :
  2 <= 5
  /\ log (rollout_run (Example.corridor 100 0.5%float) 0 2 Example.g0 tt)
     = firstn 2
         (log (rollout_run (Example.corridor 100 0.5%float) 0 5 Example.g0 tt)).
Proof.
  assert (Hk : 2 <= 5) by repeat constructor.
  split; [exact Hk|].
  exact (proj1 (rollout_shallower_is_prefix
                  (Example.corridor 100 0.5%float) 2 5 0 Example.g0 tt Hk)).
Defined.

Lemma simulates_at_least_witness :
  exists r,
    adaptive_run (Example.corridor 100 0.5%float) 2 3 0.6%float 0 10
      Example.g0 tt = Returned r
    /\ why r <> AtTerminal
    /\ Nat.min 10 (Nat.max 3 3) <= length (log r).
Proof.
  eexists. split; [vm_compute; reflexivity|].
  split; [discriminate|].
  match goal with
  | |- _ <= length (log ?r) =>
      refine (proj1 (adaptive_simulates_at_least
                       (Example.corridor 100 0.5%float) 2 3 0.6%float 0 10
                       Example.g0 tt r _ _))
  end; [vm_compute; reflexivity|discriminate].
Defined.

Lemma goup_witness :
  exists a0 a1 ch rest,
    Rendering.up {| Rendering.up := Rendering.up_initial; Rendering.cout := [] |}
    = a0 :: a1 :: ch :: rest
    /\ Rendering.up
         (Rendering.goup 12
            {| Rendering.up := Rendering.up_initial; Rendering.cout := [] |})
       = Rendering.cursor_up a0 a1 rest 3.
Proof.
  do 4 eexists. split; [reflexivity|].
  exact (proj1 (proj2 (goup_moves_up_by_x 12
                         {| Rendering.up := Rendering.up_initial;
                            Rendering.cout := [] |} _ _ _ _ eq_refl))).
Defined.

Lemma godown_goup_witness :
  exists a0 a1 ch rest,
    Rendering.up {| Rendering.up := Rendering.up_initial; Rendering.cout := [] |}
    = a0 :: a1 :: ch :: rest
    /\ Rendering.cout
         (Rendering.godown 12
            {| Rendering.up := Rendering.up_initial; Rendering.cout := [] |})
       = [] ++ repeat Rendering.newline 12.
Proof.
  do 4 eexists. split; [reflexivity|].
  exact (proj1 (godown_then_goup 12
                  {| Rendering.up := Rendering.up_initial;
                     Rendering.cout := [] |} _ _ _ _ eq_refl)).
Defined.

Lemma variants_agree_witness :
  RockState.exact_pow3 2 = (3 ^ N.of_nat 2)%N
  /\ 2 <= 37
  /\ RockState.getRockStateFast RockState.exact_pow3 1000%N 2
     = RockState.getRockState 1000%N 2.
Proof.
  assert (Hi : 2 <= 37) by (apply Nat.leb_le; reflexivity).
  split; [reflexivity|]. split; [exact Hi|].
  exact (getRockState_variants_agree RockState.exact_pow3 1000%N 2
           eq_refl Hi).
Defined.

Lemma bitwise_or_witness :
  (100 < 2 ^ 64)%N
  /\ RockState.setRockSampled RockState.exact_pow3 100%N 0 = N.lor 100 50.
Proof.
  assert (Hs : (100 < 2 ^ 64)%N) by reflexivity.
  split; [exact Hs|].
  exact (proj1 (setRockSampled_is_bitwise_or RockState.exact_pow3 100%N 0 Hs)).
Defined.

Lemma rock11_move_witness :
  5 < RockSample.Rock11.S /\ 0 < RockSample.Rock11.A
  /\ 16 < RockSample.Rock11.S
  /\ Tiger.at3
       (Tiger.transitions RockSample.Rock11.makeRockSampleProblem) 5 0 16
     = 0.9%float.
Proof.
  assert (Hs : 5 < RockSample.Rock11.S) by (apply Nat.ltb_lt; reflexivity).
  assert (Ha : 0 < RockSample.Rock11.A) by (apply Nat.ltb_lt; reflexivity).
  assert (Hs1 : 16 < RockSample.Rock11.S) by (apply Nat.ltb_lt; reflexivity).
  split; [exact Hs|]. split; [exact Ha|]. split; [exact Hs1|].
  rewrite (rock11_transition_cells 5 0 16 Hs Ha Hs1). reflexivity.
Defined.

Lemma rock11_blocked_witness :
  0 < RockSample.Rock11.S /\ 1 < RockSample.Rock11.A
  /\ Tiger.row_sum RockSample.Rock11.transitions 0 1 = (1 - 0.9)%float
  /\ ~ Tiger.is_distribution RockSample.Rock11.transitions 0 1.
Proof.
  assert (Hs : 0 < RockSample.Rock11.S) by (apply Nat.ltb_lt; reflexivity).
  assert (Ha : 1 < RockSample.Rock11.A) by (apply Nat.ltb_lt; reflexivity).
  split; [exact Hs|]. split; [exact Ha|].
  destruct (rock11_blocked_moves_lose_mass 0 1 Hs Ha) as (Hiff & Hblocked).
  split.
  - apply Hblocked; [apply Nat.ltb_lt|]; reflexivity.
  - intros Hdist. apply (proj1 Hiff Hdist); [apply Nat.ltb_lt|]; reflexivity.
Defined.

Lemma rock11_check_witness :
  121 < RockSample.Rock11.S /\ 5 < RockSample.Rock11.A
  /\ nth 5
       (nth 121
          (Tiger.observations RockSample.Rock11.makeRockSampleProblem) []) []
     = [0.95; 1 - 0.95; 0]%float.
Proof.
  assert (Hs : 121 < RockSample.Rock11.S) by (apply Nat.ltb_lt; reflexivity).
  assert (Ha : 5 < RockSample.Rock11.A) by (apply Nat.ltb_lt; reflexivity).
  split; [exact Hs|]. split; [exact Ha|].
  rewrite (proj1 (rock11_observation_rows 121 5 Hs Ha)). reflexivity.
Defined.

Lemma rock11_sample_witness :
  7 < RockSample.Rock11.S /\ 4 < RockSample.Rock11.A
  /\ 9 < RockSample.Rock11.S
  /\ Tiger.at3 (Tiger.rewards RockSample.Rock11.makeRockSampleProblem) 7 4 9
     = 10%float.
Proof.
  assert (Hs : 7 < RockSample.Rock11.S) by (apply Nat.ltb_lt; reflexivity).
  assert (Ha : 4 < RockSample.Rock11.A) by (apply Nat.ltb_lt; reflexivity).
  assert (Hs1 : 9 < RockSample.Rock11.S) by (apply Nat.ltb_lt; reflexivity).
  split; [exact Hs|]. split; [exact Ha|]. split; [exact Hs1|].
  rewrite (proj1 (rock11_rewards_never_penalise 7 4 9 Hs Ha Hs1)). reflexivity.
Defined.

Lemma rock7_wall_witness :
  0 < RockSample.Rock7.S /\ 1 < RockSample.Rock7.A
  /\ 0 < RockSample.Rock7.S
  /\ Tiger.at3
       (Tiger.transitions RockSample.Rock7.make7x7RockSampleProblem) 0 1 0
     = 1%float.
Proof.
  assert (Hs : 0 < RockSample.Rock7.S) by (apply Nat.ltb_lt; reflexivity).
  assert (Ha : 1 < RockSample.Rock7.A) by (apply Nat.ltb_lt; reflexivity).
  split; [exact Hs|]. split; [exact Ha|]. split; [exact Hs|].
  rewrite (rock7_transition_cells 0 1 0 Hs Ha Hs). reflexivity.
Defined.

Lemma rock7_distribution_witness :
  8 < RockSample.Rock7.S /\ 3 < RockSample.Rock7.A
  /\ Tiger.is_distribution
       (Tiger.transitions RockSample.Rock7.make7x7RockSampleProblem) 8 3.
Proof.
  assert (Hs : 8 < RockSample.Rock7.S) by (apply Nat.ltb_lt; reflexivity).
  assert (Ha : 3 < RockSample.Rock7.A) by (apply Nat.ltb_lt; reflexivity).
  split; [exact Hs|]. split; [exact Ha|].
  exact (rock7_transition_rows_are_distributions 8 3 Hs Ha).
Defined.

Lemma rock7_check_witness :
  98 < RockSample.Rock7.S /\ 6 < RockSample.Rock7.A
  /\ nth 6
       (nth 98
          (Tiger.observations RockSample.Rock7.make7x7RockSampleProblem) []) []
     = [0.95; 0.05; 0]%float.
Proof.
  assert (Hs : 98 < RockSample.Rock7.S) by (apply Nat.ltb_lt; reflexivity).
  assert (Ha : 6 < RockSample.Rock7.A) by (apply Nat.ltb_lt; reflexivity).
  split; [exact Hs|]. split; [exact Ha|].
  rewrite (proj1 (rock7_observation_rows 98 6 Hs Ha)). reflexivity.
Defined.

Lemma rock7_sample_witness :
  7 < RockSample.Rock7.S /\ 4 < RockSample.Rock7.A
  /\ 9 < RockSample.Rock7.S
  /\ Tiger.at3 (Tiger.rewards RockSample.Rock7.make7x7RockSampleProblem) 7 4 9
     = (-10)%float.
Proof.
  assert (Hs : 7 < RockSample.Rock7.S) by (apply Nat.ltb_lt; reflexivity).
  assert (Ha : 4 < RockSample.Rock7.A) by (apply Nat.ltb_lt; reflexivity).
  assert (Hs1 : 9 < RockSample.Rock7.S) by (apply Nat.ltb_lt; reflexivity).
  split; [exact Hs|]. split; [exact Ha|]. split; [exact Hs1|].
  rewrite (rock7_sampling_is_penalised 7 4 9 Hs Ha Hs1). reflexivity.
Defined.

Lemma rock9_distribution_witness :
  0 < Rock9x9.S /\ 0 < Rock9x9.A
  /\ Tiger.is_distribution
       (Tiger.transitions Rock9x9.make9x9RockSampleProblem) 0 0.
Proof.
  assert (Hs : 0 < Rock9x9.S) by (apply Nat.ltb_lt; reflexivity).
  assert (Ha : 0 < Rock9x9.A) by (apply Nat.ltb_lt; reflexivity).
  split; [exact Hs|]. split; [exact Ha|].
  exact (proj2 (rock9_transition_rows 0 0 Hs Ha)).
Defined.

Lemma rock9_check_witness :
  9 < Rock9x9.S /\ 5 < Rock9x9.A
  /\ nth 5
       (nth 9 (Tiger.observations Rock9x9.make9x9RockSampleProblem) []) []
     = [0.95; 0.05; 0]%float.
Proof.
  assert (Hs : 9 < Rock9x9.S) by (apply Nat.ltb_lt; reflexivity).
  assert (Ha : 5 < Rock9x9.A) by (apply Nat.ltb_lt; reflexivity).
  split; [exact Hs|]. split; [exact Ha|].
  rewrite (proj1 (rock9_observation_rows 9 5 Hs Ha)). reflexivity.
Defined.

Lemma rock9_sample_witness :
  7 < Rock9x9.S /\ 4 < Rock9x9.A /\ 9 < Rock9x9.S
  /\ Tiger.at3 (Tiger.rewards Rock9x9.make9x9RockSampleProblem) 7 4 9
     = (-10)%float.
Proof.
  assert (Hs : 7 < Rock9x9.S) by (apply Nat.ltb_lt; reflexivity).
  assert (Ha : 4 < Rock9x9.A) by (apply Nat.ltb_lt; reflexivity).
  assert (Hs1 : 9 < Rock9x9.S) by (apply Nat.ltb_lt; reflexivity).
  split; [exact Hs|]. split; [exact Ha|]. split; [exact Hs1|].
  rewrite (rock9_sampling_is_penalised 7 4 9 Hs Ha Hs1). reflexivity.
Defined.

Lemma testerf_out_of_range_witness :
  let T :=
    {| Testerf.transitions := Tiger.extents Testerf.S Testerf.A Testerf.S;
       Testerf.rewards := Tiger.extents Testerf.S Testerf.A Testerf.S;
       Testerf.observations := Tiger.extents Testerf.S Testerf.A Testerf.O |} in
  RockSample.rect Testerf.S Testerf.A Testerf.S (Testerf.transitions T)
  /\ RockSample.rect Testerf.S Testerf.A Testerf.S (Testerf.rewards T)
  /\ RockSample.rect Testerf.S Testerf.A Testerf.O (Testerf.observations T)
  /\ 680 < Testerf.S
  /\ Testerf.sample_of 680 T = None.
Proof.
  intros T.
  assert (Htr : RockSample.rect Testerf.S Testerf.A Testerf.S
                  (Testerf.transitions T)) by apply rect_extents.
  assert (Hrw : RockSample.rect Testerf.S Testerf.A Testerf.S
                  (Testerf.rewards T)) by apply rect_extents.
  assert (Hob : RockSample.rect Testerf.S Testerf.A Testerf.O
                  (Testerf.observations T)) by apply rect_extents.
  assert (Hs : 680 < Testerf.S) by (apply Nat.ltb_lt; reflexivity).
  split; [exact Htr|]. split; [exact Hrw|]. split; [exact Hob|].
  split; [exact Hs|].
  apply (proj1 (testerf_sample_leaves_the_tables T Htr Hrw Hob) 680 Hs).
  exists 3. split; [reflexivity|]. apply Nat.leb_le. reflexivity.
Defined.

Lemma testerf_row_witness :
  let T :=
    {| Testerf.transitions := Tiger.extents Testerf.S Testerf.A Testerf.S;
       Testerf.rewards := Tiger.extents Testerf.S Testerf.A Testerf.S;
       Testerf.observations := Tiger.extents Testerf.S Testerf.A Testerf.O |} in
  exists T',
    0 < Testerf.S
    /\ Testerf.sample_of 0 T = Some T'
    /\ Tiger.at3 (Testerf.transitions T') 0 4 50 = 1%float.
Proof.
  intros T.
  assert (Htr : RockSample.rect Testerf.S Testerf.A Testerf.S
                  (Testerf.transitions T)) by apply rect_extents.
  assert (Hrw : RockSample.rect Testerf.S Testerf.A Testerf.S
                  (Testerf.rewards T)) by apply rect_extents.
  assert (Hob : RockSample.rect Testerf.S Testerf.A Testerf.O
                  (Testerf.observations T)) by apply rect_extents.
  assert (Hs : 0 < Testerf.S) by (apply Nat.ltb_lt; reflexivity).
  assert (Hk : 50 < Testerf.S) by (apply Nat.ltb_lt; reflexivity).
  pose proof (sample_of_spec T 0 Htr Hrw Hob Hs) as Hsample.
  change (Testerf.sampled_rock 0) with (Some 0) in Hsample.
  cbv zeta in Hsample.
  change (Testerf.setRockSampled 0 0 <? Testerf.S) with true in Hsample.
  eexists. split; [exact Hs|]. split; [exact Hsample|].
  rewrite (proj1 (testerf_sample_row T _ 0 Htr Hrw Hob Hs Hsample) 50 Hk).
  reflexivity.
Defined.
